(** * Video-Sheet-Generator: a shallow embedding of [video_sheet_generator.py]

    The development follows the layout of the script: the Python run-time
    operations the script relies on (numbers, strings, [os.path]), the
    configuration constants, the external collaborators (ffprobe, ffmpeg, the
    file system, Pillow) as a record of oracles, then the script's functions in
    source order, and finally the properties proved about them.

    Conventions.
    - A Python [float] is an IEEE-754 binary64 value: Rocq's primitive [float],
      whose operations are specified by [SpecFloat].  A Python [int] is a [Z].
    - A Python exception is a value [Raise e] of the result type [res].
    - A [str] is a Rocq [string] of code points below 256.
    - [os.path] is [posixpath].
    - The pool of [process_folder] is run one task after the other, in the
      order in which the tasks complete. *)

From Stdlib Require Import ZArith List String Ascii Bool Lia Floats.
From Stdlib Require Import DecimalString DecimalN Permutation Reals Lra Psatz.
Import ListNotations.

Local Open Scope string_scope.
Local Open Scope list_scope.
Local Open Scope Z_scope.

(** ** Exceptions and results *)

Inductive exn : Set :=
| ZeroDivisionError
| OverflowError
| ValueError
| MemoryError
| CalledProcessError
| OSError.

Inductive res (A : Type) : Type :=
| Ok (a : A)
| Raise (e : exn).

Arguments Ok {A} a.
Arguments Raise {A} e.

Definition bind {A B : Type} (m : res A) (k : A -> res B) : res B :=
  match m with
  | Ok a => k a
  | Raise e => Raise e
  end.

Notation "x <- m ;; k" := (bind m (fun x => k))
  (at level 61, m at next level, right associativity).

Fixpoint mapM {A B : Type} (f : A -> res B) (l : list A) : res (list B) :=
  match l with
  | [] => Ok []
  | a :: l' => b <- f a ;; bs <- mapM f l' ;; Ok (b :: bs)
  end.

(** ** Python numbers *)

Module Py.

Inductive num : Set :=
| PyInt (z : Z)
| PyFloat (f : float).

(** The binary64 value nearest to an integer (ties to even). *)
Definition float_of_Z (z : Z) : float :=
  SF2Prim (binary_normalize prec emax z 0 false).

(** [float(z)] for an [int]: too large an integer raises [OverflowError]. *)
Definition float_of_int (z : Z) : res float :=
  let f := float_of_Z z in
  if is_infinity f then Raise OverflowError else Ok f.

Definition to_float (x : num) : res float :=
  match x with
  | PyInt z => float_of_int z
  | PyFloat f => Ok f
  end.

(** [a / b] on two floats. *)
Definition float_truediv (a b : float) : res float :=
  if PrimFloat.eqb b zero then Raise ZeroDivisionError
  else Ok (PrimFloat.div a b).

(** [a / b] on two ints: the exact quotient, rounded once. *)
Definition int_truediv (a b : Z) : res float :=
  if b =? 0 then Raise ZeroDivisionError
  else
    let s := xorb (a <? 0) (b <? 0) in
    match Z.abs a with
    | Z0 => Ok (if s then neg_zero else zero)
    | ma =>
        let '(q, e, l) := SFdiv_core_binary prec emax ma 0 (Z.abs b) 0 in
        let f := SF2Prim (binary_round_aux prec emax s q e l) in
        if is_infinity f then Raise OverflowError else Ok f
    end.

(** The operator [/]. *)
Definition truediv (x y : num) : res num :=
  match x, y with
  | PyInt a, PyInt b => f <- int_truediv a b ;; Ok (PyFloat f)
  | _, _ =>
      a <- to_float x ;; b <- to_float y ;;
      f <- float_truediv a b ;; Ok (PyFloat f)
  end.

(** The operator [*]. *)
Definition mul (x y : num) : res num :=
  match x, y with
  | PyInt a, PyInt b => Ok (PyInt (a * b))
  | _, _ =>
      a <- to_float x ;; b <- to_float y ;; Ok (PyFloat (PrimFloat.mul a b))
  end.

(** The test [x <= 0]; it is false on a NaN. *)
Definition le_zero (x : num) : bool :=
  match x with
  | PyInt z => z <=? 0
  | PyFloat f => PrimFloat.leb f zero
  end.

(** The test [0 < x]. *)
Definition gt_zero (x : num) : bool :=
  match x with
  | PyInt z => 0 <? z
  | PyFloat f => PrimFloat.ltb zero f
  end.

(** The comparison [x < y] of two floats, lifted to numbers through
    [float]; an integer too large for a float compares as not below. *)
Definition lt (x y : num) : bool :=
  match x, y with
  | PyInt a, PyInt b => a <? b
  | _, _ =>
      match to_float x, to_float y with
      | Ok a, Ok b => PrimFloat.ltb a b
      | _, _ => false
      end
  end.

(** [int(f)] truncates towards zero; a NaN raises [ValueError], an infinity
    [OverflowError]. *)
Definition int_of_float (f : float) : res Z :=
  match Prim2SF f with
  | S754_nan => Raise ValueError
  | S754_infinity _ => Raise OverflowError
  | S754_zero _ => Ok 0
  | S754_finite s m e =>
      let a := Z.shiftl (Z.pos m) e in
      Ok (if s then - a else a)
  end.

Definition int_of (x : num) : res Z :=
  match x with
  | PyInt z => Ok z
  | PyFloat f => int_of_float f
  end.

(** [divmod] on ints: floor division, the remainder has the divisor's sign. *)
Definition divmod (a b : Z) : Z * Z := (a / b, a mod b).

(** [str(n)] for a natural number. *)
Definition str_of_N (n : N) : string := NilZero.string_of_uint (N.to_uint n).

(** [str(z)] for an int. *)
Definition str_of_Z (z : Z) : string :=
  if z <? 0 then ("-" ++ str_of_N (Z.abs_N z))%string else str_of_N (Z.abs_N z).

(** [f"{z:02}"]: at least two characters, padded with a zero after the sign. *)
Definition fmt02 (z : Z) : string :=
  let ds := str_of_N (Z.abs_N z) in
  if z <? 0 then ("-" ++ ds)%string
  else if (String.length ds <? 2)%nat then ("0" ++ ds)%string else ds.

(** [range(n)]. *)
Definition range (n : Z) : list Z := map Z.of_nat (seq 0 (Z.to_nat n)).

(** *** Strings *)

Definition code (c : ascii) : Z := Z.of_nat (nat_of_ascii c).

Definition mem_Z (z : Z) (l : list Z) : bool := existsb (Z.eqb z) l.

(** [c.isspace()] on the code points below 256. *)
Definition is_space (c : ascii) : bool :=
  mem_Z (code c) [9; 10; 11; 12; 13; 28; 29; 30; 31; 32; 133; 160].

Fixpoint lstrip (s : string) : string :=
  match s with
  | String c s' => if is_space c then lstrip s' else s
  | EmptyString => EmptyString
  end.

(** [s.rstrip()]: a character stays when it is no space or when something
    stays after it. *)
Fixpoint rstrip (s : string) : string :=
  match s with
  | String c s' =>
      match rstrip s' with
      | EmptyString => if is_space c then EmptyString else String c EmptyString
      | t => String c t
      end
  | EmptyString => EmptyString
  end.

(** [s.strip()]. *)
Definition strip (s : string) : string := rstrip (lstrip s).

(** The truth value of a string: it is not empty. *)
Definition truthy (s : string) : bool :=
  match s with
  | EmptyString => false
  | String _ _ => true
  end.

Definition lower_char (c : ascii) : ascii :=
  let n := code c in
  if ((65 <=? n) && (n <=? 90)) || ((192 <=? n) && (n <=? 222) && negb (n =? 215))
  then ascii_of_nat (Z.to_nat (n + 32))
  else c.

(** [s.lower()] on the code points below 256. *)
Fixpoint lower (s : string) : string :=
  match s with
  | String c s' => String (lower_char c) (lower s')
  | EmptyString => EmptyString
  end.

(** [s.rfind(c)] for a one-character [c]: the last index of [c], or [-1]. *)
Fixpoint rfind_from (c : ascii) (s : string) (i last : Z) : Z :=
  match s with
  | String a s' => rfind_from c s' (i + 1) (if Ascii.eqb a c then i else last)
  | EmptyString => last
  end.

Definition rfind (c : ascii) (s : string) : Z := rfind_from c s 0 (-1).

Fixpoint take (n : nat) (s : string) : string :=
  match n, s with
  | S n', String c s' => String c (take n' s')
  | _, _ => EmptyString
  end.

Fixpoint drop (n : nat) (s : string) : string :=
  match n, s with
  | S n', String _ s' => drop n' s'
  | _, _ => s
  end.

(** The slices [s[:k]], [s[k:]] and [s[i:k]] for indices that are not
    negative. *)
Definition slice_to (s : string) (k : Z) : string := take (Z.to_nat k) s.
Definition slice_from (s : string) (k : Z) : string := drop (Z.to_nat k) s.
Definition slice (s : string) (i k : Z) : string :=
  take (Z.to_nat (k - i)) (drop (Z.to_nat i) s).

Definition startswith (c : ascii) (s : string) : bool :=
  match s with
  | String a _ => Ascii.eqb a c
  | EmptyString => false
  end.

Fixpoint endswith (c : ascii) (s : string) : bool :=
  match s with
  | String a EmptyString => Ascii.eqb a c
  | String _ s' => endswith c s'
  | EmptyString => false
  end.

Definition mem_string (x : string) (l : list string) : bool :=
  existsb (String.eqb x) l.

(** *** [float(s)] and [f"{x:.2f}"] *)

Definition is_digit (c : ascii) : bool := (48 <=? code c) && (code c <=? 57).

Definition digit_val (c : ascii) : Z := code c - 48.

(** The rest of a digit part, [(["_"] digit)*], after its first digit: the
    accumulated value, the number of digits read, the unread text. *)
Fixpoint digits_more (s : string) (acc n : Z) : Z * Z * string :=
  match s with
  | String c s' =>
      if is_digit c then digits_more s' (10 * acc + digit_val c) (n + 1)
      else if Ascii.eqb c "_" then
        match s' with
        | String d s'' =>
            if is_digit d then digits_more s'' (10 * acc + digit_val d) (n + 1)
            else (acc, n, s)
        | EmptyString => (acc, n, s)
        end
      else (acc, n, s)
  | EmptyString => (acc, n, s)
  end.

(** A digit part, [digit (["_"] digit)*]; no digit read when it is absent. *)
Definition digitpart (s : string) (acc : Z) : Z * Z * string :=
  match s with
  | String c s' =>
      if is_digit c then digits_more s' (10 * acc + digit_val c) 1
      else (acc, 0, s)
  | EmptyString => (acc, 0, s)
  end.

Definition take_sign (s : string) : bool * string :=
  match s with
  | String "-" s' => (true, s')
  | String "+" s' => (false, s')
  | _ => (false, s)
  end.

(** The binary64 value nearest to [m * 10 ^ e10], for [0 <= m]. *)
Definition float_of_decimal (neg : bool) (m e10 : Z) : float :=
  match m with
  | Z.pos _ =>
      if 0 <=? e10
      then SF2Prim (binary_normalize prec emax
                      ((if neg then - m else m) * 10 ^ e10) 0 neg)
      else
        let '(q, e, l) := SFdiv_core_binary prec emax m 0 (10 ^ (- e10)) 0 in
        SF2Prim (binary_round_aux prec emax neg q e l)
  | _ => if neg then neg_zero else zero
  end.

(** The exponent part [("e" | "E") [sign] digitpart] in front of the end of
    the text; [None] when the text is anything else. *)
Definition exponent_part (s : string) : option Z :=
  match s with
  | EmptyString => Some 0
  | String c s' =>
      if Ascii.eqb c "e" || Ascii.eqb c "E" then
        let '(neg, t) := take_sign s' in
        match digitpart t 0 with
        | (v, n, EmptyString) =>
            if 0 <? n then Some (if neg then - v else v) else None
        | _ => None
        end
      else None
  end.

(** [float(s)]: surrounding white space, a sign, then [inf], [infinity],
    [nan] in any case, or [[digitpart] "." digitpart | digitpart ["."]] with
    an optional exponent.  Anything else raises [ValueError]. *)
Definition float_of_string (s : string) : res float :=
  let '(neg, body) := take_sign (strip s) in
  let lb := lower body in
  if String.eqb lb "inf" || String.eqb lb "infinity"
  then Ok (if neg then neg_infinity else infinity)
  else if String.eqb lb "nan" then Ok nan
  else
    let '(m1, n1, r1) := digitpart body 0 in
    let '(m, n2, r2, dot) :=
      match r1 with
      | String "." r => (digitpart r m1, true)
      | _ => (m1, 0, r1, false)
      end in
    if (0 <? n1) || (dot && (0 <? n2)) then
      match exponent_part r2 with
      | Some e => Ok (float_of_decimal neg m (e - n2))
      | None => Raise ValueError
      end
    else Raise ValueError.

(** [f"{x:.2f}"]: the exact value of [x] rounded to two decimals, ties to
    even. *)
Definition fmt_2f (x : float) : string :=
  match Prim2SF x with
  | S754_nan => "nan"
  | S754_infinity s => if s then "-inf" else "inf"
  | S754_zero s => if s then "-0.00" else "0.00"
  | S754_finite s m e =>
      let n :=
        if 0 <=? e then Z.pos m * 2 ^ e * 100
        else
          let num := Z.pos m * 100 in
          let den := 2 ^ (- e) in
          let q := num / den in
          let r := num mod den in
          if (den <? 2 * r) || ((den =? 2 * r) && Z.odd q) then q + 1 else q in
      ((if s then "-" else "") ++ str_of_N (Z.to_N (n / 100)) ++ "."
         ++ fmt02 (n mod 100))%string
  end.

End Py.

Import Py.

(** ** [os.path] *)

Module posixpath.

(** [genericpath._splitext(p, sep, altsep, extsep)]: the extension starts at
    the last [extsep] that comes after the last separator and after a
    character of the file name that is no [extsep]. *)
Definition _splitext (p : string) (sep : ascii) (altsep : option ascii)
    (extsep : ascii) : string * string :=
  let sepIndex := rfind sep p in
  let sepIndex :=
    match altsep with
    | Some a => Z.max sepIndex (rfind a p)
    | None => sepIndex
    end in
  let dotIndex := rfind extsep p in
  if (sepIndex <? dotIndex)
     && existsb (fun c => negb (Ascii.eqb c extsep))
          (list_ascii_of_string (slice p (sepIndex + 1) dotIndex))
  then (slice_to p dotIndex, slice_from p dotIndex)
  else (p, EmptyString).

Definition splitext (p : string) : string * string :=
  _splitext p "/" None ".".

(** [basename(p)]: what follows the last separator. *)
Definition basename (p : string) : string := slice_from p (rfind "/" p + 1).

(** [dirname(p)]: what precedes the last separator, without its trailing
    separators unless it consists of separators only. *)
Fixpoint rstrip_sep (s : string) : string :=
  match s with
  | String c s' =>
      match rstrip_sep s' with
      | EmptyString => if Ascii.eqb c "/" then EmptyString else String c EmptyString
      | t => String c t
      end
  | EmptyString => EmptyString
  end.

Definition dirname (p : string) : string :=
  let head := slice_to p (rfind "/" p + 1) in
  match rstrip_sep head with
  | EmptyString => head
  | h => h
  end.

(** [join(a, b)]. *)
Definition join (a b : string) : string :=
  if startswith "/" b then b
  else if negb (truthy a) || endswith "/" a then (a ++ b)%string
  else (a ++ "/" ++ b)%string.

End posixpath.

Import posixpath.

(** ** Configuration *)

Definition SHEET_WIDTH : Z := 1920.
Definition GRID_COLUMNS : Z := 5.
Definition GRID_ROWS : Z := 5.
Definition MARGIN : Z := 5.
Definition JPEG_QUALITY : Z := 90.
Definition FONT_SIZE : Z := 22.
Definition TIME_FONT_SIZE : Z := 18.

Definition VIDEO_EXTENSIONS : list string :=
  [".mp4"; ".mkv"; ".avi"; ".mov"; ".wmv"; ".flv"; ".webm"; ".m4v"; ".mpg";
   ".mpeg"; ".3gp"].

Definition MAX_WORKERS : Z := 4.

(** ** The external collaborators *)

(** The four queries [get_video_info] sends to ffprobe ([-show_entries]). *)
Inductive probe_entry : Set :=
| FormatDuration
| StreamWidth
| StreamHeight
| StreamCodecName.

(** What [subprocess.run] observes: the executable cannot be started, or the
    process exits with a return code, having written [stdout]. *)
Inductive proc : Set :=
| NotStarted
| Exited (returncode : Z) (stdout : string).

(** [subprocess.run(..., check=True).stdout]. *)
Definition check_run (p : proc) : res string :=
  match p with
  | NotStarted => Raise OSError
  | Exited rc out => if rc =? 0 then Ok out else Raise CalledProcessError
  end.

(** The fonts [build_sheet] draws with. *)
Inductive font : Set :=
| TrueType (size : Z)
| DefaultFont.

(** The world outside the script: the two tools, the file system and Pillow.
    Every field is a function of its arguments only; what a run changes, the
    set of existing paths, is the [state] below. *)
Record World : Type := {
  (** [ffprobe -show_entries entry video_path] *)
  ffprobe : probe_entry -> string -> proc;
  (** [os.path.getsize(path)] *)
  getsize : string -> res Z;
  (** [ffmpeg -ss sec -i video_path ... output_path] *)
  ffmpeg : num -> string -> string -> proc;
  (** [Image.open(path)]: the width and height of the image, or nothing when
      it raises *)
  image_open : string -> option (Z * Z);
  (** [Image.open(path).resize((width, height))] succeeds, for an image that
      opens and a size that is positive: the data of the image decodes and
      there is memory for the result *)
  image_resize : string -> Z -> Z -> bool;
  (** there is memory for the image [Image.new] is to make, of a width and a
      height within the range of a C [int] *)
  canvas_ok : Z -> Z -> bool;
  (** [ImageFont.truetype(FONT_PATH, size)] succeeds *)
  truetype_ok : bool;
  (** the width and height of a text in a font *)
  textsize : font -> string -> Z * Z;
  (** [os.listdir(path)] *)
  listdir : string -> res (list string);
  (** [os.path.isfile(path)] *)
  isfile : string -> bool;
  (** the directory [tempfile.TemporaryDirectory()] creates *)
  mkdtemp : res string;
  (** [sheet.save(path, "JPEG", quality)] succeeds; a save that raises leaves
      no file *)
  save_ok : string -> bool
}.

(** ** The sampler and the timecode *)

(** [generate_timestamps(duration, total)]. *)
Definition generate_timestamps (duration : num) (total : Z) : res (list num) :=
  if le_zero duration then Ok (repeat (PyInt 0) (Z.to_nat total))
  else
    gap <- truediv duration (PyInt (total + 2)) ;;
    mapM (fun i => mul gap (PyInt (i + 1))) (range total).

(** [format_timestamp(seconds)]. *)
Definition format_timestamp (seconds : num) : res string :=
  n <- int_of seconds ;;
  let '(m, s) := divmod n 60 in
  let '(h, m) := divmod m 60 in
  Ok (fmt02 h ++ ":" ++ fmt02 m ++ ":" ++ fmt02 s)%string.

(** ** The probe *)

Record video_info : Set := {
  duration : num;
  resolution : string;
  size : string;
  codec : string
}.

(** The [try] block of [get_video_info]. *)
Definition get_video_info_body (w : World) (video_path : string)
    : res video_info :=
  out <- check_run (ffprobe w FormatDuration video_path) ;;
  duration <-
    (if truthy (strip out)
     then f <- float_of_string (strip out) ;; Ok (PyFloat f)
     else Ok (PyInt 0)) ;;
  out <- check_run (ffprobe w StreamWidth video_path) ;;
  let width := strip out in
  out <- check_run (ffprobe w StreamHeight video_path) ;;
  let height := strip out in
  out <- check_run (ffprobe w StreamCodecName video_path) ;;
  let codec := strip out in
  let resolution :=
    if truthy width && truthy height then (width ++ "x" ++ height)%string
    else "Unknown" in
  bytes <- getsize w video_path ;;
  size_mb <- int_truediv bytes (1024 * 1024) ;;
  Ok {| duration := duration;
        resolution := resolution;
        size := (fmt_2f size_mb ++ " MB")%string;
        codec := if truthy codec then codec else "Unknown" |}.

(** [get_video_info(video_path)]: both handlers return [None]. *)
Definition get_video_info (w : World) (video_path : string)
    : option video_info :=
  match get_video_info_body w video_path with
  | Ok info => Some info
  | Raise _ => None
  end.

(** ** The frame extractor *)

(** The loop of [extract_thumbnails], from index [i] on: a non-zero exit
    drops the frame, a tool that cannot be started is not handled. *)
Fixpoint extract_from (w : World) (video_path temp_dir : string) (i : Z)
    (timestamps : list num) : res (list (string * num)) :=
  match timestamps with
  | [] => Ok []
  | sec :: rest =>
      let output_path :=
        join temp_dir ("thumb_" ++ fmt02 i ++ ".jpg")%string in
      match ffmpeg w sec video_path output_path with
      | NotStarted => Raise OSError
      | Exited rc _ =>
          images <- extract_from w video_path temp_dir (i + 1) rest ;;
          Ok (if rc =? 0 then (output_path, sec) :: images else images)
      end
  end.

(** [extract_thumbnails(video_path, timestamps, temp_dir)]. *)
Definition extract_thumbnails (w : World) (video_path : string)
    (timestamps : list num) (temp_dir : string) : res (list (string * num)) :=
  extract_from w video_path temp_dir 0 timestamps.

(** ** The composer *)

(** What is drawn on a sheet, in order. *)
Inductive draw_op : Set :=
| DrawText (x y : Z) (text : string) (f : font)
| PasteImage (src : string) (x y w h : Z)
| PasteBackground (x y w h : Z).

Record sheet : Set := {
  sheet_width : Z;
  sheet_height : Z;
  ops : list draw_op
}.

(** [ImageFont.truetype(FONT_PATH, size)], or the default font. *)
Definition load_font (w : World) (size : Z) : font :=
  if truetype_ok w then TrueType size else DefaultFont.

Definition thumb_width : Z :=
  (SHEET_WIDTH - (GRID_COLUMNS + 1) * MARGIN) / GRID_COLUMNS.

(** [int(thumb_width * (height / width))] for the size of the first
    thumbnail. *)
Definition thumb_height_of (width height : Z) : res Z :=
  ratio <- truediv (PyInt height) (PyInt width) ;;
  scaled <- mul (PyInt thumb_width) ratio ;;
  int_of scaled.

Definition info_header_height : Z := FONT_SIZE * 5 + 20.

(** The header loop: one line every [FONT_SIZE + 2] pixels from [y_offset]
    on; the offset after the last line comes with the texts drawn. *)
Fixpoint draw_lines (f : font) (y_offset : Z) (lines : list string)
    : list draw_op * Z :=
  match lines with
  | [] => ([], y_offset)
  | line :: rest =>
      let '(drawn, y_end) := draw_lines f (y_offset + (FONT_SIZE + 2)) rest in
      (DrawText MARGIN y_offset line f :: drawn, y_end)
  end.

(** [Image.new(mode, (width, height))]: a negative width or height raises
    [ValueError], one beyond the range of a C [int] raises [OverflowError];
    within these bounds the image is made when there is memory for it. *)
Definition image_new (w : World) (width height : Z) : res unit :=
  if (width <? 0) || (height <? 0) then Raise ValueError
  else if (2 ^ 31 <=? width) || (2 ^ 31 <=? height) then Raise OverflowError
  else if canvas_ok w width height then Ok tt
  else Raise MemoryError.

(** [Image.resize((w, h))] needs a positive width and height. *)
Definition resize_ok (w h : Z) : bool := (0 <? w) && (0 <? h).

(** One turn of the grid loop: the thumbnail is opened, resized and pasted,
    then its timecode is drawn on a dark background, a small image whose
    creation is taken to succeed.  An exception ends the turn and keeps what
    the turn has drawn so far. *)
Definition place_thumbnail (w : World) (time_font : font)
    (thumb_height y_offset idx : Z) (thumb : string * num) : list draw_op :=
  let '(thumb_path, ts) := thumb in
  let row := idx / GRID_COLUMNS in
  let col := idx mod GRID_COLUMNS in
  let x := MARGIN + col * (thumb_width + MARGIN) in
  let y := y_offset + row * (thumb_height + MARGIN) in
  match image_open w thumb_path with
  | Some _ =>
      if resize_ok thumb_width thumb_height
         && image_resize w thumb_path thumb_width thumb_height then
        PasteImage thumb_path x y thumb_width thumb_height ::
        match format_timestamp ts with
        | Ok timestamp =>
            let '(text_width, text_height) := textsize w time_font timestamp in
            [PasteBackground (x + 5) (y + 5) (text_width + 6) (text_height + 2);
             DrawText (x + 8) (y + 5) timestamp time_font]
        | Raise _ => []
        end
      else []
  | None => []
  end.

(** The grid loop, [for idx, (thumb_path, ts) in enumerate(thumbnails)], from
    index [idx] on. *)
Fixpoint place_from (w : World) (time_font : font) (thumb_height y_offset : Z)
    (idx : Z) (thumbnails : list (string * num)) : list draw_op :=
  match thumbnails with
  | [] => []
  | thumb :: rest =>
      place_thumbnail w time_font thumb_height y_offset idx thumb
      ++ place_from w time_font thumb_height y_offset (idx + 1) rest
  end.

(** The outer [try] block of [build_sheet], for thumbnails that are not
    empty. *)
Definition build_sheet_body (w : World) (video_path : string)
    (first : string * num) (thumbnails : list (string * num))
    (info : video_info) : res sheet :=
  match image_open w (fst first) with
  | None => Raise OSError
  | Some (width, height) =>
      thumb_height <- thumb_height_of width height ;;
      let sheet_height :=
        GRID_ROWS * (thumb_height + MARGIN) + MARGIN + info_header_height in
      _ <- image_new w SHEET_WIDTH sheet_height ;;
      let font := load_font w FONT_SIZE in
      let time_font := load_font w TIME_FONT_SIZE in
      let base_name := basename video_path in
      shown <- format_timestamp (duration info) ;;
      let lines :=
        [("Filename: " ++ base_name)%string;
         ("Size: " ++ size info)%string;
         ("Resolution: " ++ resolution info)%string;
         ("Video Codec: " ++ codec info)%string;
         ("Duration: " ++ shown)%string] in
      let '(header, y_offset) := draw_lines font MARGIN lines in
      let y_offset := y_offset + 8 in
      Ok {| sheet_width := SHEET_WIDTH;
            sheet_height := sheet_height;
            ops := header
                   ++ place_from w time_font thumb_height y_offset 0 thumbnails |}
  end.

(** [build_sheet(video_path, thumbnails, video_info)]. *)
Definition build_sheet (w : World) (video_path : string)
    (thumbnails : list (string * num)) (info : video_info) : option sheet :=
  match thumbnails with
  | [] => None
  | first :: _ =>
      match build_sheet_body w video_path first thumbnails info with
      | Ok s => Some s
      | Raise _ => None
      end
  end.

(** ** The pipeline for one video *)

(** The paths that exist; [sheet.save] adds one. *)
Definition state : Set := list string.

(** [os.path.exists(path)]. *)
Definition path_exists (st : state) (path : string) : bool :=
  mem_string path st.

(** What a run does that can be observed: a line on the console, and the
    calls of the stages. *)
Inductive event : Set :=
| Print (line : string)
| CallProbe (video_path : string)
| CallExtract (video_path : string)
| CallCompose (video_path : string)
| CallSave (output_path : string).

(** Where the sheet of a video goes. *)
Definition sheet_path (video_path : string) : string :=
  (fst (splitext video_path) ++ "_sheet.jpg")%string.

(** The prefix [[current_index/total_videos] ] of a progress line. *)
Definition progress (current_index total_videos : Z) : string :=
  ("[" ++ str_of_Z current_index ++ "/" ++ str_of_Z total_videos ++ "] ")%string.

(** [process_video(video_path, total_videos, current_index)]: the value
    returned, what was observed, and the paths that exist afterwards.  An
    exception inside the [try] block prints a line, written here without the
    text of the exception, and returns [False]. *)
Definition process_video (w : World) (st : state) (video_path : string)
    (total_videos current_index : Z) : bool * list event * state :=
  let tag := progress current_index total_videos in
  let base_name := basename video_path in
  let output_path := sheet_path video_path in
  let error := Print (tag ++ "Error processing " ++ base_name)%string in
  if path_exists st output_path then
    (true,
     [Print (tag ++ "Sheet already exists for " ++ base_name ++ ", skipping...")%string],
     st)
  else
    let log := [Print (tag ++ "Processing: " ++ base_name)%string;
                CallProbe video_path] in
    match get_video_info w video_path with
    | None =>
        (false, log ++ [Print (tag ++ "Failed to analyze " ++ base_name)%string], st)
    | Some info =>
        match generate_timestamps (duration info) (GRID_COLUMNS * GRID_ROWS) with
        | Raise _ => (false, log ++ [error], st)
        | Ok timestamps =>
            match mkdtemp w with
            | Raise _ => (false, log ++ [error], st)
            | Ok tmpdir =>
                let log := log ++ [CallExtract video_path] in
                match extract_thumbnails w video_path timestamps tmpdir with
                | Raise _ => (false, log ++ [error], st)
                | Ok [] =>
                    (false,
                     log ++ [Print (tag ++ "Failed to extract thumbnails for "
                                        ++ base_name)%string],
                     st)
                | Ok thumbs =>
                    let log := log ++ [CallCompose video_path] in
                    match build_sheet w video_path thumbs info with
                    | Some _ =>
                        let log := log ++ [CallSave output_path] in
                        if save_ok w output_path then
                          (true,
                           log ++ [Print (tag ++ "Saved sheet for " ++ base_name)%string],
                           output_path :: st)
                        else (false, log ++ [error], st)
                    | None =>
                        (false,
                         log ++ [Print (tag ++ "Failed to build sheet for "
                                            ++ base_name)%string],
                         st)
                    end
                end
            end
        end
    end.

(** ** The batch *)

(** [find_video_files(folder_path)]: an exception of [os.listdir] is printed
    and leaves the list empty. *)
Definition find_video_files (w : World) (folder_path : string) : list string :=
  match listdir w folder_path with
  | Ok files =>
      flat_map
        (fun file =>
           let file_path := join folder_path file in
           if isfile w file_path then
             let ext := lower (snd (splitext file)) in
             if mem_string ext VIDEO_EXTENSIONS then [file_path] else []
           else [])
        files
  | Raise _ => []
  end.

(** What [future.result()] gives: the value [process_video] returned, or an
    exception. *)
Inductive worker_result : Set :=
| Returned (result : bool)
| Raised (e : exn).

Record batch_result : Set := {
  total : Z;
  successful : Z;
  failed : Z
}.

(** The loop over [as_completed]: one counter moves per result. *)
Fixpoint count_results (results : list worker_result) (successful failed : Z)
    : Z * Z :=
  match results with
  | [] => (successful, failed)
  | Returned true :: rest => count_results rest (successful + 1) failed
  | Returned false :: rest => count_results rest successful (failed + 1)
  | Raised _ :: rest => count_results rest successful (failed + 1)
  end.

(** [enumerate(video_files)] with the index [i + 1] each task is given. *)
Fixpoint enumerate_from (i : Z) (video_files : list string)
    : list (string * Z) :=
  match video_files with
  | [] => []
  | v :: rest => (v, i + 1) :: enumerate_from (i + 1) rest
  end.

(** The tasks, run one after the other in the order they complete. *)
Fixpoint run_tasks (w : World) (st : state) (total_videos : Z)
    (tasks : list (string * Z))
    : list worker_result * list event * state :=
  match tasks with
  | [] => ([], [], st)
  | (video_path, index) :: rest =>
      let '(result, log, st1) :=
        process_video w st video_path total_videos index in
      let '(results, logs, st2) := run_tasks w st1 total_videos rest in
      (Returned result :: results, log ++ logs, st2)
  end.

(** [process_folder(folder_path)]: the three numbers it prints, or nothing
    when no video file was found.  [completion] is the order in which the
    pool completes the tasks it was given. *)
Definition process_folder (w : World) (st : state)
    (completion : list (string * Z) -> list (string * Z))
    (folder_path : string) : option batch_result * state :=
  let video_files := find_video_files w folder_path in
  match video_files with
  | [] => (None, st)
  | _ =>
      let n := Z.of_nat (List.length video_files) in
      let tasks := enumerate_from 0 video_files in
      let '(results, _, st') := run_tasks w st n (completion tasks) in
      let '(successful, failed) := count_results results 0 0 in
      (Some {| total := n; successful := successful; failed := failed |}, st')
  end.

(** ** Notions used in the statements *)

(** *** Timecodes *)

Definition digit_char (d : Z) : ascii := ascii_of_nat (Z.to_nat (48 + d)).

(** A number below 100 written with two digits. *)
Definition two_digits (z : Z) : string :=
  String (digit_char (z / 10)) (String (digit_char (z mod 10)) EmptyString).

(** A number [format_timestamp] accepts: an int, or a float that is neither
    a NaN nor an infinity. *)
Definition finite_num (x : num) : bool :=
  match x with
  | PyInt _ => true
  | PyFloat f => is_finite f
  end.

(** *** Paths *)

(** [c] occurs in [s]. *)
Fixpoint occurs (c : ascii) (s : string) : bool :=
  match s with
  | String a s' => Ascii.eqb a c || occurs c s'
  | EmptyString => false
  end.

Definition strlen (s : string) : Z := Z.of_nat (String.length s).

(** *** The probe *)

(** One query of [get_video_info], as [check=True] sees it. *)
Definition query (w : World) (e : probe_entry) (p : string) : res string :=
  check_run (ffprobe w e p).

(** The expression [float(text) if text else 0] on the output of the
    duration query. *)
Definition duration_of (out : string) : res num :=
  if truthy (strip out)
  then f <- float_of_string (strip out) ;; Ok (PyFloat f)
  else Ok (PyInt 0).

(** The resolution made of the outputs of the width and height queries. *)
Definition resolution_of (ow oh : string) : string :=
  if truthy (strip ow) && truthy (strip oh)
  then (strip ow ++ "x" ++ strip oh)%string
  else "Unknown".

(** The codec made of the output of the codec query. *)
Definition codec_of (oc : string) : string :=
  if truthy (strip oc) then strip oc else "Unknown".

(** *** The sheet *)

(** Where the header ends and the grid begins: the margin, five lines, and
    the extra spacing. *)
Definition header_bottom : Z := MARGIN + 5 * (FONT_SIZE + 2) + 8.

(** The top left corner of the cell of index [i], row-major. *)
Definition cell_x (i : Z) : Z :=
  MARGIN + (i mod GRID_COLUMNS) * (thumb_width + MARGIN).

Definition cell_y (thumb_height i : Z) : Z :=
  header_bottom + (i / GRID_COLUMNS) * (thumb_height + MARGIN).

(** The height of the sheet for cells of a height. *)
Definition canvas_height (thumb_height : Z) : Z :=
  GRID_ROWS * (thumb_height + MARGIN) + MARGIN + info_header_height.

(** *** The pipeline and the batch *)

(** What [process_video] returns for the tasks of a batch, run one after
    the other from a state on, each in the state the one before it left, and
    the state the last one leaves. *)
Inductive batch_outcomes (w : World) (total_videos : Z)
    : state -> list (string * Z) -> list bool -> state -> Prop :=
| batch_done (st : state) : batch_outcomes w total_videos st [] [] st
| batch_step (st : state) (video_path : string) (index : Z)
    (rest : list (string * Z)) (result : bool) (log : list event)
    (st1 : state) (results : list bool) (st2 : state) :
    process_video w st video_path total_videos index = (result, log, st1) ->
    batch_outcomes w total_videos st1 rest results st2 ->
    batch_outcomes w total_videos st ((video_path, index) :: rest)
      (result :: results) st2.

(** The line printed when the sheet is already there. *)
Definition skip_line (video_path : string) (total_videos current_index : Z)
    : event :=
  Print (progress current_index total_videos ++ "Sheet already exists for "
           ++ basename video_path ++ ", skipping...")%string.

(** A result that moves the [successful] counter. *)
Definition succeeded (r : worker_result) : bool :=
  match r with
  | Returned true => true
  | _ => false
  end.

(** How many results satisfy [f]. *)
Definition count_of (f : worker_result -> bool) (results : list worker_result)
    : Z :=
  Z.of_nat (List.length (filter f results)).

(** *** Samples *)

(** The sample of index [i] for a gap: [gap * (i + 1)]. *)
Definition sample (gap : float) (i : Z) : num :=
  PyFloat (PrimFloat.mul gap (float_of_Z (i + 1))).

(** ** Sample worlds *)

(** A world in which everything works: ffprobe answers every query about a
    two-minute 1920x1080 video, ffmpeg extracts every frame. *)
Definition sample_world : World := {|
  ffprobe := fun entry _ =>
    Exited 0 match entry with
             | FormatDuration => "120.5"
             | StreamWidth => "1920"
             | StreamHeight => "1080"
             | StreamCodecName => "h264"
             end;
  getsize := fun _ => Ok 12345678;
  ffmpeg := fun _ _ _ => Exited 0 "";
  image_open := fun _ => Some (1920, 1080);
  image_resize := fun _ _ _ => true;
  canvas_ok := fun _ _ => true;
  truetype_ok := true;
  textsize := fun _ _ => (60, 14);
  listdir := fun _ => Ok ["a.mp4"; "b.MKV"; "notes.txt"; "c.mp4"];
  isfile := fun _ => true;
  mkdtemp := Ok "/tmp/tmpsheet";
  save_ok := fun _ => true
|}.

(** The same world, except that ffprobe knows no duration and prints [N/A],
    still exiting with 0. *)
Definition unknown_duration_world : World := {|
  ffprobe := fun entry path =>
    match entry with
    | FormatDuration => Exited 0 "N/A"
    | _ => ffprobe sample_world entry path
    end;
  getsize := getsize sample_world;
  ffmpeg := ffmpeg sample_world;
  image_open := image_open sample_world;
  image_resize := image_resize sample_world;
  canvas_ok := canvas_ok sample_world;
  truetype_ok := truetype_ok sample_world;
  textsize := textsize sample_world;
  listdir := listdir sample_world;
  isfile := isfile sample_world;
  mkdtemp := mkdtemp sample_world;
  save_ok := save_ok sample_world
|}.

(** The same world, except that the frames are 1 pixel wide and 1200000
    pixels high. *)
Definition tall_frame_world : World := {|
  ffprobe := ffprobe sample_world;
  getsize := getsize sample_world;
  ffmpeg := ffmpeg sample_world;
  image_open := fun _ => Some (1, 1200000);
  image_resize := image_resize sample_world;
  canvas_ok := canvas_ok sample_world;
  truetype_ok := truetype_ok sample_world;
  textsize := textsize sample_world;
  listdir := listdir sample_world;
  isfile := isfile sample_world;
  mkdtemp := mkdtemp sample_world;
  save_ok := save_ok sample_world
|}.

(** The metadata of the sample video. *)
Definition sample_info : video_info :=
  {| duration := PyFloat 120.5; resolution := "1920x1080";
     size := "11.77 MB"; codec := "h264" |}.

(** [n] thumbnails [thumb_00.jpg], [thumb_01.jpg], ... taken at second 0. *)
Definition thumbs_named (n : Z) : list (string * num) :=
  map (fun i => (("thumb_" ++ fmt02 i ++ ".jpg")%string, PyInt 0)) (range n).

(** ** Binary64 numbers as reals *)

Definition pow2 (e : Z) : R := powerRZ 2 e.

(** The value of a mantissa at an exponent. *)
Definition F2R (m e : Z) : R := (IZR m * pow2 e)%R.

(** The largest binary64 number. *)
Definition max_float : R := F2R (2 ^ 53 - 1) 971.

(** The unit roundoff. *)
Definition roundoff : R := pow2 (-53).

(** Where a real lies between the mantissa of a record and its successor, as
    the round and sticky bits tell. *)
Definition inbetween (x : R) (mrs : shr_record) : Prop :=
  match shr_r mrs, shr_s mrs with
  | false, false => x = IZR (shr_m mrs)
  | false, true => (IZR (shr_m mrs) < x < IZR (shr_m mrs) + / 2)%R
  | true, false => x = (IZR (shr_m mrs) + / 2)%R
  | true, true => (IZR (shr_m mrs) + / 2 < x < IZR (shr_m mrs) + 1)%R
  end.

(** A positive normal binary64 number and its value. *)
Definition normal_pos (x : float) (v : R) : Prop :=
  exists m e, Prim2SF x = S754_finite false m e
              /\ 2 ^ 52 <= Z.pos m < 2 ^ 53 /\ -1074 <= e <= 971
              /\ v = F2R (Z.pos m) e.

(** ** More notions used in the statements *)

(** The number a decimal field stands for, leading zeros allowed; nothing
    when the text is empty or holds anything but digits. *)
Definition field_value (s : string) : option Z :=
  option_map (fun d => Z.of_N (N.of_uint d)) (NilZero.uint_of_string s).

(** The file [extract_thumbnails] asks ffmpeg to write for the timestamp of
    index [i]. *)
Definition thumb_path (temp_dir : string) (i : Z) : string :=
  join temp_dir ("thumb_" ++ fmt02 i ++ ".jpg")%string.

(** ffmpeg extracts the frame of index [i], taken at [sec]. *)
Definition frame_ok (w : World) (video_path temp_dir : string) (i : Z)
    (sec : num) : bool :=
  match ffmpeg w sec video_path (thumb_path temp_dir i) with
  | Exited rc _ => rc =? 0
  | NotStarted => false
  end.

(** The test [find_video_files] makes on an entry of the folder. *)
Definition is_video_entry (w : World) (folder_path file : string) : bool :=
  isfile w (join folder_path file)
  && mem_string (lower (snd (splitext file))) VIDEO_EXTENSIONS.

(** The calls of the stages among what a run did, in order. *)
Definition stage_calls (log : list event) : list event :=
  filter (fun e => match e with Print _ => false | _ => true end) log.

(** The sheet of a video exists. *)
Definition has_sheet (st : state) (video_path : string) : bool :=
  path_exists st (sheet_path video_path).

(** The column and the line of the sheet a drawing starts at. *)
Definition op_x (op : draw_op) : Z :=
  match op with
  | DrawText x _ _ _ => x
  | PasteImage _ x _ _ _ => x
  | PasteBackground x _ _ _ => x
  end.

Definition op_y (op : draw_op) : Z :=
  match op with
  | DrawText _ y _ _ => y
  | PasteImage _ _ y _ _ => y
  | PasteBackground _ y _ _ => y
  end.

(** Two rectangles of the same size, given by their top left corners, lie
    at least a margin apart. *)
Definition cells_apart (x y x' y' width height : Z) : Prop :=
  x + width + MARGIN <= x' \/ x' + width + MARGIN <= x
  \/ y + height + MARGIN <= y' \/ y' + height + MARGIN <= y.

(** The fraction [num / den] rounded to the nearest integer, a half to the
    even one. *)
Definition round_half_even (num den : Z) : Z :=
  let q := num / den in
  let r := num mod den in
  if (den <? 2 * r) || ((den =? 2 * r) && Z.odd q) then q + 1 else q.

(** ** The entry point *)

(** What the script is started with and what it finds of its own files. *)
Record Host : Type := {
  (** [sys.argv] *)
  argv : list string;
  (** [sys._MEIPASS], which exists when the script runs from a bundle *)
  meipass : option string;
  (** [os.path.abspath(".")] *)
  abspath_dot : string;
  (** the directory [tempfile.mkdtemp()] made for the configuration *)
  TEMP_DIR : string;
  (** [shutil.copy(src, dst)] succeeds *)
  copy_ok : string -> string -> bool;
  (** [os.chmod(path, 0o755)] succeeds *)
  chmod_ok : string -> bool;
  (** [os.path.isdir(path)] *)
  isdir : string -> bool
}.

Definition FFMPEG_PATH (h : Host) : string := join (TEMP_DIR h) "ffmpeg.exe".
Definition FFPROBE_PATH (h : Host) : string := join (TEMP_DIR h) "ffprobe.exe".
Definition FONT_PATH (h : Host) : string := join (TEMP_DIR h) "arial.ttf".

(** [resource_path(relative_path)]. *)
Definition resource_path (h : Host) (relative_path : string) : string :=
  let base_path :=
    match meipass h with
    | Some base => base
    | None => abspath_dot h
    end in
  join base_path relative_path.

(** The [try] block of [extract_embedded_files]: the three copies, then the
    two changes of mode, stopping at the first that raises. *)
Definition extract_embedded_files (h : Host) : bool :=
  copy_ok h (resource_path h "ffmpeg.exe") (FFMPEG_PATH h)
  && copy_ok h (resource_path h "ffprobe.exe") (FFPROBE_PATH h)
  && copy_ok h (resource_path h "arial.ttf") (FONT_PATH h)
  && chmod_ok h (FFMPEG_PATH h)
  && chmod_ok h (FFPROBE_PATH h).

(** What a run of the script does that can be observed. *)
Inductive main_event : Set :=
| Say (line : string)
| Video (e : event)
| Batch (r : option batch_result)
| Cleanup
| Ask (prompt : string).

(** How [main] ends: it returns a code, or [sys.exit] is called, which the
    handler of [main] does not catch. *)
Inductive outcome : Set :=
| Return (code : Z)
| SystemExit (code : Z).

(** [main()].  A failure of [extract_embedded_files] prints a line, written
    here without the text of the exception, and exits with 1.  Nothing else
    in the [try] block raises, so that the handler is left out. *)
Definition main (w : World) (h : Host) (st : state)
    (completion : list (string * Z) -> list (string * Z))
    : outcome * list main_event * state :=
  if negb (extract_embedded_files h) then
    (SystemExit 1, [Say "Error extracting embedded files"], st)
  else
    match argv h with
    | _ :: path :: _ =>
        if negb (path_exists st path) then
          (Return 1, [Say ("Error: Path not found: " ++ path)%string], st)
        else if isdir h path then
          let '(r, st') := process_folder w st completion path in
          (Return 0, [Batch r; Cleanup], st')
        else if mem_string (lower (snd (splitext path))) VIDEO_EXTENSIONS then
          let '(ok, log, st') := process_video w st path 1 1 in
          if ok then
            (Return 0,
             map Video log ++ [Say "Video processed successfully!"; Cleanup],
             st')
          else (Return 1, map Video log ++ [Say "Failed to process video."], st')
        else
          (Return 1,
           [Say ("Error: Not a supported video file: " ++ path)%string], st)
    | _ =>
        (Return 1,
         [Say "Error: No path specified.";
          Say "Usage: video_sheet_generator.exe <video_file_or_folder_path>";
          Say "   or: Drag and drop a video file or folder onto the .exe"],
         st)
    end.

(** The script run as a program: the exit status, what was observed, and
    the paths that exist afterwards.  After a code other than 0 it waits
    for the Enter key. *)
Definition script (w : World) (h : Host) (st : state)
    (completion : list (string * Z) -> list (string * Z))
    : Z * list main_event * state :=
  match main w h st completion with
  | (Return exit_code, log, st') =>
      (exit_code,
       if exit_code =? 0 then log else log ++ [Ask "Press Enter to exit..."],
       st')
  | (SystemExit code, log, st') => (code, log, st')
  end.

(** A host on which the script is started with the folder [/v]. *)
Definition sample_host : Host := {|
  argv := ["video_sheet_generator.exe"; "/v"];
  meipass := Some "/tmp/_MEI1";
  abspath_dot := "/home/user";
  TEMP_DIR := "/tmp/tmpcfg";
  copy_ok := fun _ _ => true;
  chmod_ok := fun _ => true;
  isdir := fun path => String.eqb path "/v"
|}.

(** A world in which ffprobe cannot be started. *)
Definition no_probe_world : World := {|
  ffprobe := fun _ _ => NotStarted;
  getsize := getsize sample_world;
  ffmpeg := ffmpeg sample_world;
  image_open := image_open sample_world;
  image_resize := image_resize sample_world;
  canvas_ok := canvas_ok sample_world;
  truetype_ok := truetype_ok sample_world;
  textsize := textsize sample_world;
  listdir := listdir sample_world;
  isfile := isfile sample_world;
  mkdtemp := mkdtemp sample_world;
  save_ok := save_ok sample_world
|}.

(** * Properties *)

(** ** Searching and cutting strings *)

Section Strings.

Variable c : ascii.

Lemma rfind_from_app a b i last :
  rfind_from c (a ++ b) i last
  = rfind_from c b (i + strlen a) (rfind_from c a i last).
Proof.
  revert i last. induction a as [|x a IH]; intros i last; cbn [String.append rfind_from].
  - unfold strlen. cbn. f_equal. lia.
  - rewrite IH. f_equal. unfold strlen. cbn [String.length]. lia.
Qed.

Lemma rfind_from_absent s i last :
  occurs c s = false -> rfind_from c s i last = last.
Proof.
  revert i last. induction s as [|x s IH]; intros i last H; cbn in *; [reflexivity|].
  apply orb_false_elim in H as [H1 H2]. rewrite H1. now apply IH.
Qed.

Lemma rfind_from_bounds s i last :
  last < i -> last <= rfind_from c s i last < i + strlen s.
Proof.
  revert i last. induction s as [|x s IH]; intros i last H; cbn [rfind_from].
  - unfold strlen. cbn. lia.
  - unfold strlen in *. cbn [String.length].
    destruct (Ascii.eqb x c).
    + specialize (IH (i + 1) i ltac:(lia)). lia.
    + specialize (IH (i + 1) last ltac:(lia)). lia.
Qed.

Lemma rfind_from_drop s i last n :
  last < i -> rfind_from c s i last < i + Z.of_nat n ->
  occurs c (drop n s) = false.
Proof.
  revert i last n. induction s as [|x s IH]; intros i last n Hl H.
  - destruct n; reflexivity.
  - cbn [rfind_from] in H. destruct n as [|n].
    + cbn [drop occurs]. destruct (Ascii.eqb x c) eqn:E.
      * pose proof (rfind_from_bounds s (i + 1) i ltac:(lia)). lia.
      * cbn. apply (IH (i + 1) last 0%nat); [lia|].
        pose proof (rfind_from_bounds s (i + 1) last ltac:(lia)). cbn [drop]. 
        destruct s; cbn in *; lia.
    + cbn [drop]. apply (IH (i + 1) (if Ascii.eqb x c then i else last) n).
      * destruct (Ascii.eqb x c); lia.
      * lia.
Qed.

Lemma rfind_app_absent a b : occurs c b = false -> rfind c (a ++ b) = rfind c a.
Proof.
  intros H. unfold rfind. rewrite rfind_from_app. now apply rfind_from_absent.
Qed.

Lemma rfind_bounds s : -1 <= rfind c s < strlen s.
Proof. unfold rfind. pose proof (rfind_from_bounds s 0 (-1) ltac:(lia)). lia. Qed.

End Strings.

Lemma take_drop n s : (take n s ++ drop n s)%string = s.
Proof.
  revert s. induction n as [|n IH]; intros [|x s]; cbn; try reflexivity.
  now rewrite IH.
Qed.

Lemma take_app n a b : (n <= String.length a)%nat -> take n (a ++ b) = take n a.
Proof.
  revert a. induction n as [|n IH]; intros a H; [reflexivity|].
  destruct a as [|x a]; cbn in *; [lia|].
  rewrite IH by lia. reflexivity.
Qed.

(** What [splitext] returns: the two parts make up the path, and the
    extension holds no separator. *)
Lemma splitext_parts p :
  (fst (splitext p) ++ snd (splitext p))%string = p
  /\ occurs "/" (snd (splitext p)) = false.
Proof.
  unfold splitext, _splitext.
  destruct (_ && _) eqn:E; cbn [fst snd].
  - apply andb_prop in E as [E _]. apply Z.ltb_lt in E.
    pose proof (rfind_bounds "/" p).
    unfold slice_to, slice_from. split; [apply take_drop|].
    apply (rfind_from_drop "/" p 0 (-1)); [lia|]. fold (rfind "/" p). lia.
  - split; [|reflexivity]. clear. induction p; cbn; congruence.
Qed.

Lemma dirname_app_absent a b1 b2 :
  occurs "/" b1 = false -> occurs "/" b2 = false ->
  dirname (a ++ b1) = dirname (a ++ b2).
Proof.
  intros H1 H2. unfold dirname, slice_to.
  rewrite !rfind_app_absent by assumption.
  pose proof (rfind_bounds "/" a). unfold strlen in *.
  rewrite !take_app by lia. reflexivity.
Qed.

Lemma sheet_path_dirname p : dirname (sheet_path p) = dirname p.
Proof.
  destruct (splitext_parts p) as [E H].
  rewrite <- E at 2. unfold sheet_path. now apply dirname_app_absent.
Qed.

(** ** The pipeline for one video *)

Lemma path_exists_cons p st : path_exists (p :: st) p = true.
Proof. unfold path_exists, mem_string. cbn. now rewrite String.eqb_refl. Qed.

Lemma process_video_skip w st p t i :
  path_exists st (sheet_path p) = true ->
  process_video w st p t i = (true, [skip_line p t i], st).
Proof. intros H. unfold process_video. rewrite H. reflexivity. Qed.

Lemma process_video_true w st p t i l st' :
  process_video w st p t i = (true, l, st') ->
  path_exists st' (sheet_path p) = true.
Proof.
  unfold process_video.
  destruct (path_exists st (sheet_path p)) eqn:E.
  - intros H. inversion H; subst. exact E.
  - repeat match goal with
           | |- context [match ?x with _ => _ end] => destruct x
           end; intros H; inversion H; subst; apply path_exists_cons.
Qed.

Lemma process_video_false w st p t i l st' :
  process_video w st p t i = (false, l, st') -> st' = st.
Proof.
  unfold process_video.
  repeat match goal with
         | |- context [match ?x with _ => _ end] => destruct x
         end; intros H; inversion H; subst; reflexivity.
Qed.

Lemma process_video_same_outcome w st p t i t' i' :
  fst (fst (process_video w st p t i)) = fst (fst (process_video w st p t' i'))
  /\ snd (process_video w st p t i) = snd (process_video w st p t' i').
Proof.
  unfold process_video.
  repeat match goal with
         | |- context [match ?x with _ => _ end] => destruct x
         end; split; reflexivity.
Qed.

(** ** Extensions and joined paths *)

Section MoreStrings.

Variable c : ascii.

Lemma rfind_from_shift s i last j last' :
  occurs c s = true ->
  rfind_from c s i last - i = rfind_from c s j last' - j.
Proof.
  revert i last j last'. induction s as [|x s IH]; intros i last j last' H; [discriminate|].
  cbn [rfind_from]. destruct (occurs c s) eqn:O.
  - specialize (IH (i + 1) (if Ascii.eqb x c then i else last)
                   (j + 1) (if Ascii.eqb x c then j else last') eq_refl). lia.
  - cbn in H. rewrite O, orb_false_r in H. rewrite H.
    rewrite !rfind_from_absent by assumption. lia.
Qed.

Lemma rfind_from_present s i last :
  occurs c s = true -> rfind_from c s i last = i + rfind c s.
Proof.
  intros H. unfold rfind. pose proof (rfind_from_shift s i last 0 (-1) H). lia.
Qed.

Lemma rfind_present_nonneg s : occurs c s = true -> 0 <= rfind c s.
Proof.
  induction s as [|x s IH]; [discriminate|]. intros H. unfold rfind. cbn [rfind_from].
  destruct (Ascii.eqb x c) eqn:E.
  - pose proof (rfind_from_bounds c s (0 + 1) 0 ltac:(lia)). lia.
  - cbn in H. rewrite E in H. cbn in H.
    pose proof (rfind_from_present s (0 + 1) (-1) H). specialize (IH H). lia.
Qed.

Lemma endswith_app s : endswith c s = true -> exists s', s = (s' ++ String c "")%string.
Proof.
  induction s as [|x s IH]; [discriminate|]. cbn [endswith]. destruct s as [|y s].
  - intros H. apply Ascii.eqb_eq in H. subst. now exists ""%string.
  - intros H. destruct (IH H) as [s' E]. exists (String x s'). cbn. now rewrite <- E.
Qed.

End MoreStrings.

Lemma append_assoc a b c : ((a ++ b) ++ c)%string = (a ++ (b ++ c))%string.
Proof. induction a as [|x a IH]; cbn; [reflexivity|now rewrite IH]. Qed.

Lemma strlen_app a b : strlen (a ++ b) = strlen a + strlen b.
Proof.
  unfold strlen. induction a as [|x a IH]; cbn [String.append String.length]; lia.
Qed.

Lemma drop_app a b : drop (String.length a) (a ++ b) = b.
Proof. induction a as [|x a IH]; cbn; [destruct b; reflexivity|exact IH]. Qed.

Lemma drop_drop n m s : drop n (drop m s) = drop (m + n) s.
Proof.
  revert s. induction m as [|m IH]; intros s; cbn [drop Nat.add].
  - destruct n, s; reflexivity.
  - destruct s; [destruct n; reflexivity|]. apply IH.
Qed.

(** The extension of a file name is the extension of any path that ends with
    a separator followed by the name. *)
Lemma splitext_after_sep pre file :
  occurs "/" file = false ->
  snd (splitext (pre ++ "/" ++ file)) = snd (splitext file).
Proof.
  intros Hf. unfold splitext, _splitext.
  set (L := strlen pre + 1).
  assert (HL : 1 <= L) by (unfold L, strlen; lia).
  assert (Hsep : rfind "/" (pre ++ "/" ++ file) = L - 1).
  { change (pre ++ "/" ++ file)%string with (pre ++ (String "/" "" ++ file))%string.
    rewrite <- append_assoc, rfind_app_absent by assumption.
    unfold rfind. rewrite rfind_from_app. cbn. lia. }
  assert (Hsepf : rfind "/" file = -1) by (apply rfind_from_absent; assumption).
  assert (Hlen : String.length (pre ++ "/")%string = Z.to_nat L).
  { pose proof (strlen_app pre "/"). unfold L, strlen in *. cbn in *. lia. }
  rewrite Hsep, Hsepf.
  destruct (occurs "." file) eqn:Hd.
  - assert (Hdot : rfind "." (pre ++ "/" ++ file) = L + rfind "." file).
    { change (pre ++ "/" ++ file)%string with (pre ++ (String "/" "" ++ file))%string.
      rewrite <- append_assoc. unfold rfind at 1. rewrite rfind_from_app.
      rewrite rfind_from_present by assumption. rewrite strlen_app. unfold L, strlen. cbn. lia. }
    pose proof (rfind_present_nonneg "." file Hd) as Hnn.
    rewrite Hdot.
    assert (Hslice : slice (pre ++ "/" ++ file) (L - 1 + 1) (L + rfind "." file)
                     = slice file (-1 + 1) (rfind "." file)).
    { unfold slice. replace (L + rfind "." file - (L - 1 + 1)) with (rfind "." file - (-1 + 1)) by lia.
      f_equal. replace (L - 1 + 1) with L by lia. rewrite <- Hlen.
      change (pre ++ "/" ++ file)%string with (pre ++ (String "/" "" ++ file))%string.
      rewrite <- append_assoc, drop_app. reflexivity. }
    rewrite Hslice.
    replace (L - 1 <? L + rfind "." file) with true by (symmetry; apply Z.ltb_lt; lia).
    replace (-1 <? rfind "." file) with true by (symmetry; apply Z.ltb_lt; lia).
    cbn [andb]. destruct (existsb _ _); cbn [snd]; [|reflexivity].
    unfold slice_from. replace (Z.to_nat (L + rfind "." file))
      with (Z.to_nat L + Z.to_nat (rfind "." file))%nat by lia.
    rewrite <- drop_drop, <- Hlen.
    change (pre ++ "/" ++ file)%string with (pre ++ (String "/" "" ++ file))%string.
    rewrite <- append_assoc, drop_app. reflexivity.
  - assert (Hdot : rfind "." (pre ++ "/" ++ file) < L - 1).
    { change (pre ++ "/" ++ file)%string with (pre ++ (String "/" "" ++ file))%string.
      rewrite !rfind_app_absent by (assumption || reflexivity).
      pose proof (rfind_bounds "." pre). unfold L. lia. }
    assert (Hdotf : rfind "." file = -1) by (apply rfind_from_absent; assumption).
    rewrite Hdotf.
    replace (L - 1 <? rfind "." (pre ++ "/" ++ file)) with false
      by (symmetry; apply Z.ltb_ge; lia).
    reflexivity.
Qed.

Lemma startswith_occurs c s : occurs c s = false -> startswith c s = false.
Proof. destruct s; cbn; [reflexivity|]. intros H. now apply orb_false_elim in H. Qed.

Lemma splitext_join folder file :
  occurs "/" file = false ->
  snd (splitext (join folder file)) = snd (splitext file).
Proof.
  intros Hf. unfold join. rewrite startswith_occurs by assumption.
  destruct folder as [|x folder]; [reflexivity|]. cbn [truthy negb orb].
  destruct (endswith "/" (String x folder)) eqn:E.
  - apply endswith_app in E as [pre ->].
    rewrite append_assoc. now apply splitext_after_sep.
  - now apply splitext_after_sep.
Qed.

Lemma mem_string_In x l : mem_string x l = true <-> In x l.
Proof.
  unfold mem_string. rewrite existsb_exists. split.
  - intros (y & Hy & E). apply String.eqb_eq in E. now subst.
  - intros H. exists x. split; [assumption|apply String.eqb_refl].
Qed.

(** ** Timecodes *)

Lemma below_100_cases (P : Z -> Prop) :
  (forall n, In n (seq 0 100) -> P (Z.of_nat n)) ->
  forall z, 0 <= z < 100 -> P z.
Proof.
  intros H z Hz. rewrite <- (Z2Nat.id z) by lia.
  apply H, in_seq. lia.
Qed.

Lemma fmt02_two_digits z : 0 <= z < 100 -> fmt02 z = two_digits z.
Proof.
  revert z. apply below_100_cases. intros n Hn.
  assert (C : forallb (fun n => String.eqb (fmt02 (Z.of_nat n)) (two_digits (Z.of_nat n)))
                (seq 0 100) = true) by (vm_compute; reflexivity).
  rewrite forallb_forall in C. apply String.eqb_eq, C, Hn.
Qed.

Lemma string_of_uint_short d :
  (String.length (NilZero.string_of_uint d) < 2)%nat -> (N.of_uint d < 10)%N.
Proof.
  destruct d as [|d|d|d|d|d|d|d|d|d|d]; cbn; try lia;
  destruct d; cbn; intros; try lia.
Qed.

Lemma str_of_N_long n : (10 <= n)%N -> (2 <= String.length (str_of_N n))%nat.
Proof.
  intros Hn. unfold str_of_N.
  destruct (Nat.ltb_spec (String.length (NilZero.string_of_uint (N.to_uint n))) 2) as [L|L];
    [|exact L].
  apply string_of_uint_short in L. rewrite DecimalN.Unsigned.of_to in L. lia.
Qed.

Lemma fmt02_str_of_Z z : 10 <= z -> fmt02 z = str_of_Z z.
Proof.
  intros Hz. unfold fmt02, str_of_Z.
  destruct (Z.ltb_spec z 0); [lia|].
  assert (L := str_of_N_long (Z.abs_N z) ltac:(lia)).
  destruct (Nat.ltb_spec (String.length (str_of_N (Z.abs_N z))) 2); [lia|reflexivity].
Qed.


Lemma int_of_float_finite f :
  is_finite f = true -> exists n, int_of_float f = Ok n.
Proof.
  unfold is_finite, is_nan, is_infinity, int_of_float.
  rewrite !eqb_spec, abs_spec.
  change (Prim2SF infinity) with (S754_infinity false).
  destruct (Prim2SF f) as [s|s| |s m e]; cbn; intros H; try discriminate; eauto.
  destruct s; discriminate.
Qed.

Lemma format_timestamp_total x :
  finite_num x = true -> exists shown, format_timestamp x = Ok shown.
Proof.
  intros H. unfold format_timestamp.
  assert (E : exists n, int_of x = Ok n).
  { destruct x as [z|f]; [now exists z|]. now apply int_of_float_finite. }
  destruct E as [n ->]. cbn [bind]. unfold divmod. eauto.
Qed.

(** ** Powers of two *)

Lemma pow2_pos e : (0 < pow2 e)%R.
Proof. apply powerRZ_lt. lra. Qed.

Lemma pow2_add a b : pow2 (a + b) = (pow2 a * pow2 b)%R.
Proof. apply powerRZ_add. lra. Qed.

Lemma pow2_0 : pow2 0 = 1%R.
Proof. reflexivity. Qed.

Lemma pow2_1 : pow2 1 = 2%R.
Proof. exact (powerRZ_1 2). Qed.

Lemma pow2_succ e : pow2 (e + 1) = (2 * pow2 e)%R.
Proof. rewrite pow2_add, pow2_1. lra. Qed.

Lemma pow2_opp e : pow2 (- e) = (/ pow2 e)%R.
Proof. apply powerRZ_neg'. Qed.

Lemma pow2_sub a b : pow2 (a - b) = (pow2 a / pow2 b)%R.
Proof. unfold Z.sub. rewrite pow2_add, pow2_opp. reflexivity. Qed.

Lemma pow2_IZR n : 0 <= n -> pow2 n = IZR (2 ^ n).
Proof.
  intros H. pattern n. apply natlike_ind; [reflexivity| |exact H].
  intros x Hx IH. unfold Z.succ. rewrite pow2_succ, IH, Z.pow_add_r by lia.
  rewrite mult_IZR. change (2 ^ 1) with 2. lra.
Qed.

Lemma pow2_le a b : a <= b -> (pow2 a <= pow2 b)%R.
Proof.
  intros H. replace b with (a + (b - a)) by lia. rewrite pow2_add.
  rewrite (pow2_IZR (b - a)) by lia.
  assert (1 <= 2 ^ (b - a)) by (apply (Z.pow_le_mono_r 2 0); lia).
  apply IZR_le in H0. pose proof (pow2_pos a). nra.
Qed.

Lemma pow2_lt a b : a < b -> (pow2 a < pow2 b)%R.
Proof.
  intros H. replace b with (a + 1 + (b - a - 1)) by lia.
  rewrite pow2_add, pow2_succ. pose proof (pow2_le 0 (b - a - 1) ltac:(lia)).
  rewrite pow2_0 in H0. pose proof (pow2_pos a). nra.
Qed.

Lemma pow2_lt_inv a b : (pow2 a < pow2 b)%R -> a < b.
Proof.
  intros H. destruct (Z_lt_le_dec a b) as [L|L]; [exact L|].
  apply pow2_le in L. lra.
Qed.

Lemma Rabs_le_inv x y : (Rabs x <= y)%R -> (- y <= x <= y)%R.
Proof. unfold Rabs. destruct (Rcase_abs x); lra. Qed.

(** ** The number of binary digits *)

Lemma digits2_pos_bounds p :
  2 ^ (Z.pos (digits2_pos p) - 1) <= Z.pos p < 2 ^ Z.pos (digits2_pos p).
Proof.
  induction p as [p IH|p IH|]; cbn [digits2_pos]; [| |cbn; lia].
  - rewrite Pos2Z.inj_succ. replace (Z.succ (Z.pos (digits2_pos p)) - 1)
      with (Z.pos (digits2_pos p) - 1 + 1) by lia.
    unfold Z.succ. rewrite !Z.pow_add_r by lia. lia.
  - rewrite Pos2Z.inj_succ. replace (Z.succ (Z.pos (digits2_pos p)) - 1)
      with (Z.pos (digits2_pos p) - 1 + 1) by lia.
    unfold Z.succ. rewrite !Z.pow_add_r by lia. lia.
Qed.

Lemma Zdigits2_bounds m : 0 < m -> 2 ^ (Zdigits2 m - 1) <= m < 2 ^ Zdigits2 m.
Proof. destruct m; try lia. intros _. apply digits2_pos_bounds. Qed.

Lemma Zdigits2_unique m k : 2 ^ (k - 1) <= m < 2 ^ k -> 0 < k -> Zdigits2 m = k.
Proof.
  intros H Hk. assert (0 < m) by (assert (0 < 2 ^ (k - 1)) by (apply Z.pow_pos_nonneg; lia); lia).
  pose proof (Zdigits2_bounds m H0) as B.
  assert (0 < Zdigits2 m) by (destruct m; cbn; lia).
  destruct (Z.lt_trichotomy (Zdigits2 m) k) as [L|[L|L]]; [|exact L|].
  - assert (2 ^ Zdigits2 m <= 2 ^ (k - 1)) by (apply Z.pow_le_mono_r; lia). lia.
  - assert (2 ^ k <= 2 ^ (Zdigits2 m - 1)) by (apply Z.pow_le_mono_r; lia). lia.
Qed.

Lemma Zdigits2_pos m : 0 < m -> 0 < Zdigits2 m.
Proof. destruct m; cbn; lia. Qed.

(** ** Shifting a mantissa right *)

Lemma iter_pos_nat {A} (f : A -> A) n : forall x,
  SpecFloat.iter_pos f n x = Nat.iter (Pos.to_nat n) f x.
Proof.
  induction n as [n IH|n IH|]; intros x; cbn [SpecFloat.iter_pos].
  - rewrite !IH, Pos2Nat.inj_xI.
    replace (S (2 * Pos.to_nat n)) with (Pos.to_nat n + (Pos.to_nat n + 1))%nat by lia.
    rewrite !Nat.iter_add. reflexivity.
  - rewrite !IH, Pos2Nat.inj_xO.
    replace (2 * Pos.to_nat n)%nat with (Pos.to_nat n + Pos.to_nat n)%nat by lia.
    rewrite Nat.iter_add. reflexivity.
  - reflexivity.
Qed.

Lemma shr_1_spec mrs :
  0 <= shr_m mrs ->
  shr_m mrs = 2 * shr_m (shr_1 mrs) + Z.b2z (shr_r (shr_1 mrs))
  /\ 0 <= shr_m (shr_1 mrs)
  /\ shr_s (shr_1 mrs) = shr_r mrs || shr_s mrs.
Proof.
  destruct mrs as [m r s]. cbn [shr_m shr_r shr_s].
  destruct m as [|[p|p|]|p]; cbn; intros H; repeat split; lia.
Qed.

Lemma shr_1_inbetween x mrs :
  0 <= shr_m mrs -> inbetween x mrs -> inbetween (x / 2) (shr_1 mrs).
Proof.
  intros H. destruct (shr_1_spec mrs H) as (Em & _ & Es).
  unfold inbetween. rewrite Es. apply (f_equal IZR) in Em.
  rewrite plus_IZR, mult_IZR in Em.
  destruct (shr_r (shr_1 mrs)), (shr_r mrs), (shr_s mrs); cbn [orb Z.b2z] in *;
    intros Hx; lra.
Qed.

Lemma shr_iter x mrs n :
  0 <= shr_m mrs -> inbetween x mrs ->
  let mrs' := Nat.iter n shr_1 mrs in
  inbetween (x / IZR (2 ^ Z.of_nat n)) mrs'
  /\ 0 <= shr_m mrs'
  /\ shr_m mrs' = shr_m mrs / 2 ^ Z.of_nat n.
Proof.
  intros H Hx. cbv zeta. induction n as [|n (IH1 & IH2 & IH3)]; cbn [Nat.iter].
  - cbn. rewrite Z.div_1_r. repeat split; auto.
    now replace (x / 1)%R with x by lra.
  - destruct (shr_1_spec _ IH2) as (Em & Hm & _).
    split; [|split; [exact Hm|]].
    + rewrite Nat2Z.inj_succ. unfold Z.succ. rewrite Z.pow_add_r by lia.
      rewrite mult_IZR. change (2 ^ 1) with 2.
      assert (0 < IZR (2 ^ Z.of_nat n))%R
        by (apply IZR_lt, Z.pow_pos_nonneg; lia).
      replace (x / (IZR (2 ^ Z.of_nat n) * 2))%R
        with (x / IZR (2 ^ Z.of_nat n) / 2)%R by (field; lra).
      now apply shr_1_inbetween.
    + rewrite Nat2Z.inj_succ. unfold Z.succ. rewrite Z.pow_add_r by lia.
      change (2 ^ 1) with 2. rewrite <- Z.div_div by (try lia; apply Z.pow_pos_nonneg; lia).
      rewrite <- IH3. destruct (shr_r (shr_1 (Nat.iter n shr_1 mrs))); cbn [Z.b2z] in Em.
      * change (Nat.iter (S n) shr_1 mrs) with (shr_1 (Nat.iter n shr_1 mrs)).
        apply (Z.div_unique _ 2 _ 1); lia.
      * change (Nat.iter (S n) shr_1 mrs) with (shr_1 (Nat.iter n shr_1 mrs)).
        apply (Z.div_unique _ 2 _ 0); lia.
Qed.

(** [shr] by a count that is not negative. *)
Lemma shr_spec x mrs e n :
  0 <= shr_m mrs -> 0 <= n -> inbetween x mrs ->
  let '(mrs', e') := shr mrs e n in
  inbetween (x / pow2 n) mrs' /\ e' = e + n
  /\ shr_m mrs' = shr_m mrs / 2 ^ n.
Proof.
  intros H Hn Hx. unfold shr. destruct n as [|p|p]; [| |lia].
  - rewrite pow2_0, Z.div_1_r, Z.add_0_r. repeat split; auto.
    now replace (x / 1)%R with x by lra.
  - rewrite iter_pos_nat.
    destruct (shr_iter x mrs (Pos.to_nat p) H Hx) as (H1 & _ & H3).
    rewrite positive_nat_Z in H1, H3.
    rewrite pow2_IZR by lia. repeat split; auto.
Qed.

Lemma inbetween_of_loc_bounds x m l :
  inbetween x (shr_record_of_loc m l) -> (IZR m <= x < IZR m + 1)%R.
Proof.
  unfold inbetween. destruct l as [|[| |]]; cbn [shr_record_of_loc shr_m shr_r shr_s]; lra.
Qed.

Lemma inbetween_bounds x mrs : inbetween x mrs -> (IZR (shr_m mrs) <= x < IZR (shr_m mrs) + 1)%R.
Proof. unfold inbetween. destruct (shr_r mrs), (shr_s mrs); lra. Qed.

(** Rounding to nearest, ties to even, moves by at most one half. *)
Lemma round_nearest_even_spec x mrs :
  inbetween x mrs ->
  let m' := round_nearest_even (shr_m mrs) (loc_of_shr_record mrs) in
  (shr_m mrs <= m' <= shr_m mrs + 1) /\ (Rabs (IZR m' - x) <= / 2)%R.
Proof.
  unfold inbetween. destruct mrs as [m r s]. cbn [shr_m shr_r shr_s loc_of_shr_record].
  destruct r, s; cbn [round_nearest_even]; intros Hx;
    try destruct (Z.even m); rewrite ?plus_IZR; split; try lia;
    apply Rabs_le; lra.
Qed.

(** ** Rounding in the normal range *)

Lemma fexp_eq z : fexp prec emax z = Z.max (z - 53) (-1074).
Proof. reflexivity. Qed.

Lemma shr_m_of_loc m l : shr_m (shr_record_of_loc m l) = m.
Proof. destruct l as [|[| |]]; reflexivity. Qed.

Lemma shr_fexp_first mx ex lx X :
  inbetween X (shr_record_of_loc mx lx) ->
  0 < mx -> 53 <= Zdigits2 mx -> -1074 <= Zdigits2 mx + ex - 53 ->
  let '(mrs', e') := shr_fexp prec emax mx ex lx in
  e' = ex + (Zdigits2 mx - 53)
  /\ inbetween (X / pow2 (Zdigits2 mx - 53)) mrs'
  /\ 2 ^ 52 <= shr_m mrs' < 2 ^ 53.
Proof.
  intros HX Hm Hd He. unfold shr_fexp. rewrite fexp_eq.
  replace (Z.max (Zdigits2 mx + ex - 53) (-1074) - ex) with (Zdigits2 mx - 53) by lia.
  pose proof (shr_spec X (shr_record_of_loc mx lx) ex (Zdigits2 mx - 53)) as S.
  rewrite shr_m_of_loc in S. specialize (S ltac:(lia) ltac:(lia) HX).
  destruct (shr _ ex _) as [mrs' e']. destruct S as (S1 & S2 & S3).
  split; [exact S2|]. split; [exact S1|]. rewrite S3.
  pose proof (Zdigits2_bounds mx Hm) as B.
  set (n := Zdigits2 mx - 53) in *.
  assert (P : 0 < 2 ^ n) by (apply Z.pow_pos_nonneg; lia).
  replace (Zdigits2 mx - 1) with (52 + n) in B by lia.
  replace (Zdigits2 mx) with (53 + n) in B by lia.
  rewrite !Z.pow_add_r in B by lia. split.
  - apply Z.div_le_lower_bound; lia.
  - apply Z.div_lt_upper_bound; lia.
Qed.

Lemma shr_fexp_second m2 e' :
  2 ^ 52 <= m2 <= 2 ^ 53 -> -1074 <= e' ->
  let '(mrs'', e'') := shr_fexp prec emax m2 e' loc_Exact in
  2 ^ 52 <= shr_m mrs'' < 2 ^ 53 /\ e' <= e'' <= e' + 1
  /\ (m2 < 2 ^ 53 -> e'' = e')
  /\ F2R (shr_m mrs'') e'' = F2R m2 e'.
Proof.
  intros Hm He. unfold shr_fexp. rewrite fexp_eq.
  destruct (Z.eq_dec m2 (2 ^ 53)) as [->|Hne].
  - change (Zdigits2 (2 ^ 53)) with 54.
    replace (Z.max (54 + e' - 53) (-1074) - e') with 1 by lia.
    cbn [shr shr_record_of_loc SpecFloat.iter_pos].
    change (shr_1 {| shr_m := 2 ^ 53; shr_r := false; shr_s := false |})
      with {| shr_m := 2 ^ 52; shr_r := false; shr_s := false |}.
    cbn [shr_m]. split; [lia|]. split; [lia|]. split; [lia|].
    unfold F2R. rewrite pow2_succ.
    change (2 ^ 53) with (2 * 2 ^ 52). rewrite mult_IZR. lra.
  - assert (D : Zdigits2 m2 = 53) by (apply Zdigits2_unique; lia).
    rewrite D. replace (Z.max (53 + e' - 53) (-1074) - e') with 0 by lia.
    cbn [shr shr_record_of_loc shr_m]. split; [lia|]. split; [lia|].
    split; [intros _|]; reflexivity.
Qed.

Theorem binary_round_aux_normal (sx : bool) (mx ex : Z) (lx : location) (X : R) :
  inbetween X (shr_record_of_loc mx lx) ->
  0 < mx -> 53 <= Zdigits2 mx ->
  -1074 <= Zdigits2 mx + ex - 53 ->
  Zdigits2 mx + ex <= 1024 ->
  (X * pow2 ex <= max_float)%R ->
  exists m e,
    binary_round_aux prec emax sx mx ex lx = S754_finite sx m e
    /\ 2 ^ 52 <= Z.pos m < 2 ^ 53
    /\ -1074 <= e <= 971
    /\ (Rabs (F2R (Z.pos m) e - X * pow2 ex) <= pow2 (-53) * (X * pow2 ex))%R.
Proof.
  intros HX Hm Hd He Ho Hmax. unfold binary_round_aux.
  pose proof (shr_fexp_first mx ex lx X HX Hm Hd He) as S1.
  destruct (shr_fexp prec emax mx ex lx) as [mrs' e'].
  destruct S1 as (E1 & I1 & B1).
  destruct (round_nearest_even_spec _ _ I1) as (R1 & R2).
  set (m2 := round_nearest_even (shr_m mrs') (loc_of_shr_record mrs')) in *.
  pose proof (shr_fexp_second m2 e' ltac:(lia) ltac:(lia)) as S2.
  destruct (shr_fexp prec emax m2 e' loc_Exact) as [mrs'' e''].
  destruct S2 as (B2 & E2 & E2' & V2).
  set (n := Zdigits2 mx - 53) in *.
  assert (EX : (X * pow2 ex = X / pow2 n * pow2 e')%R).
  { rewrite E1, pow2_add. pose proof (pow2_pos n). field. lra. }
  assert (Hfin : e'' <= 971).
  { destruct (Z_lt_le_dec e' 971) as [L|L]; [lia|].
    assert (He971 : e' = 971) by lia.
    rewrite E2'; [lia|].
    (* the rounded mantissa stays below 2^53 under the largest float *)
    rewrite EX, He971 in Hmax. unfold max_float, F2R in Hmax.
    pose proof (pow2_pos 971) as P.
    assert (Hx : (X / pow2 n <= IZR (2 ^ 53 - 1))%R).
    { apply Rmult_le_reg_r with (pow2 971); [exact P|exact Hmax]. }
    apply Rabs_le_inv in R2. rewrite minus_IZR in Hx.
    assert (IZR m2 < IZR (2 ^ 53))%R by lra.
    now apply lt_IZR. }
  destruct (shr_m mrs'') as [|m|m] eqn:Em; [lia| |lia].
  replace (e'' <=? emax - prec) with true
    by (symmetry; apply Z.leb_le; change (emax - prec) with 971; lia).
  exists m, e''. split; [reflexivity|]. split; [lia|]. split; [lia|].
  rewrite V2. unfold F2R.
  rewrite EX. set (X' := (X / pow2 n)%R) in *.
  pose proof (inbetween_bounds _ _ I1) as BX.
  assert (L52 : (IZR (2 ^ 52) <= X')%R).
  { apply Rle_trans with (IZR (shr_m mrs')); [apply IZR_le; lia|lra]. }
  pose proof (pow2_pos e') as Pe.
  replace (IZR m2 * pow2 e' - X' * pow2 e')%R with ((IZR m2 - X') * pow2 e')%R by ring.
  rewrite Rabs_mult, (Rabs_pos_eq (pow2 e')) by lra.
  assert (H53 : (pow2 (-53) * IZR (2 ^ 52) = / 2)%R).
  { rewrite <- (pow2_IZR 52) by lia. rewrite <- pow2_add.
    change (-53 + 52) with (- (1)). rewrite pow2_opp, pow2_1. reflexivity. }
  pose proof (pow2_pos (-53)) as P53.
  assert (/ 2 <= pow2 (-53) * X')%R by (rewrite <- H53; nra).
  nra.
Qed.

Lemma bounded_normal m e :
  2 ^ 52 <= Z.pos m < 2 ^ 53 -> -1074 <= e <= 971 -> SpecFloat.bounded prec emax m e = true.
Proof.
  intros Hm He. unfold SpecFloat.bounded, canonical_mantissa. rewrite fexp_eq.
  change (Z.pos (digits2_pos m)) with (Zdigits2 (Z.pos m)).
  rewrite (Zdigits2_unique (Z.pos m) 53) by lia.
  apply andb_true_intro. split; [apply Z.eqb_eq; lia|apply Z.leb_le].
  change (emax - prec) with 971. lia.
Qed.

(** ** Values *)

Lemma digits_value m e :
  0 < m ->
  (pow2 (Zdigits2 m + e - 1) <= F2R m e < pow2 (Zdigits2 m + e))%R.
Proof.
  intros Hm. pose proof (Zdigits2_bounds m Hm) as [B1 B2].
  pose proof (Zdigits2_pos m Hm) as Hd.
  apply IZR_le in B1. apply IZR_lt in B2.
  rewrite <- pow2_IZR in B1, B2 by lia.
  unfold F2R. pose proof (pow2_pos e) as Pe.
  replace (Zdigits2 m + e - 1) with (Zdigits2 m - 1 + e) by lia.
  rewrite !pow2_add. nra.
Qed.

Lemma digits_ge m k : 0 <= k -> 2 ^ k <= m -> k + 1 <= Zdigits2 m.
Proof.
  intros Hk H. assert (0 < m) by (assert (0 < 2 ^ k) by (apply Z.pow_pos_nonneg; lia); lia).
  pose proof (Zdigits2_bounds m H0) as [_ B]. pose proof (Zdigits2_pos m H0).
  destruct (Z_lt_le_dec k (Zdigits2 m)) as [L|L]; [lia|].
  assert (2 ^ Zdigits2 m <= 2 ^ k) by (apply Z.pow_le_mono_r; lia). lia.
Qed.

Lemma max_float_bounds : (pow2 1023 <= max_float < pow2 1024)%R.
Proof.
  unfold max_float, F2R. rewrite minus_IZR, <- (pow2_IZR 53) by lia.
  pose proof (pow2_pos 971) as P.
  assert (E1 : pow2 1024 = (pow2 53 * pow2 971)%R) by (rewrite <- pow2_add; reflexivity).
  assert (E2 : pow2 1023 = (pow2 52 * pow2 971)%R) by (rewrite <- pow2_add; reflexivity).
  assert (E3 : pow2 53 = (2 * pow2 52)%R) by (change 53 with (52 + 1); apply pow2_succ).
  pose proof (pow2_le 0 52 ltac:(lia)) as L. rewrite pow2_0 in L.
  rewrite E1, E2, E3. split.
  - apply Rmult_le_compat_r; lra.
  - apply Rmult_lt_compat_r; lra.
Qed.

Lemma normal_pos_range x v : normal_pos x v -> (pow2 (-1022) <= v <= max_float)%R.
Proof.
  intros (m & e & _ & Hm & He & ->).
  pose proof (digits_value (Z.pos m) e ltac:(lia)) as [D1 _].
  rewrite (Zdigits2_unique (Z.pos m) 53) in D1 by lia.
  pose proof (pow2_le (-1022) (53 + e - 1) ltac:(lia)).
  split; [lra|]. unfold max_float, F2R.
  pose proof (pow2_le e 971 ltac:(lia)). pose proof (pow2_pos e).
  assert (IZR (Z.pos m) <= IZR (2 ^ 53 - 1))%R by (apply IZR_le; lia).
  assert (0 < IZR (Z.pos m))%R by (apply IZR_lt; lia).
  apply Rle_trans with (IZR (Z.pos m) * pow2 971)%R.
  - apply Rmult_le_compat_l; lra.
  - apply Rmult_le_compat_r; [pose proof (pow2_pos 971)|]; lra.
Qed.

Lemma normal_pos_of_spec x sx m e v :
  x = SF2Prim (S754_finite sx m e) -> sx = false ->
  2 ^ 52 <= Z.pos m < 2 ^ 53 -> -1074 <= e <= 971 -> v = F2R (Z.pos m) e ->
  normal_pos x v.
Proof.
  intros -> -> Hm He ->. exists m, e. split; [|auto].
  apply Prim2SF_SF2Prim. now apply bounded_normal.
Qed.

(** Rounding a positive real in the normal range, given by its integer part
    and location at some exponent. *)
Lemma round_normal_value mx ex lx X :
  inbetween X (shr_record_of_loc mx lx) ->
  (pow2 52 <= X)%R ->
  (pow2 (-1022) <= X * pow2 ex <= max_float)%R ->
  exists m e,
    binary_round_aux prec emax false mx ex lx = S754_finite false m e
    /\ 2 ^ 52 <= Z.pos m < 2 ^ 53 /\ -1074 <= e <= 971
    /\ (Rabs (F2R (Z.pos m) e - X * pow2 ex) <= roundoff * (X * pow2 ex))%R.
Proof.
  intros HX H52 [Hlo Hhi].
  pose proof (inbetween_of_loc_bounds _ _ _ HX) as [B1 B2].
  assert (Hq : 2 ^ 52 <= mx).
  { rewrite pow2_IZR in H52 by lia.
    assert (IZR (2 ^ 52) < IZR (mx + 1))%R by (rewrite plus_IZR; lra).
    apply lt_IZR in H. lia. }
  pose proof (digits_ge mx 52 ltac:(lia) Hq) as Hd.
  pose proof (digits_value mx ex ltac:(lia)) as [D1 D2].
  pose proof (pow2_pos ex) as Pe.
  apply binary_round_aux_normal; auto; try lia.
  - (* not below the normal range *)
    destruct (Z_lt_le_dec (-1074) ex) as [L|L]; [lia|].
    (* X >= 2^(-1022 - ex), an integer power *)
    assert (HX' : (pow2 (-1022 - ex) <= X)%R).
    { unfold Z.sub at 1. rewrite pow2_add, pow2_opp.
      apply Rmult_le_reg_r with (pow2 ex); [exact Pe|].
      rewrite Rmult_assoc, Rinv_l by lra. lra. }
    rewrite pow2_IZR in HX' by lia.
    assert (IZR (2 ^ (-1022 - ex)) < IZR (mx + 1))%R by (rewrite plus_IZR; lra).
    apply lt_IZR in H.
    pose proof (digits_ge mx (-1022 - ex) ltac:(lia) ltac:(lia)). lia.
  - (* not above the largest float *)
    assert (pow2 (Zdigits2 mx + ex - 1) < pow2 1024)%R.
    { unfold F2R in D1. apply Rle_lt_trans with (IZR mx * pow2 ex)%R; [exact D1|].
      apply Rle_lt_trans with (X * pow2 ex)%R.
      - apply Rmult_le_compat_r; lra.
      - pose proof max_float_bounds. lra. }
    apply pow2_lt_inv in H. lia.
Qed.

(** ** Multiplication *)

Lemma mul_normal x y vx vy :
  normal_pos x vx -> normal_pos y vy ->
  (pow2 (-1022) <= vx * vy <= max_float)%R ->
  exists vz, normal_pos (x * y)%float vz /\ (Rabs (vz - vx * vy) <= roundoff * (vx * vy))%R.
Proof.
  intros (mx & ex & Ex & Hmx & Hex & ->) (my & ey & Ey & Hmy & Hey & ->) Hv.
  assert (EV : (F2R (Z.pos mx) ex * F2R (Z.pos my) ey
                = IZR (Z.pos (mx * my)) * pow2 (ex + ey))%R).
  { unfold F2R. rewrite Pos2Z.inj_mul, mult_IZR, pow2_add. ring. }
  rewrite EV in *.
  destruct (round_normal_value (Z.pos (mx * my)) (ex + ey) loc_Exact
              (IZR (Z.pos (mx * my)))) as (m & e & E & Hm & He & Herr).
  - reflexivity.
  - rewrite pow2_IZR by lia. apply IZR_le. rewrite Pos2Z.inj_mul.
    change (2 ^ 52) with (2 ^ 52 * 1). apply Z.mul_le_mono_nonneg; lia.
  - exact Hv.
  - exists (F2R (Z.pos m) e). split; [|exact Herr].
    exists m, e. split; [|auto]. rewrite mul_spec, Ex, Ey. exact E.
Qed.

(** ** Division *)

Lemma new_location_inbetween q r m2 :
  0 < m2 -> 0 <= r < m2 ->
  inbetween (IZR q + IZR r / IZR m2) (shr_record_of_loc q (new_location m2 r)).
Proof.
  intros Hm Hr.
  assert (P : (0 < IZR m2)%R) by (apply IZR_lt; lia).
  remember (IZR r / IZR m2)%R as rho eqn:Erho.
  assert (Er : (rho * IZR m2 = IZR r)%R)
    by (subst rho; field; apply Rgt_not_eq; exact P).
  clear Erho.
  unfold new_location.
  assert (Eloc : forall b : bool,
            (if b then new_location_even m2 else new_location_odd m2) r
            = if b then new_location_even m2 r else new_location_odd m2 r)
    by (intros []; reflexivity).
  rewrite Eloc. clear Eloc. unfold new_location_even, new_location_odd.
  destruct (Z.eqb_spec r 0) as [->|Hne].
  - assert (rho = 0%R) by nra.
    destruct (Z.even m2); unfold inbetween; cbn [shr_record_of_loc shr_m shr_r shr_s]; lra.
  - assert (0 < IZR r)%R by (apply IZR_lt; lia).
    assert (IZR r < IZR m2)%R by (apply IZR_lt; lia).
    destruct (Z.even m2) eqn:Ev.
    + destruct (Z.compare_spec (2 * r) m2) as [E|L|L]; unfold inbetween; cbn.
      * apply (f_equal IZR) in E. rewrite mult_IZR in E. nra.
      * apply IZR_lt in L. rewrite mult_IZR in L. nra.
      * apply IZR_lt in L. rewrite mult_IZR in L. nra.
    + assert (Hodd : 2 * r <> m2).
      { intros <-. rewrite Z.even_mul in Ev. discriminate. }
      destruct (Z.compare_spec (2 * r + 1) m2) as [E|L|L]; unfold inbetween;
        cbn [shr_record_of_loc shr_m shr_r shr_s].
      * assert (L : 2 * r < m2) by lia.
        apply IZR_lt in L. rewrite mult_IZR in L. nra.
      * assert (L' : 2 * r < m2) by lia.
        apply IZR_lt in L'. rewrite mult_IZR in L'. nra.
      * assert (L' : m2 < 2 * r) by lia.
        apply IZR_lt in L'. rewrite mult_IZR in L'. nra.
Qed.

Lemma div_core_normal m1 e1 m2 e2 :
  0 < m1 -> 0 < m2 ->
  (pow2 (-1022) <= F2R m1 e1 / F2R m2 e2)%R ->
  let '(q, e', l) := SFdiv_core_binary prec emax m1 e1 m2 e2 in
  exists X, inbetween X (shr_record_of_loc q l)
            /\ (pow2 52 <= X)%R
            /\ (X * pow2 e' = F2R m1 e1 / F2R m2 e2)%R.
Proof.
  intros H1 H2 Hv. unfold SFdiv_core_binary. rewrite fexp_eq.
  set (D := Zdigits2 m1 + e1 - (Zdigits2 m2 + e2)).
  set (e' := Z.min (Z.max (D - 53) (-1074)) (e1 - e2)).
  set (s := e1 - e2 - e').
  assert (Hs : 0 <= s) by (unfold s, e'; lia).
  assert (Em : match s with
               | 0 => m1
               | Z.pos _ => Z.shiftl m1 s
               | Z.neg _ => 0
               end = m1 * 2 ^ s).
  { destruct s eqn:Es; [cbn; lia| |lia]. rewrite Z.shiftl_mul_pow2 by lia. reflexivity. }
  rewrite Em. clear Em.
  assert (P2 : 0 < 2 ^ s) by (apply Z.pow_pos_nonneg; lia).
  pose proof (Z.div_eucl_eq (m1 * 2 ^ s) m2 ltac:(lia)) as Eq.
  pose proof (Z.mod_pos_bound (m1 * 2 ^ s) m2 H2) as Hr.
  unfold Z.modulo in Hr.
  destruct (Z.div_eucl (m1 * 2 ^ s) m2) as [q r].
  assert (PR2 : (0 < IZR m2)%R) by (apply IZR_lt; lia).
  assert (PR1 : (0 < IZR m1)%R) by (apply IZR_lt; lia).
  exists (IZR q + IZR r / IZR m2)%R.
  split; [now apply new_location_inbetween|].
  assert (EX : (IZR q + IZR r / IZR m2 = IZR m1 * pow2 s / IZR m2)%R).
  { rewrite (pow2_IZR s) by lia. rewrite <- mult_IZR, Eq, plus_IZR, mult_IZR.
    field. lra. }
  pose proof (pow2_pos e1) as P_e1. pose proof (pow2_pos e2) as P_e2.
  pose proof (pow2_pos e') as P_e'. pose proof (pow2_pos s) as P_s.
  assert (EV : ((IZR q + IZR r / IZR m2) * pow2 e' = F2R m1 e1 / F2R m2 e2)%R).
  { assert (E1 : pow2 e1 = (pow2 s * pow2 e' * pow2 e2)%R)
      by (rewrite <- !pow2_add; f_equal; unfold s; lia).
    rewrite EX. unfold F2R. rewrite E1. field. lra. }
  split; [|exact EV].
  (* the scaled quotient has at least 53 digits *)
  set (v := (F2R m1 e1 / F2R m2 e2)%R) in *.
  assert (EX' : (IZR q + IZR r / IZR m2 = v * pow2 (- e'))%R).
  { rewrite <- EV, Rmult_assoc, <- pow2_add.
    replace (e' + - e') with 0 by lia. rewrite pow2_0. ring. }
  rewrite EX'. pose proof (pow2_pos (- e')) as P_ne'.
  destruct (Z_le_gt_dec e' (-1074)) as [L|L].
  - pose proof (pow2_le 1074 (- e') ltac:(lia)).
    replace 52 with (-1022 + 1074) by lia. rewrite pow2_add.
    pose proof (pow2_pos (-1022)). pose proof (pow2_pos 1074). nra.
  - assert (L' : e' <= D - 53) by (unfold e' in *; lia).
    pose proof (digits_value m1 e1 H1) as [A1 _].
    pose proof (digits_value m2 e2 H2) as [_ A2].
    assert (PF2 : (0 < F2R m2 e2)%R) by (unfold F2R; nra).
    assert (Hvd : (pow2 (D - 1) <= v)%R).
    { unfold v. apply Rmult_le_reg_r with (F2R m2 e2); [exact PF2|].
      replace (F2R m1 e1 / F2R m2 e2 * F2R m2 e2)%R with (F2R m1 e1) by (field; lra).
      apply Rle_trans with (pow2 (D - 1) * pow2 (Zdigits2 m2 + e2))%R.
      - pose proof (pow2_pos (D - 1)). nra.
      - rewrite <- pow2_add. replace (D - 1 + (Zdigits2 m2 + e2))
          with (Zdigits2 m1 + e1 - 1) by (unfold D; lia). exact A1. }
    pose proof (pow2_le 52 (D - 1 + - e') ltac:(lia)) as H52.
    rewrite pow2_add in H52. pose proof (pow2_pos (D - 1)). nra.
Qed.

Lemma div_normal x y vx vy :
  normal_pos x vx -> normal_pos y vy ->
  (pow2 (-1022) <= vx / vy <= max_float)%R ->
  exists vz, normal_pos (x / y)%float vz /\ (Rabs (vz - vx / vy) <= roundoff * (vx / vy))%R.
Proof.
  intros (mx & ex & Ex & Hmx & Hex & ->) (my & ey & Ey & Hmy & Hey & ->) Hv.
  pose proof (div_core_normal (Z.pos mx) ex (Z.pos my) ey ltac:(lia) ltac:(lia)
                ltac:(lra)) as C.
  assert (E : Prim2SF (x / y)%float
              = let '(q, e', l) := SFdiv_core_binary prec emax (Z.pos mx) ex (Z.pos my) ey in
                binary_round_aux prec emax false q e' l).
  { rewrite div_spec, Ex, Ey. reflexivity. }
  destruct (SFdiv_core_binary prec emax (Z.pos mx) ex (Z.pos my) ey) as [[q e'] l].
  destruct C as (X & HX & H52 & EV).
  destruct (round_normal_value q e' l X HX H52 ltac:(rewrite EV; exact Hv))
    as (m & e & Er & Hm & He & Herr).
  rewrite EV in Herr.
  exists (F2R (Z.pos m) e). split; [|exact Herr].
  exists m, e. split; [|auto]. rewrite E. exact Er.
Qed.

Lemma normal_pos_tests x v :
  normal_pos x v ->
  is_infinity x = false /\ PrimFloat.eqb x zero = false
  /\ PrimFloat.leb x zero = false /\ PrimFloat.ltb zero x = true.
Proof.
  intros (m & e & E & _). unfold is_infinity.
  rewrite !eqb_spec, leb_spec, ltb_spec, abs_spec, E.
  repeat split; reflexivity.
Qed.

(** [a / b] on two positive ints. *)
Lemma int_truediv_normal a b :
  0 < a -> 0 < b ->
  (pow2 (-1022) <= IZR a / IZR b <= max_float)%R ->
  exists f v, int_truediv a b = Ok f /\ normal_pos f v
              /\ (Rabs (v - IZR a / IZR b) <= roundoff * (IZR a / IZR b))%R.
Proof.
  intros Ha Hb Hv. unfold int_truediv.
  destruct (Z.eqb_spec b 0); [lia|].
  replace (a <? 0) with false by (symmetry; apply Z.ltb_ge; lia).
  replace (b <? 0) with false by (symmetry; apply Z.ltb_ge; lia).
  cbn [xorb]. rewrite !Z.abs_eq by lia.
  destruct a as [|pa|]; try lia.
  assert (EF : (F2R (Z.pos pa) 0 / F2R b 0 = IZR (Z.pos pa) / IZR b)%R).
  { unfold F2R. rewrite pow2_0. now rewrite !Rmult_1_r. }
  pose proof (div_core_normal (Z.pos pa) 0 b 0 Ha Hb ltac:(rewrite EF; lra)) as C.
  destruct (SFdiv_core_binary prec emax (Z.pos pa) 0 b 0) as [[q e'] l].
  destruct C as (X & HX & H52 & EV). rewrite EF in EV.
  destruct (round_normal_value q e' l X HX H52 ltac:(rewrite EV; exact Hv))
    as (m & e & Er & Hm & He & Herr).
  rewrite EV in Herr. rewrite Er.
  assert (N : normal_pos (SF2Prim (S754_finite false m e)) (F2R (Z.pos m) e))
    by (eapply normal_pos_of_spec; eauto).
  exists (SF2Prim (S754_finite false m e)), (F2R (Z.pos m) e).
  split; [|split; [exact N|exact Herr]].
  destruct (normal_pos_tests _ _ N) as (-> & _). reflexivity.
Qed.

(** ** Comparison *)

Lemma F2R_lt_exp m1 e1 m2 e2 :
  2 ^ 52 <= m1 < 2 ^ 53 -> 2 ^ 52 <= m2 < 2 ^ 53 -> e1 < e2 ->
  (F2R m1 e1 < F2R m2 e2)%R.
Proof.
  intros [_ H1] [H2 _] He. unfold F2R.
  apply IZR_lt in H1. apply IZR_le in H2.
  pose proof (pow2_le (e1 + 1) e2 ltac:(lia)) as P. rewrite pow2_succ in P.
  pose proof (pow2_pos e1). change (2 ^ 53) with (2 * 2 ^ 52) in H1.
  rewrite mult_IZR in H1.
  assert (0 < IZR (2 ^ 52))%R by (apply IZR_lt; lia). nra.
Qed.

Lemma ltb_normal x y vx vy :
  normal_pos x vx -> normal_pos y vy ->
  (PrimFloat.ltb x y = true <-> (vx < vy)%R).
Proof.
  intros (mx & ex & Ex & Hmx & Hex & ->) (my & ey & Ey & Hmy & Hey & ->).
  rewrite ltb_spec, Ex, Ey. unfold SFltb, SFcompare.
  destruct (Z.compare_spec ex ey) as [->|L|L].
  - change (Pos.compare_cont Eq mx my) with (Pos.compare mx my).
    unfold F2R. pose proof (pow2_pos ey).
    destruct (Pos.compare_spec mx my) as [->|L|L].
    + split; [discriminate|lra].
    + split; [intros _|reflexivity].
      assert (IZR (Z.pos mx) < IZR (Z.pos my))%R by (apply IZR_lt; lia). nra.
    + split; [discriminate|].
      assert (IZR (Z.pos my) < IZR (Z.pos mx))%R by (apply IZR_lt; lia). nra.
  - split; [intros _|reflexivity]. now apply F2R_lt_exp.
  - split; [discriminate|].
    pose proof (F2R_lt_exp (Z.pos my) ey (Z.pos mx) ex Hmy Hmx L). lra.
Qed.

(** ** Integers that are floats *)

Lemma iter_xO p d : Z.pos (Pos.iter xO p d) = Z.pos p * 2 ^ Z.pos d.
Proof.
  rewrite Pos2Nat.inj_iter. rewrite <- (positive_nat_Z d).
  induction (Pos.to_nat d) as [|n IH]; [cbn; lia|].
  cbn [nat_rect]. rewrite Pos2Z.inj_xO.
  change (nat_rect _ p (fun _ => xO) n) with (nat_rect (fun _ => positive) p (fun _ => xO) n).
  rewrite Nat2Z.inj_succ. unfold Z.succ. rewrite Z.pow_add_r by lia.
  fold (Nat.iter n xO p) in *. lia.
Qed.

Lemma binary_round_aux_exact s m e :
  2 ^ 52 <= Z.pos m < 2 ^ 53 -> -1074 <= e <= 971 ->
  binary_round_aux prec emax s (Z.pos m) e loc_Exact = S754_finite s m e.
Proof.
  intros Hm He. unfold binary_round_aux, shr_fexp. rewrite fexp_eq.
  rewrite (Zdigits2_unique (Z.pos m) 53) by lia.
  replace (Z.max (53 + e - 53) (-1074) - e) with 0 by lia.
  cbn [shr shr_record_of_loc loc_of_shr_record shr_m shr_r shr_s round_nearest_even].
  rewrite fexp_eq. rewrite (Zdigits2_unique (Z.pos m) 53) by lia.
  replace (Z.max (53 + e - 53) (-1074) - e) with 0 by lia.
  cbn [shr shr_record_of_loc shr_m].
  replace (e <=? emax - prec) with true; [reflexivity|].
  symmetry. apply Z.leb_le. change (emax - prec) with 971. lia.
Qed.

Lemma float_of_Z_normal z :
  0 < z < 2 ^ 53 -> normal_pos (float_of_Z z) (IZR z).
Proof.
  intros Hz. unfold float_of_Z. destruct z as [|p|p]; try lia.
  cbn [binary_normalize]. unfold binary_round. rewrite fexp_eq.
  pose proof (Zdigits2_bounds (Z.pos p) ltac:(lia)) as B.
  change (Zdigits2 (Z.pos p)) with (Z.pos (digits2_pos p)) in B.
  set (d := Z.pos (digits2_pos p)) in *.
  assert (Hd : 0 < d <= 53).
  { split; [unfold d; lia|].
    destruct (Z_le_gt_dec d 53) as [L|L]; [exact L|].
    assert (2 ^ 53 <= 2 ^ (d - 1)) by (apply Z.pow_le_mono_r; lia). lia. }
  replace (Z.max (d + 0 - 53) (-1074)) with (d - 53) by lia.
  unfold shl_align. rewrite Z.sub_0_r.
  destruct (d - 53) as [|q|q] eqn:Eq; try lia.
  - (* already 53 digits *)
    assert (Hp : 2 ^ 52 <= Z.pos p < 2 ^ 53).
    { replace d with 53 in B by lia. change (53 - 1) with 52 in B. exact B. }
    rewrite binary_round_aux_exact by (try exact Hp; lia).
    eapply normal_pos_of_spec; try reflexivity; try exact Hp; try lia.
    unfold F2R. rewrite pow2_0. ring.
  - (* shifted left *)
    assert (Ed : d = 53 - Z.pos q) by lia.
    pose proof (iter_xO p q) as Ei.
    assert (Hm : 2 ^ 52 <= Z.pos (Pos.iter xO p q) < 2 ^ 53).
    { rewrite Ei.
      replace 52 with (d - 1 + Z.pos q) by lia.
      replace 53 with (d + Z.pos q) by lia.
      rewrite !Z.pow_add_r by lia.
      assert (0 < 2 ^ Z.pos q) by (apply Z.pow_pos_nonneg; lia). nia. }
    rewrite binary_round_aux_exact by (try exact Hm; lia).
    eapply normal_pos_of_spec; try reflexivity; try exact Hm; try lia.
    unfold F2R. rewrite Ei, mult_IZR, <- pow2_IZR by lia.
    rewrite Rmult_assoc, <- pow2_add.
    replace (Z.pos q + Z.neg q) with 0 by lia. rewrite pow2_0. ring.
Qed.

(** ** Durations in the normal range *)

Lemma compare_cont_Eq m c : Pos.compare_cont Eq m c = Pos.compare m c.
Proof. reflexivity. Qed.

Lemma normal_pos_of_bounds d :
  PrimFloat.leb 0x1p-960%float d = true ->
  PrimFloat.ltb d infinity = true ->
  exists v, normal_pos d v /\ (pow2 (-960) <= v)%R.
Proof.
  rewrite leb_spec, ltb_spec. pose proof (Prim2SF_valid d) as V.
  change (Prim2SF 0x1p-960%float) with (S754_finite false 4503599627370496 (-1012)).
  change (Prim2SF infinity) with (S754_infinity false).
  destruct (Prim2SF d) as [s|s| |s m e] eqn:E; try discriminate.
  - destruct s; discriminate.
  - destruct s; [discriminate|]. unfold SFleb, SFcompare. intros H1 _.
    assert (He1 : -1012 <= e).
    { destruct (Z.compare_spec (-1012) e); try lia; discriminate. }
    cbn [SpecFloat.valid_binary] in V. unfold SpecFloat.bounded, canonical_mantissa in V.
    apply andb_prop in V as [V V2]. apply Z.eqb_eq in V. apply Z.leb_le in V2.
    change (emax - prec) with 971 in V2. rewrite fexp_eq in V.
    pose proof (Zdigits2_bounds (Z.pos m) ltac:(lia)) as B.
    change (Zdigits2 (Z.pos m)) with (Z.pos (digits2_pos m)) in B.
    replace (Z.pos (digits2_pos m)) with 53 in B by lia.
    change (53 - 1) with 52 in B.
    exists (F2R (Z.pos m) e). split.
    + exists m, e. repeat split; auto; lia.
    + pose proof (digits_value (Z.pos m) e ltac:(lia)) as [D1 _].
      rewrite (Zdigits2_unique (Z.pos m) 53) in D1 by lia.
      pose proof (pow2_le (-960) (53 + e - 1) ltac:(lia)). lra.
Qed.

Lemma u_pos : (0 < roundoff)%R.
Proof. apply pow2_pos. Qed.

Lemma u_small c : c <= 2 ^ 51 -> (roundoff * IZR c <= / 4)%R.
Proof.
  intros H. apply IZR_le in H. rewrite <- pow2_IZR in H by lia.
  pose proof u_pos as Pu. unfold roundoff in *.
  assert (E : (pow2 (-53) * pow2 51 = / 4)%R).
  { rewrite <- pow2_add. change (-53 + 51) with (- (2)). rewrite pow2_opp.
    change 2 with (1 + 1). rewrite pow2_add, pow2_1. lra. }
  rewrite <- E. apply Rmult_le_compat_l; lra.
Qed.

Lemma mapM_map {A B} (f : A -> res B) (g : A -> B) l :
  (forall a, In a l -> f a = Ok (g a)) -> mapM f l = Ok (map g l).
Proof.
  induction l as [|a l IH]; intros H; [reflexivity|]. cbn [mapM map].
  rewrite (H a (or_introl eq_refl)). cbn [bind].
  rewrite IH by (intros; apply H; now right). reflexivity.
Qed.

Lemma in_range i n : In i (range n) <-> 0 <= i < n.
Proof.
  unfold range. rewrite in_map_iff. split.
  - intros (k & <- & H). apply in_seq in H. lia.
  - intros H. exists (Z.to_nat i). split; [lia|]. apply in_seq. lia.
Qed.

(** The samples of a duration [d] of value [vd], a gap of value [vg] that is
    [vd / (count + 2)] up to one rounding. *)
Section Samples.

Variables (d gap : float) (count : Z) (vd vg : R).

Hypothesis Hcount : 0 < count <= 2 ^ 50.
Hypothesis Hd : normal_pos d vd.
Hypothesis Hg : normal_pos gap vg.
Hypothesis Hvg :
  (Rabs (vg - vd / IZR (count + 2)) <= roundoff * (vd / IZR (count + 2)))%R.

Lemma gap_bounds :
  (3 <= IZR (count + 2))%R /\ (roundoff * IZR (count + 2) <= / 4)%R
  /\ (0 < vd)%R /\ (0 < vg)%R
  /\ ((1 - roundoff) * vd <= vg * IZR (count + 2) <= (1 + roundoff) * vd)%R.
Proof.
  pose proof (normal_pos_range _ _ Hd) as [Rd _].
  pose proof (normal_pos_range _ _ Hg) as [Rg _].
  pose proof (pow2_pos (-1022)) as Pm. pose proof u_pos as Pu.
  set (C := IZR (count + 2)) in *.
  assert (C3 : (3 <= C)%R) by (apply IZR_le; lia).
  split; [exact C3|]. split; [apply u_small; lia|].
  split; [lra|]. split; [lra|].
  apply Rabs_le_inv in Hvg.
  assert (E : (vd / C * C = vd)%R) by (field; lra).
  assert (E1 : ((vg - vd / C) * C = vg * C - vd)%R) by (rewrite <- E at 2; ring).
  assert (E2 : (roundoff * (vd / C) * C = roundoff * vd)%R) by (rewrite <- E at 2; ring).
  assert (L1 : ((vg - vd / C) * C <= roundoff * (vd / C) * C)%R)
    by (apply Rmult_le_compat_r; lra).
  assert (L2 : (- (roundoff * (vd / C)) * C <= (vg - vd / C) * C)%R)
    by (apply Rmult_le_compat_r; lra).
  lra.
Qed.

Lemma sample_value k :
  1 <= k <= count ->
  exists vs, normal_pos (gap * float_of_Z k)%float vs
             /\ ((1 - roundoff) * (vg * IZR k) <= vs <= (1 + roundoff) * (vg * IZR k))%R.
Proof.
  intros Hk. destruct gap_bounds as (C3 & Cu & Pd & Pg & G1 & G2).
  pose proof u_pos as Pu.
  pose proof (normal_pos_range _ _ Hd) as [_ Rd].
  pose proof (normal_pos_range _ _ Hg) as [Rg _].
  pose proof (float_of_Z_normal k ltac:(lia)) as Nk.
  set (C := IZR (count + 2)) in *. set (K := IZR k) in *.
  assert (K1 : (1 <= K)%R) by (apply IZR_le; lia).
  assert (K2 : (K <= C - 2)%R).
  { unfold C, K. rewrite plus_IZR.
    assert (IZR k <= IZR count)%R by (apply IZR_le; lia). lra. }
  destruct (mul_normal gap (float_of_Z k) vg K Hg Nk) as (vs & Ns & Es).
  - split.
    + apply Rle_trans with (vg * 1)%R; [lra|]. apply Rmult_le_compat_l; lra.
    + (* vg * k * C <= (1 + roundoff) * vd * (C - 2) < vd * C *)
      assert (H1 : (vg * K * C <= (1 + roundoff) * vd * K)%R).
      { replace (vg * K * C)%R with (vg * C * K)%R by ring.
        apply Rmult_le_compat_r; lra. }
      assert (H2 : ((1 + roundoff) * vd * K <= (1 + roundoff) * vd * (C - 2))%R).
      { apply Rmult_le_compat_l; [apply Rmult_le_pos; lra|exact K2]. }
      assert (H3 : ((1 + roundoff) * vd * (C - 2) <= vd * C)%R).
      { replace ((1 + roundoff) * vd * (C - 2))%R
          with (vd * (C - 2 + roundoff * C - 2 * roundoff))%R by ring.
        apply Rmult_le_compat_l; lra. }
      assert (H4 : (vg * K * C <= vd * C)%R) by lra.
      apply Rle_trans with vd; [|exact Rd].
      apply Rmult_le_reg_r with C; lra.
  - exists vs. split; [exact Ns|]. apply Rabs_le_inv in Es. lra.
Qed.

Lemma sample_positive k :
  1 <= k <= count -> PrimFloat.ltb zero (gap * float_of_Z k)%float = true.
Proof.
  intros Hk. destruct (sample_value k Hk) as (vs & Ns & _).
  now destruct (normal_pos_tests _ _ Ns) as (_ & _ & _ & ->).
Qed.

Lemma sample_below_duration k :
  1 <= k <= count -> PrimFloat.ltb (gap * float_of_Z k)%float d = true.
Proof.
  intros Hk. destruct (sample_value k Hk) as (vs & Ns & _ & Es).
  apply (ltb_normal _ _ vs vd Ns Hd).
  destruct gap_bounds as (C3 & Cu & Pd & Pg & G1 & G2). pose proof u_pos as Pu.
  set (C := IZR (count + 2)) in *. set (K := IZR k) in *.
  assert (K1 : (1 <= K)%R) by (apply IZR_le; lia).
  assert (K2 : (K <= C - 2)%R).
  { unfold C, K. rewrite plus_IZR.
    assert (IZR k <= IZR count)%R by (apply IZR_le; lia). lra. }
  assert (H1 : (vs * C <= (1 + roundoff) * K * (vg * C))%R).
  { replace ((1 + roundoff) * K * (vg * C))%R with ((1 + roundoff) * (vg * K) * C)%R by ring.
    apply Rmult_le_compat_r; lra. }
  assert (H2 : ((1 + roundoff) * K * (vg * C) <= (1 + roundoff) * K * ((1 + roundoff) * vd))%R).
  { apply Rmult_le_compat_l; [|exact G2]. apply Rmult_le_pos; lra. }
  assert (H3 : ((1 + roundoff) * K * ((1 + roundoff) * vd)
                <= (1 + roundoff) * (C - 2) * ((1 + roundoff) * vd))%R).
  { apply Rmult_le_compat_r; [apply Rmult_le_pos; lra|].
    apply Rmult_le_compat_l; lra. }
  assert (Huu : (roundoff * (roundoff * C) <= roundoff * / 4)%R) by (apply Rmult_le_compat_l; lra).
  assert (H4 : ((1 + roundoff) * (C - 2) * (1 + roundoff) < C)%R).
  { replace ((1 + roundoff) * (C - 2) * (1 + roundoff))%R
      with (C - 2 + 2 * (roundoff * C) - 4 * roundoff + roundoff * (roundoff * C) - 2 * (roundoff * roundoff))%R by ring.
    assert (0 <= roundoff * roundoff)%R by (apply Rmult_le_pos; lra). lra. }
  assert (H5 : ((1 + roundoff) * (C - 2) * ((1 + roundoff) * vd) < C * vd)%R).
  { replace ((1 + roundoff) * (C - 2) * ((1 + roundoff) * vd))%R
      with ((1 + roundoff) * (C - 2) * (1 + roundoff) * vd)%R by ring.
    apply Rmult_lt_compat_r; lra. }
  apply Rmult_lt_reg_r with C; lra.
Qed.

Lemma sample_increasing k :
  1 <= k -> k + 1 <= count ->
  PrimFloat.ltb (gap * float_of_Z k)%float (gap * float_of_Z (k + 1))%float = true.
Proof.
  intros Hk1 Hk2.
  destruct (sample_value k ltac:(lia)) as (vs & Ns & _ & Es).
  destruct (sample_value (k + 1) ltac:(lia)) as (vs' & Ns' & Es' & _).
  apply (ltb_normal _ _ vs vs' Ns Ns').
  destruct gap_bounds as (_ & _ & _ & Pg & _). pose proof u_pos as Pu.
  rewrite plus_IZR in Es'. set (K := IZR k) in *.
  assert (K1 : (1 <= K)%R) by (apply IZR_le; lia).
  assert (Ku : (roundoff * (2 * K + 1) <= / 4)%R).
  { pose proof (u_small (2 * k + 1) ltac:(lia)) as Hu.
    rewrite plus_IZR, mult_IZR in Hu. exact Hu. }
  assert (H1 : ((1 + roundoff) * K < (1 - roundoff) * (K + 1))%R).
  { replace ((1 - roundoff) * (K + 1))%R with ((1 + roundoff) * K + (1 - roundoff * (2 * K + 1)))%R by ring.
    lra. }
  assert (H2 : (vg * ((1 + roundoff) * K) < vg * ((1 - roundoff) * (K + 1)))%R)
    by (apply Rmult_lt_compat_l; lra).
  replace ((1 + roundoff) * (vg * K))%R with (vg * ((1 + roundoff) * K))%R in Es by ring.
  replace ((1 - roundoff) * (vg * (K + 1)))%R with (vg * ((1 - roundoff) * (K + 1)))%R in Es' by ring.
  lra.
Qed.

End Samples.

(** ** Truncation *)

Lemma shiftl_floor m e :
  0 < m -> (IZR (Z.shiftl m e) <= F2R m e < IZR (Z.shiftl m e) + 1)%R.
Proof.
  intros Hm. unfold F2R. destruct (Z_le_gt_dec 0 e) as [L|L].
  - rewrite Z.shiftl_mul_pow2 by lia. rewrite mult_IZR, <- pow2_IZR by lia. lra.
  - rewrite Z.shiftl_div_pow2 by lia.
    assert (P : 0 < 2 ^ (- e)) by (apply Z.pow_pos_nonneg; lia).
    pose proof (Z.div_mod m (2 ^ (- e)) ltac:(lia)) as E.
    pose proof (Z.mod_pos_bound m (2 ^ (- e)) P) as B.
    set (q := m / 2 ^ (- e)) in *. set (r := m mod 2 ^ (- e)) in *.
    apply (f_equal IZR) in E. rewrite plus_IZR, mult_IZR, <- pow2_IZR in E by lia.
    destruct B as [B1 B2]. apply IZR_le in B1. apply IZR_lt in B2.
    rewrite <- pow2_IZR in B2 by lia.
    pose proof (pow2_pos e) as Pe.
    assert (I : (pow2 (- e) * pow2 e = 1)%R).
    { rewrite <- pow2_add. replace (- e + e) with 0 by lia. apply pow2_0. }
    rewrite E.
    replace ((pow2 (- e) * IZR q + IZR r) * pow2 e)%R
      with (IZR q * (pow2 (- e) * pow2 e) + IZR r * pow2 e)%R by ring.
    rewrite I.
    assert (0 <= IZR r * pow2 e)%R by (apply Rmult_le_pos; lra).
    assert (IZR r * pow2 e < pow2 (- e) * pow2 e)%R by (apply Rmult_lt_compat_r; lra).
    lra.
Qed.

Lemma int_of_float_normal x v :
  normal_pos x v ->
  exists n, int_of_float x = Ok n /\ (IZR n <= v < IZR n + 1)%R.
Proof.
  intros (m & e & E & _ & _ & ->). unfold int_of_float. rewrite E.
  eexists. split; [reflexivity|]. apply shiftl_floor. lia.
Qed.

(** ** The height of a cell and the size label *)

Lemma thumb_height_of_total iw ih :
  0 < iw < 2 ^ 31 -> 0 < ih < 2 ^ 31 ->
  exists th, thumb_height_of iw ih = Ok th
             /\ thumb_width * ih - iw <= th * iw <= thumb_width * ih.
Proof.
  intros Hw Hh. unfold thumb_height_of, truediv.
  assert (Pw : (1 <= IZR iw)%R) by (apply IZR_le; lia).
  assert (Ph : (1 <= IZR ih)%R) by (apply IZR_le; lia).
  assert (Bw : (IZR iw <= pow2 31)%R) by (rewrite pow2_IZR by lia; apply IZR_le; lia).
  assert (Bh : (IZR ih <= pow2 31)%R) by (rewrite pow2_IZR by lia; apply IZR_le; lia).
  pose proof (pow2_pos 31) as P31. pose proof (pow2_pos (-1022)) as Pm.
  pose proof (pow2_le (-1022) (-31) ltac:(lia)) as L1.
  pose proof (pow2_le 31 1000 ltac:(lia)) as L2.
  pose proof (pow2_lt 1000 1023 ltac:(lia)) as L3.
  pose proof max_float_bounds as [Mx _].
  assert (I31 : (pow2 (-31) * pow2 31 = 1)%R).
  { rewrite <- pow2_add. apply pow2_0. }
  pose proof (pow2_pos (-31)) as Pm31.
  set (q := (IZR ih / IZR iw)%R).
  assert (Eq : (q * IZR iw = IZR ih)%R) by (unfold q; field; lra).
  assert (Q1 : (pow2 (-31) <= q)%R).
  { apply Rmult_le_reg_r with (IZR iw); [lra|]. rewrite Eq.
    apply Rle_trans with (pow2 (-31) * pow2 31)%R; [|lra].
    apply Rmult_le_compat_l; lra. }
  assert (Q2 : (q <= pow2 31)%R).
  { apply Rmult_le_reg_r with (IZR iw); [lra|]. rewrite Eq.
    apply Rle_trans with (pow2 31 * 1)%R; [lra|].
    apply Rmult_le_compat_l; lra. }
  destruct (int_truediv_normal ih iw ltac:(lia) ltac:(lia)) as (ratio & vr & Er & Nr & Hr).
  { fold q. lra. }
  fold q in Hr. rewrite Er. cbn [bind]. unfold mul, to_float.
  change (float_of_int thumb_width) with (Ok 378%float). cbn [bind].
  assert (N378 : normal_pos 378%float 378).
  { change 378%float with (float_of_Z 378). apply float_of_Z_normal. lia. }
  pose proof u_pos as Pu. apply Rabs_le_inv in Hr.
  assert (U40 : (roundoff * pow2 40 <= / 8192)%R).
  { unfold roundoff. rewrite <- pow2_add. change (-53 + 40) with (- (13)).
    rewrite pow2_opp, pow2_IZR by lia. change (2 ^ 13) with 8192. lra. }
  assert (P40 : (378 * pow2 31 <= pow2 40)%R).
  { change 40 with (9 + 31). rewrite pow2_add, (pow2_IZR 9) by lia.
    change (2 ^ 9) with 512. apply Rmult_le_compat_r; lra. }
  assert (U1 : (roundoff <= 1)%R).
  { pose proof (pow2_le (-53) 0 ltac:(lia)) as L. rewrite pow2_0 in L. exact L. }
  assert (Pq : (0 < q)%R) by lra.
  assert (W0 : (0 <= roundoff * q)%R) by (apply Rmult_le_pos; lra).
  assert (W1 : (roundoff * q <= q)%R).
  { rewrite <- (Rmult_1_l q) at 2. apply Rmult_le_compat_r; lra. }
  pose proof (normal_pos_range _ _ Nr) as [Rr _].
  destruct (mul_normal 378%float ratio 378 vr N378 Nr) as (vs & Ns & Hs).
  { split; [lra|].
    pose proof (pow2_le 41 1000 ltac:(lia)) as L4.
    change 41 with (40 + 1) in L4. rewrite pow2_succ in L4. lra. }
  apply Rabs_le_inv in Hs.
  destruct (int_of_float_normal _ _ Ns) as (th & Et & Bt).
  cbn [int_of]. exists th. split; [exact Et|].
  change thumb_width with 378.
  (* the computed product is within 3u of 378 * ih / iw *)
  assert (W2 : (0 <= roundoff * (roundoff * q) <= roundoff * q)%R).
  { split; [apply Rmult_le_pos; lra|].
    rewrite <- (Rmult_1_l (roundoff * q)) at 2. apply Rmult_le_compat_r; lra. }
  assert (Wr : (roundoff * q - roundoff * (roundoff * q) <= roundoff * vr <= roundoff * q + roundoff * (roundoff * q))%R).
  { split.
    - replace (roundoff * q - roundoff * (roundoff * q))%R with (roundoff * (q - roundoff * q))%R by ring.
      apply Rmult_le_compat_l; lra.
    - replace (roundoff * q + roundoff * (roundoff * q))%R with (roundoff * (q + roundoff * q))%R by ring.
      apply Rmult_le_compat_l; lra. }
  assert (V1 : (vs <= 378 * q + 3 * (378 * (roundoff * q)))%R) by lra.
  assert (V2 : (378 * q - 3 * (378 * (roundoff * q)) <= vs)%R) by lra.
  assert (S1 : (3 * (378 * (roundoff * q)) * IZR iw < 1)%R).
  { replace (3 * (378 * (roundoff * q)) * IZR iw)%R with (3 * (roundoff * (378 * IZR ih)))%R
      by (rewrite <- Eq; ring).
    assert (378 * IZR ih <= pow2 40)%R by lra.
    assert (roundoff * (378 * IZR ih) <= roundoff * pow2 40)%R by (apply Rmult_le_compat_l; lra).
    lra. }
  assert (T1 : (IZR th * IZR iw <= vs * IZR iw)%R) by (apply Rmult_le_compat_r; lra).
  assert (T2 : (vs * IZR iw < (IZR th + 1) * IZR iw)%R) by (apply Rmult_lt_compat_r; lra).
  assert (T3 : (vs * IZR iw <= (378 * q + 3 * (378 * (roundoff * q))) * IZR iw)%R)
    by (apply Rmult_le_compat_r; lra).
  assert (T4 : ((378 * q - 3 * (378 * (roundoff * q))) * IZR iw <= vs * IZR iw)%R)
    by (apply Rmult_le_compat_r; lra).
  assert (E1 : ((378 * q + 3 * (378 * (roundoff * q))) * IZR iw
                = 378 * IZR ih + 3 * (378 * (roundoff * q)) * IZR iw)%R)
    by (rewrite <- Eq; ring).
  assert (E2 : ((378 * q - 3 * (378 * (roundoff * q))) * IZR iw
                = 378 * IZR ih - 3 * (378 * (roundoff * q)) * IZR iw)%R)
    by (rewrite <- Eq; ring).
  split.
  - assert (H : (IZR (378 * ih - iw - 1) < IZR (th * iw))%R).
    { rewrite minus_IZR, minus_IZR, !mult_IZR. lra. }
    apply lt_IZR in H. lia.
  - assert (H : (IZR (th * iw) < IZR (378 * ih + 1))%R).
    { rewrite plus_IZR, !mult_IZR. lra. }
    apply lt_IZR in H. lia.
Qed.

Lemma size_mb_total bytes :
  0 <= bytes < 2 ^ 63 -> exists size_mb, int_truediv bytes (1024 * 1024) = Ok size_mb.
Proof.
  intros Hb. destruct (Z.eq_dec bytes 0) as [->|Hne]; [eexists; reflexivity|].
  destruct (int_truediv_normal bytes (1024 * 1024) ltac:(lia) ltac:(lia))
    as (f & v & E & _); [|eauto].
  assert (P : (1 <= IZR bytes)%R) by (apply IZR_le; lia).
  assert (B : (IZR bytes <= pow2 63)%R) by (rewrite pow2_IZR by lia; apply IZR_le; lia).
  change (1024 * 1024) with (2 ^ 20). rewrite <- pow2_IZR by lia.
  pose proof (pow2_pos 20). pose proof (pow2_pos (-1022)).
  pose proof (pow2_le (-1022) (-20) ltac:(lia)).
  assert (I : (pow2 (-20) * pow2 20 = 1)%R) by (rewrite <- pow2_add; apply pow2_0).
  pose proof (pow2_pos (-20)).
  pose proof (pow2_lt 43 1023 ltac:(lia)).
  assert (E43 : (pow2 63 = pow2 43 * pow2 20)%R) by (rewrite <- pow2_add; reflexivity).
  pose proof (pow2_pos 43). pose proof max_float_bounds as [Mx _].
  split.
  - apply Rmult_le_reg_r with (pow2 20); [lra|].
    replace (IZR bytes / pow2 20 * pow2 20)%R with (IZR bytes) by (field; lra).
    apply Rle_trans with (pow2 (-20) * pow2 20)%R; [|lra].
    apply Rmult_le_compat_r; lra.
  - apply Rle_trans with (pow2 43); [|lra].
    apply Rmult_le_reg_r with (pow2 20); [lra|].
    replace (IZR bytes / pow2 20 * pow2 20)%R with (IZR bytes) by (field; lra). lra.
Qed.

(** ** The probe *)

Lemma get_video_info_body_queries w p od ow oh oc :
  query w FormatDuration p = Ok od ->
  query w StreamWidth p = Ok ow ->
  query w StreamHeight p = Ok oh ->
  query w StreamCodecName p = Ok oc ->
  get_video_info_body w p
  = (d <- duration_of od ;;
     bytes <- getsize w p ;;
     size_mb <- int_truediv bytes (1024 * 1024) ;;
     Ok {| duration := d; resolution := resolution_of ow oh;
           size := (fmt_2f size_mb ++ " MB")%string; codec := codec_of oc |}).
Proof.
  unfold query, get_video_info_body. intros -> E2 E3 E4. cbn [bind].
  unfold duration_of.
  destruct (truthy (strip od)); [destruct (float_of_string (strip od))|];
    cbn [bind]; try reflexivity; rewrite E2, E3, E4; reflexivity.
Qed.

Lemma check_run_ok p out : check_run p = Ok out <-> p = Exited 0 out.
Proof.
  destruct p as [|rc o]; cbn; [split; discriminate|].
  destruct (Z.eqb_spec rc 0); split; intros H; inversion H; subst; congruence.
Qed.

Ltac step_bind :=
  match goal with
  | |- context [bind ?m _] =>
      let E := fresh "E" in destruct m eqn:E; cbn [bind]
  end.

(** ** The sheet *)

Lemma place_thumbnail_paste w tf th y0 i tp ts src x y cw ch :
  In (PasteImage src x y cw ch) (place_thumbnail w tf th y0 i (tp, ts)) <->
  src = tp /\ x = MARGIN + (i mod GRID_COLUMNS) * (thumb_width + MARGIN)
  /\ y = y0 + (i / GRID_COLUMNS) * (th + MARGIN)
  /\ cw = thumb_width /\ ch = th
  /\ image_open w tp <> None /\ 0 < th
  /\ image_resize w tp thumb_width th = true.
Proof.
  unfold place_thumbnail. destruct (image_open w tp) as [sz|].
  - unfold resize_ok. change (0 <? thumb_width) with true. cbn [andb].
    destruct (Z.ltb_spec 0 th) as [L|L]; cbn [andb].
    + destruct (image_resize w tp thumb_width th) eqn:R.
      * cbn [In]. split.
        -- intros [H|H].
           ++ inversion H; subst. repeat split; auto; discriminate.
           ++ destruct (format_timestamp ts); [destruct (textsize w tf a)|];
                cbn [In] in H; intuition discriminate.
        -- intros (-> & -> & -> & -> & -> & _). now left.
      * split; [intros []|intros (_ & _ & _ & _ & _ & _ & _ & H); discriminate].
    + split; [intros []|intros (_ & _ & _ & _ & _ & _ & H & _); lia].
  - split; [intros []|intros (_ & _ & _ & _ & _ & H & _); congruence].
Qed.

Lemma place_from_In w tf th y0 thumbs : forall idx op,
  In op (place_from w tf th y0 idx thumbs) <->
  exists k thumb, nth_error thumbs k = Some thumb
                  /\ In op (place_thumbnail w tf th y0 (idx + Z.of_nat k) thumb).
Proof.
  induction thumbs as [|t thumbs IH]; intros idx op; cbn [place_from].
  - split; [intros []|intros ([|k] & thumb & H & _); discriminate].
  - rewrite in_app_iff, IH. split.
    + intros [H|(k & thumb & Hk & H)].
      * exists 0%nat, t. split; [reflexivity|]. now rewrite Z.add_0_r.
      * exists (S k), thumb. split; [exact Hk|].
        now replace (idx + Z.of_nat (S k)) with (idx + 1 + Z.of_nat k) by lia.
    + intros ([|k] & thumb & Hk & H).
      * left. inversion Hk; subst. now rewrite Z.add_0_r in H.
      * right. exists k, thumb. split; [exact Hk|].
        now replace (idx + 1 + Z.of_nat k) with (idx + Z.of_nat (S k)) by lia.
Qed.

Lemma draw_lines_text f lines : forall y op,
  In op (fst (draw_lines f y lines)) -> exists x' y' t, op = DrawText x' y' t f.
Proof.
  induction lines as [|l lines IH]; intros y op; cbn [draw_lines]; [intros []|].
  specialize (IH (y + (FONT_SIZE + 2))).
  destruct (draw_lines f (y + (FONT_SIZE + 2)) lines) as [drawn y_end].
  cbn [fst In] in *. intros [<-|H]; eauto.
Qed.

Lemma draw_lines_end f lines : forall y,
  snd (draw_lines f y lines) = y + Z.of_nat (List.length lines) * (FONT_SIZE + 2).
Proof.
  induction lines as [|l lines IH]; intros y; cbn [draw_lines]; [cbn; lia|].
  specialize (IH (y + (FONT_SIZE + 2))).
  destruct (draw_lines f (y + (FONT_SIZE + 2)) lines) as [drawn y_end].
  cbn [snd List.length] in *. lia.
Qed.

(** When [build_sheet] returns a sheet, and which. *)
Lemma build_sheet_some w p first rest info iw ih th shown :
  image_open w (fst first) = Some (iw, ih) ->
  thumb_height_of iw ih = Ok th ->
  image_new w SHEET_WIDTH (canvas_height th) = Ok tt ->
  format_timestamp (duration info) = Ok shown ->
  exists header,
    build_sheet w p (first :: rest) info
    = Some {| sheet_width := SHEET_WIDTH;
              sheet_height := canvas_height th;
              ops := header ++ place_from w (load_font w TIME_FONT_SIZE) th
                                 header_bottom 0 (first :: rest) |}
    /\ forall op, In op header -> exists x y t f, op = DrawText x y t f.
Proof.
  intros Ho Hh Hn Hd. unfold build_sheet, build_sheet_body.
  rewrite Ho, Hh. cbn [bind]. fold (canvas_height th). rewrite Hn. cbn [bind].
  rewrite Hd. cbn [bind].
  match goal with |- context [draw_lines ?f ?y ?l] =>
    pose proof (draw_lines_end f l y) as He;
    pose proof (draw_lines_text f l y) as Ht;
    destruct (draw_lines f y l) as [header y_end]
  end.
  cbn [fst snd List.length] in He, Ht. exists header. split.
  - subst y_end. reflexivity.
  - intros op H. destruct (Ht op H) as (x & y & t & ->). eauto.
Qed.

(** A sheet is returned only when the first thumbnail opens, the height of
    a cell can be computed, the canvas can be made and the duration can be
    formatted. *)
Lemma build_sheet_inv w p first rest info s :
  build_sheet w p (first :: rest) info = Some s ->
  exists iw ih th shown,
    image_open w (fst first) = Some (iw, ih)
    /\ thumb_height_of iw ih = Ok th
    /\ image_new w SHEET_WIDTH (canvas_height th) = Ok tt
    /\ format_timestamp (duration info) = Ok shown.
Proof.
  unfold build_sheet, build_sheet_body.
  destruct (image_open w (fst first)) as [[iw ih]|]; [|discriminate].
  destruct (thumb_height_of iw ih) as [th|] eqn:Eth; cbn [bind]; [|discriminate].
  fold (canvas_height th).
  destruct (image_new w SHEET_WIDTH (canvas_height th)) as [[]|] eqn:En;
    cbn [bind]; [|discriminate].
  destruct (format_timestamp (duration info)) as [shown|]; cbn [bind];
    [|discriminate].
  intros _. exists iw, ih, th, shown. repeat split; assumption.
Qed.

Lemma build_sheet_pastes w p first rest info iw ih th shown :
  image_open w (fst first) = Some (iw, ih) ->
  thumb_height_of iw ih = Ok th ->
  image_new w SHEET_WIDTH (canvas_height th) = Ok tt ->
  format_timestamp (duration info) = Ok shown ->
  exists s,
    build_sheet w p (first :: rest) info = Some s
    /\ sheet_width s = SHEET_WIDTH
    /\ sheet_height s = canvas_height th
    /\ forall src x y cw ch,
         In (PasteImage src x y cw ch) (ops s) <->
         exists i ts, nth_error (first :: rest) i = Some (src, ts)
                      /\ x = cell_x (Z.of_nat i) /\ y = cell_y th (Z.of_nat i)
                      /\ cw = thumb_width /\ ch = th
                      /\ image_open w src <> None /\ 0 < th
                      /\ image_resize w src thumb_width th = true.
Proof.
  intros Ho Hh Hn Hd.
  destruct (build_sheet_some w p first rest info iw ih th shown Ho Hh Hn Hd)
    as (header & E & Hheader).
  eexists. split; [exact E|]. cbn [sheet_width sheet_height ops].
  split; [reflexivity|]. split; [reflexivity|].
  intros src x y cw ch. rewrite in_app_iff, place_from_In. split.
  - intros [H|(k & [tp ts] & Hk & H)].
    + destruct (Hheader _ H) as (? & ? & ? & ? & ?). discriminate.
    + apply place_thumbnail_paste in H
        as (-> & -> & -> & -> & -> & Hopen & Hth & Hr).
      exists k, ts. rewrite Z.add_0_l. repeat split; auto.
  - intros (i & ts & Hi & -> & -> & -> & -> & Hopen & Hth & Hr). right.
    exists i, (src, ts). split; [exact Hi|].
    apply place_thumbnail_paste. rewrite Z.add_0_l. repeat split; auto.
Qed.

(** The canvas of a sheet whose cells are not too high can be made when
    there is memory for it. *)
Lemma image_new_sheet w th :
  0 <= th -> canvas_height th < 2 ^ 31 ->
  image_new w SHEET_WIDTH (canvas_height th)
  = if canvas_ok w SHEET_WIDTH (canvas_height th) then Ok tt
    else Raise MemoryError.
Proof.
  intros H0 H1. unfold image_new.
  assert (C : 0 <= canvas_height th).
  { unfold canvas_height, GRID_ROWS, MARGIN, info_header_height, FONT_SIZE. lia. }
  destruct (Z.ltb_spec (canvas_height th) 0); [lia|].
  destruct (Z.leb_spec (2 ^ 31) (canvas_height th)); [lia|].
  reflexivity.
Qed.

(** Whether a sheet is returned depends on the first thumbnail only. *)
Lemma build_sheet_first w p first rest rest' info :
  build_sheet w p (first :: rest) info = None <->
  build_sheet w p (first :: rest') info = None.
Proof.
  assert (A : forall r r', build_sheet w p (first :: r) info = None ->
                           build_sheet w p (first :: r') info = None).
  { intros r r' H.
    destruct (build_sheet w p (first :: r') info) as [s|] eqn:E; [|reflexivity].
    destruct (build_sheet_inv _ _ _ _ _ _ E)
      as (iw & ih & th & shown & Ho & Eth & Hn & Hd).
    destruct (build_sheet_some w p first r info iw ih th shown Ho Eth Hn Hd)
      as (header & E' & _). congruence. }
  split; apply A.
Qed.

(** The cells of a first thumbnail are not of a negative height. *)
Lemma thumb_height_nonneg iw ih th :
  0 < iw -> 0 < ih -> thumb_width * ih - iw <= th * iw -> 0 <= th.
Proof.
  intros Hw Hh H. change thumb_width with 378 in H. nia.
Qed.

Lemma image_new_ok_iff w th :
  0 <= th ->
  image_new w SHEET_WIDTH (canvas_height th) = Ok tt <->
  canvas_height th < 2 ^ 31
  /\ canvas_ok w SHEET_WIDTH (canvas_height th) = true.
Proof.
  intros H0. destruct (Z_lt_le_dec (canvas_height th) (2 ^ 31)) as [L|L].
  - rewrite image_new_sheet by assumption.
    destruct (canvas_ok w SHEET_WIDTH (canvas_height th)); split;
      try tauto; try discriminate. intros [_ ?]; discriminate.
  - unfold image_new.
    assert (C : 0 <= canvas_height th).
    { unfold canvas_height, GRID_ROWS, MARGIN, info_header_height, FONT_SIZE. lia. }
    destruct (Z.ltb_spec (canvas_height th) 0); [lia|].
    destruct (Z.leb_spec (2 ^ 31) (canvas_height th)); [|lia].
    cbn. split; [discriminate|lia].
Qed.

Lemma cell_injective th i k :
  0 < th -> 0 <= i -> 0 <= k ->
  cell_x i = cell_x k -> cell_y th i = cell_y th k -> i = k.
Proof.
  unfold cell_x, cell_y, thumb_width, header_bottom, GRID_COLUMNS, MARGIN, SHEET_WIDTH, FONT_SIZE.
  intros Hth Hi Hk Hx Hy.
  change ((1920 - (5 + 1) * 5) / 5) with 378 in Hx.
  assert (i mod 5 = k mod 5) by lia.
  assert (i / 5 = k / 5) by nia.
  rewrite (Z.div_mod i 5), (Z.div_mod k 5) by lia. lia.
Qed.

(** ** The batch *)

Lemma count_results_spec results : forall s f,
  count_results results s f
  = (s + count_of succeeded results, f + count_of (fun r => negb (succeeded r)) results).
Proof.
  unfold count_of. induction results as [|[[|]|e] results IH]; intros s f; cbn [count_results].
  - cbn. f_equal; lia.
  - rewrite IH. cbn [filter succeeded negb List.length]. f_equal; lia.
  - rewrite IH. cbn [filter succeeded negb List.length]. f_equal; lia.
  - rewrite IH. cbn [filter succeeded negb List.length]. f_equal; lia.
Qed.

Lemma count_partition results :
  count_of succeeded results + count_of (fun r => negb (succeeded r)) results
  = Z.of_nat (List.length results).
Proof.
  unfold count_of. induction results as [|r results IH]; [reflexivity|].
  cbn [filter List.length]. destruct (succeeded r); cbn [negb List.length]; lia.
Qed.

Lemma run_tasks_length w n tasks : forall st,
  List.length (fst (fst (run_tasks w st n tasks))) = List.length tasks.
Proof.
  induction tasks as [|[v i] tasks IH]; intros st; [reflexivity|].
  cbn [run_tasks]. destruct (process_video w st v n i) as [[r l] st1].
  specialize (IH st1). destruct (run_tasks w st1 n tasks) as [[rs ls] st2].
  cbn in *. now rewrite IH.
Qed.

Lemma enumerate_from_length files : forall i,
  List.length (enumerate_from i files) = List.length files.
Proof. induction files as [|v files IH]; intros i; cbn; [reflexivity|now rewrite IH]. Qed.

(** The results of the tasks are what [process_video] returns for them, one
    after the other. *)
Lemma run_tasks_outcomes w n tasks : forall st,
  exists outcomes,
    batch_outcomes w n st tasks outcomes (snd (run_tasks w st n tasks))
    /\ fst (fst (run_tasks w st n tasks)) = map Returned outcomes.
Proof.
  induction tasks as [|[v i] tasks IH]; intros st.
  - exists []. split; [constructor|reflexivity].
  - cbn [run_tasks].
    destruct (process_video w st v n i) as [[r l] st1] eqn:E.
    destruct (IH st1) as (outcomes & H & Hr).
    destruct (run_tasks w st1 n tasks) as [[rs ls] st2].
    cbn [fst snd] in *. exists (r :: outcomes). split.
    + exact (batch_step w n st v i tasks r l st1 outcomes st2 E H).
    + cbn [map]. now rewrite Hr.
Qed.

Lemma count_of_outcomes outcomes :
  count_of succeeded (map Returned outcomes)
  = Z.of_nat (List.length (filter (fun b : bool => b) outcomes))
  /\ count_of (fun r => negb (succeeded r)) (map Returned outcomes)
     = Z.of_nat (List.length (filter negb outcomes)).
Proof.
  unfold count_of. induction outcomes as [|[|] outcomes [IH1 IH2]];
    cbn [map filter succeeded negb List.length]; split; lia.
Qed.

(** * The claims *)

(** C1, as amended.  For every finite binary64 duration [d] of at least
    [2^-960] and every [count] from 1 to [2^50], [generate_timestamps d count]
    returns exactly [count] values; the value of index [i] is [gap * (i + 1)]
    for [gap = d / (count + 2)], every operation rounded to binary64; the
    values are strictly increasing and lie strictly between 0 and [d].  For
    every duration that is zero or negative it returns [count] copies of 0. *)
Theorem generate_timestamps_samples (d : float) (count : Z) :
  PrimFloat.leb 0x1p-960%float d = true ->
  PrimFloat.ltb d infinity = true ->
  0 < count <= 2 ^ 50 ->
  (forall duration total,
      le_zero duration = true ->
      generate_timestamps duration total = Ok (repeat (PyInt 0) (Z.to_nat total)))
  /\ exists gap,
       truediv (PyFloat d) (PyInt (count + 2)) = Ok (PyFloat gap)
       /\ generate_timestamps (PyFloat d) count
          = Ok (map (sample gap) (range count))
       /\ Z.of_nat (List.length (map (sample gap) (range count))) = count
       /\ (forall i, 0 <= i < count ->
           nth_error (map (sample gap) (range count)) (Z.to_nat i)
           = Some (sample gap i))
       /\ (forall i, 0 <= i < count ->
           gt_zero (sample gap i) = true
           /\ lt (sample gap i) (PyFloat d) = true)
       /\ (forall i, 0 <= i -> i + 1 < count ->
           lt (sample gap i) (sample gap (i + 1)) = true).
Proof.
  intros Hlo Hhi Hc. split.
  { intros duration total H. unfold generate_timestamps. now rewrite H. }
  destruct (normal_pos_of_bounds d Hlo Hhi) as (vd & Nd & Rlo).
  pose proof (normal_pos_range _ _ Nd) as [_ Rhi].
  pose proof (float_of_Z_normal (count + 2) ltac:(lia)) as Nc.
  destruct (normal_pos_tests _ _ Nc) as (Ci & Cz & _).
  destruct (normal_pos_tests _ _ Nd) as (_ & _ & Dle & _).
  assert (C3 : (3 <= IZR (count + 2))%R) by (apply IZR_le; lia).
  assert (C51 : (IZR (count + 2) <= pow2 51)%R).
  { rewrite pow2_IZR by lia. apply IZR_le. lia. }
  destruct (div_normal d (float_of_Z (count + 2)) vd (IZR (count + 2)) Nd Nc)
    as (vg & Ng & Eg).
  { pose proof (pow2_pos (-1022)) as Pm.
    pose proof (pow2_le (-1022 + 51) (-960) ltac:(lia)) as L1.
    rewrite pow2_add in L1.
    assert (Pd : (0 < vd)%R) by (pose proof (pow2_pos (-960)); lra).
    split.
    - apply Rmult_le_reg_r with (IZR (count + 2)); [lra|].
      replace (vd / IZR (count + 2) * IZR (count + 2))%R with vd by (field; lra).
      apply Rle_trans with (pow2 (-1022) * pow2 51)%R; [|lra].
      apply Rmult_le_compat_l; lra.
    - apply Rle_trans with vd; [|exact Rhi].
      apply Rmult_le_reg_r with (IZR (count + 2)); [lra|].
      replace (vd / IZR (count + 2) * IZR (count + 2))%R with vd by (field; lra).
      rewrite <- (Rmult_1_r vd) at 1. apply Rmult_le_compat_l; lra. }
  set (gap := (d / float_of_Z (count + 2))%float) in *.
  assert (Et : truediv (PyFloat d) (PyInt (count + 2)) = Ok (PyFloat gap)).
  { unfold truediv, to_float, float_of_int, float_truediv.
    rewrite Ci. cbn [bind]. rewrite Cz. reflexivity. }
  exists gap. split; [exact Et|].
  assert (Es : forall i, 0 <= i < count ->
            mul (PyFloat gap) (PyInt (i + 1)) = Ok (sample gap i)).
  { intros i Hi. unfold mul, to_float, float_of_int.
    pose proof (float_of_Z_normal (i + 1) ltac:(lia)) as Ni.
    destruct (normal_pos_tests _ _ Ni) as (-> & _). reflexivity. }
  split; [|split; [|split; [|split]]].
  - unfold generate_timestamps. cbn [le_zero]. rewrite Dle, Et. cbn [bind].
    apply mapM_map. intros i Hi. apply Es. now apply in_range.
  - rewrite length_map. unfold range. rewrite length_map, length_seq. lia.
  - intros i Hi. rewrite nth_error_map. unfold range. rewrite nth_error_map.
    rewrite nth_error_seq.
    destruct (Nat.ltb_spec (Z.to_nat i) (Z.to_nat count)); [|lia].
    cbn. now rewrite Z2Nat.id by lia.
  - intros i Hi. unfold sample, gt_zero, lt, to_float. split.
    + apply (sample_positive d gap count vd vg); auto; lia.
    + apply (sample_below_duration d gap count vd vg); auto; lia.
  - intros i Hi1 Hi2. unfold sample, lt, to_float.
    apply (sample_increasing d gap count vd vg); auto; lia.
Qed.

(** The theorem at a duration of 100 seconds and three samples. *)
Lemma generate_timestamps_samples_witness :
  generate_timestamps (PyFloat 100) 3 = Ok [PyFloat 20; PyFloat 40; PyFloat 60].
Proof.
  destruct (generate_timestamps_samples 100%float 3 eq_refl eq_refl ltac:(lia))
    as (_ & gap & Eg & E & _).
  rewrite E. vm_compute in Eg. inversion Eg; subst gap. vm_compute. reflexivity.
Defined.

(** C1 as stated fails on the smallest positive duration: the gap
    [5e-324 / 3] rounds to zero, and so does the only sample. *)
Lemma tiny_duration_counterexample :
  ~ (forall (duration : float) (count : Z),
        PrimFloat.ltb zero duration = true -> 0 < count ->
        exists samples,
          generate_timestamps (PyFloat duration) count = Ok samples
          /\ Z.of_nat (List.length samples) = count
          /\ forall x, In x samples ->
                       gt_zero x = true /\ lt x (PyFloat duration) = true).
Proof.
  intros claim.
  destruct (claim 0x1p-1074%float 1 eq_refl ltac:(lia)) as (samples & E & _ & H).
  vm_compute in E. inversion E; subst samples.
  destruct (H (PyFloat 0) (or_introl eq_refl)) as [P _].
  vm_compute in P. discriminate.
Qed.

(** C2, as amended.  When the four queries exit with 0, the size of the file
    is available and the duration text is empty or a float, [get_video_info]
    returns the metadata, in which a query without output only degrades its
    own field: the duration to 0, the resolution and the codec to
    [Unknown].  It returns [None] exactly when a query cannot be started or
    exits with another code, when the duration text is not empty and no
    float, or when the size of the file cannot be had. *)
Theorem get_video_info_degrades (w : World) (p : string) :
  (forall od ow oh oc bytes d,
      ffprobe w FormatDuration p = Exited 0 od ->
      ffprobe w StreamWidth p = Exited 0 ow ->
      ffprobe w StreamHeight p = Exited 0 oh ->
      ffprobe w StreamCodecName p = Exited 0 oc ->
      getsize w p = Ok bytes -> 0 <= bytes < 2 ^ 63 ->
      duration_of od = Ok d ->
      (exists size_mb,
          int_truediv bytes (1024 * 1024) = Ok size_mb
          /\ get_video_info w p
             = Some {| duration := d; resolution := resolution_of ow oh;
                       size := (fmt_2f size_mb ++ " MB")%string;
                       codec := codec_of oc |})
      /\ (strip od = "" -> d = PyInt 0)
      /\ (strip ow = "" \/ strip oh = "" -> resolution_of ow oh = "Unknown")
      /\ (strip oc = "" -> codec_of oc = "Unknown"))
  /\ (get_video_info w p = None <->
      (exists e x, query w e p = Raise x)
      \/ (exists od x, query w FormatDuration p = Ok od /\ duration_of od = Raise x)
      \/ (exists x, getsize w p = Raise x)
      \/ (exists bytes x, getsize w p = Ok bytes
                          /\ int_truediv bytes (1024 * 1024) = Raise x)).
Proof.
  split.
  - intros od ow oh oc bytes d H1 H2 H3 H4 Hs Hb Hd.
    destruct (size_mb_total bytes Hb) as [size_mb Hm].
    unfold get_video_info.
    rewrite (get_video_info_body_queries w p od ow oh oc)
      by (apply check_run_ok; assumption).
    rewrite Hd, Hs. cbn [bind]. rewrite Hm. cbn [bind].
    split; [exists size_mb; split; reflexivity|]. split; [|split].
    + intros E. unfold duration_of in Hd. rewrite E in Hd. cbn in Hd. congruence.
    + unfold resolution_of. intros [-> | ->]; [reflexivity|].
      now rewrite andb_false_r.
    + unfold codec_of. now intros ->.
  - unfold get_video_info. split.
    + destruct (query w FormatDuration p) as [od|x] eqn:Q1;
        [|intros _; left; eauto].
      destruct (query w StreamWidth p) as [ow|x] eqn:Q2;
        [|intros _; left; eauto].
      destruct (query w StreamHeight p) as [oh|x] eqn:Q3;
        [|intros _; left; eauto].
      destruct (query w StreamCodecName p) as [oc|x] eqn:Q4;
        [|intros _; left; eauto].
      rewrite (get_video_info_body_queries w p od ow oh oc) by assumption.
      destruct (duration_of od) as [d|x] eqn:D; cbn [bind];
        [|intros _; right; left; eauto].
      destruct (getsize w p) as [bytes|x] eqn:S; cbn [bind];
        [|intros _; right; right; left; eauto].
      destruct (int_truediv bytes (1024 * 1024)) as [mb|x] eqn:M; cbn [bind];
        [discriminate|intros _; right; right; right; eauto].
    + unfold query, duration_of, get_video_info_body.
      intros [(e & x & H)|[(od & x & H1 & H2)|[(x & H)|(bytes & x & H1 & H2)]]].
      * destruct e; repeat (step_bind; try congruence); congruence.
      * rewrite H1. cbn [bind]. rewrite H2. reflexivity.
      * repeat (step_bind; try congruence); congruence.
      * repeat (step_bind; try congruence); congruence.
Qed.

(** The theorem in the sample world. *)
Lemma get_video_info_degrades_witness :
  exists size_mb,
    int_truediv 12345678 (1024 * 1024) = Ok size_mb
    /\ get_video_info sample_world "/v/a.mp4"
       = Some {| duration := PyFloat 120.5; resolution := "1920x1080";
                 size := (fmt_2f size_mb ++ " MB")%string; codec := "h264" |}.
Proof.
  refine (proj1 (proj1 (get_video_info_degrades sample_world "/v/a.mp4")
            "120.5" "1920" "1080" "h264" 12345678 (PyFloat 120.5)
            eq_refl eq_refl eq_refl eq_refl eq_refl _ _)).
  - lia.
  - vm_compute. reflexivity.
Defined.

(** C2 as stated fails when ffprobe runs, exits with 0 and prints [N/A] for
    the duration: the probe fails although no tool failed to execute. *)
Lemma probe_failure_counterexample :
  ~ (forall (w : World) (p : string),
        get_video_info w p = None ->
        exists e, ffprobe w e p = NotStarted
                  \/ exists rc out, ffprobe w e p = Exited rc out /\ rc <> 0).
Proof.
  intros claim.
  destruct (claim unknown_duration_world "/v/a.mp4") as (e & [H | (rc & out & H & Hrc)]).
  - vm_compute. reflexivity.
  - destruct e; discriminate.
  - destruct e; inversion H; subst; apply Hrc; reflexivity.
Qed.

(** C3.  The sheet of a video goes to the path without its extension,
    followed by [_sheet.jpg], in the directory of the video.  When that path
    exists, [process_video] returns [True] at once: it prints the skip line
    and calls neither the probe, nor the extractor, nor the composer, nor
    [save].  A second run on the same video returns what the first returned
    and leaves the files as they are; after a first run that returned
    [True] it is a skip. *)
Theorem process_video_skip_idempotent (w : World) (st : state) (p : string)
    (t i t' i' : Z) :
  (fst (splitext p) ++ snd (splitext p))%string = p
  /\ occurs "/" (snd (splitext p)) = false
  /\ sheet_path p = (fst (splitext p) ++ "_sheet.jpg")%string
  /\ dirname (sheet_path p) = dirname p
  /\ (path_exists st (sheet_path p) = true ->
      process_video w st p t i = (true, [skip_line p t i], st))
  /\ (forall r l st1, process_video w st p t i = (r, l, st1) ->
      exists l2, process_video w st1 p t' i' = (r, l2, st1)
                 /\ (r = true -> l2 = [skip_line p t' i'])).
Proof.
  split; [apply splitext_parts|]. split; [apply splitext_parts|].
  split; [reflexivity|]. split; [apply sheet_path_dirname|].
  split; [apply process_video_skip|].
  intros [|] l st1 H.
  - apply process_video_true in H. eexists.
    split; [now apply process_video_skip|auto].
  - pose proof (process_video_false _ _ _ _ _ _ _ H) as ->.
    destruct (process_video_same_outcome w st p t i t' i') as [E1 E2].
    rewrite H in E1, E2. cbn in E1, E2.
    destruct (process_video w st p t' i') as [[r2 l2] st2]. cbn in E1, E2. subst.
    exists l2. split; [reflexivity|discriminate].
Qed.

(** The theorem for a video whose sheet exists. *)
Lemma process_video_skip_idempotent_witness :
  process_video sample_world ["/v/a_sheet.jpg"] "/v/a.mp4" 3 1
  = (true, [Print "[1/3] Sheet already exists for a.mp4, skipping..."],
     ["/v/a_sheet.jpg"]).
Proof.
  exact (proj1 (proj2 (proj2 (proj2 (proj2
           (process_video_skip_idempotent sample_world ["/v/a_sheet.jpg"]
              "/v/a.mp4" 3 1 3 1))))) eq_refl).
Defined.

(** C4, as amended.  [build_sheet] has no check of the capacity of the grid:
    in every sheet it returns, every thumbnail that opens and that can be
    resized to a cell, of a height above 0, is pasted at the row-major cell
    of its index, whatever the index.  A thumbnail of index below
    [rows * columns] lies inside the sheet.  One of index [rows * columns]
    or more is pasted below the grid: in the row after the last, two pixels
    above the bottom edge of the sheet, and from index
    [(rows + 1) * columns] on below that edge.  Nothing is pasted at the
    cells from the number of thumbnails on.  Whether a sheet is returned
    does not depend on the thumbnails after the first: it is returned when
    the first thumbnail opens, the height of a cell can be computed, the
    canvas of the sheet can be made and the duration is finite. *)
Theorem build_sheet_no_capacity_check (w : World) (video_path : string)
    (first : string * num) (rest : list (string * num)) (info : video_info) :
  (forall s, build_sheet w video_path (first :: rest) info = Some s ->
     exists iw ih th,
       image_open w (fst first) = Some (iw, ih)
       /\ thumb_height_of iw ih = Ok th
       /\ (forall i src ts,
             nth_error (first :: rest) i = Some (src, ts) ->
             image_open w src <> None -> 0 < th ->
             image_resize w src thumb_width th = true ->
             In (PasteImage src (cell_x (Z.of_nat i)) (cell_y th (Z.of_nat i))
                   thumb_width th) (ops s)
             /\ (Z.of_nat i < GRID_ROWS * GRID_COLUMNS ->
                 0 <= cell_x (Z.of_nat i)
                 /\ cell_x (Z.of_nat i) + thumb_width <= sheet_width s
                 /\ header_bottom <= cell_y th (Z.of_nat i)
                 /\ cell_y th (Z.of_nat i) + th <= sheet_height s)
             /\ (GRID_ROWS * GRID_COLUMNS <= Z.of_nat i ->
                 header_bottom + GRID_ROWS * (th + MARGIN)
                 <= cell_y th (Z.of_nat i))
             /\ (GRID_ROWS * GRID_COLUMNS <= Z.of_nat i
                   < (GRID_ROWS + 1) * GRID_COLUMNS ->
                 cell_y th (Z.of_nat i) = sheet_height s - 2)
             /\ ((GRID_ROWS + 1) * GRID_COLUMNS <= Z.of_nat i ->
                 sheet_height s <= cell_y th (Z.of_nat i)))
       /\ (forall src x y cw ch,
             In (PasteImage src x y cw ch) (ops s) ->
             exists i ts,
               nth_error (first :: rest) i = Some (src, ts)
               /\ x = cell_x (Z.of_nat i) /\ y = cell_y th (Z.of_nat i))
       /\ (forall k src x y cw ch,
             Z.of_nat (List.length (first :: rest)) <= k ->
             In (PasteImage src x y cw ch) (ops s) ->
             ~ (x = cell_x k /\ y = cell_y th k)))
  /\ (forall rest',
        build_sheet w video_path (first :: rest) info = None <->
        build_sheet w video_path (first :: rest') info = None)
  /\ (forall iw ih th,
        image_open w (fst first) = Some (iw, ih) ->
        thumb_height_of iw ih = Ok th ->
        image_new w SHEET_WIDTH (canvas_height th) = Ok tt ->
        finite_num (duration info) = true ->
        exists s, build_sheet w video_path (first :: rest) info = Some s).
Proof.
  split; [|split].
  - intros s E.
    destruct (build_sheet_inv _ _ _ _ _ _ E)
      as (iw & ih & th & shown & Ho & Eth & Hn & Hd).
    destruct (build_sheet_pastes w video_path first rest info iw ih th shown
                Ho Eth Hn Hd) as (s' & E' & Hsw & Hs & Hp).
    assert (s' = s) by congruence. subst s'.
    exists iw, ih, th. split; [exact Ho|]. split; [exact Eth|].
    split; [|split].
    + intros i src ts Hi Hopen Hth Hr. split.
      { apply Hp. exists i, ts. repeat split; auto. }
      rewrite Hsw, Hs.
      unfold cell_x, cell_y, canvas_height, header_bottom, info_header_height,
        thumb_width, GRID_ROWS, GRID_COLUMNS, MARGIN, SHEET_WIDTH, FONT_SIZE.
      change ((1920 - (5 + 1) * 5) / 5) with 378.
      pose proof (Z.mod_pos_bound (Z.of_nat i) 5 ltac:(lia)).
      pose proof (Z.div_mod (Z.of_nat i) 5 ltac:(lia)).
      split; [|split; [|split]]; intros Hi'.
      * assert (0 <= Z.of_nat i / 5 <= 4) by lia. nia.
      * assert (5 <= Z.of_nat i / 5) by lia. nia.
      * assert (Z.of_nat i / 5 = 5) by lia. nia.
      * assert (6 <= Z.of_nat i / 5) by lia. nia.
    + intros src x y cw ch H.
      apply Hp in H as (i & ts & Hi & -> & -> & _). eauto.
    + intros k src x y cw ch Hk H [Hx Hy].
      apply Hp in H as (i & ts & Hi & -> & -> & -> & -> & _ & Hth & _).
      assert (Hlt : (i < List.length (first :: rest))%nat)
        by (apply nth_error_Some; congruence).
      assert (Z.of_nat i = k) by (apply (cell_injective th); auto; lia).
      lia.
  - intros rest'. apply build_sheet_first.
  - intros iw ih th Ho Eth Hn Hf.
    destruct (format_timestamp_total _ Hf) as (shown & Hd).
    destruct (build_sheet_pastes w video_path first rest info iw ih th shown
                Ho Eth Hn Hd) as (s & E & _). eauto.
Qed.

(** The theorem for three thumbnails in the sample world: the composition
    succeeds and the second thumbnail is in the second cell. *)
Lemma build_sheet_no_capacity_check_witness :
  exists s,
    build_sheet sample_world "/v/a.mp4" (thumbs_named 3) sample_info = Some s
    /\ In (PasteImage "thumb_01.jpg" 388 133 378 212) (ops s).
Proof.
  pose proof (build_sheet_no_capacity_check sample_world "/v/a.mp4"
                ("thumb_00.jpg", PyInt 0) (tl (thumbs_named 3)) sample_info)
    as (Hall & _ & Hsome).
  destruct (Hsome 1920 1080 212 eq_refl eq_refl eq_refl eq_refl) as [s E].
  exists s. split; [exact E|].
  destruct (Hall s E) as (iw & ih & th & Ho & Eth & Hp & _).
  inversion Ho; subst iw ih. vm_compute in Eth. inversion Eth; subst th.
  exact (proj1 (Hp 1%nat "thumb_01.jpg" (PyInt 0) eq_refl
                  ltac:(discriminate) ltac:(lia) eq_refl)).
Defined.

(** C4 as stated fails with 26 thumbnails: the last one is pasted at
    [(5, 1218)] on a sheet of height 1220. *)
Lemma excess_thumbnail_counterexample :
  ~ (forall (w : World) (p : string) (thumbs : list (string * num))
            (info : video_info) (s : sheet),
        build_sheet w p thumbs info = Some s ->
        forall i src ts, GRID_ROWS * GRID_COLUMNS <= Z.of_nat i ->
        nth_error thumbs i = Some (src, ts) ->
        forall x y cw ch,
          In (PasteImage src x y cw ch) (ops s) ->
          sheet_height s <= y).
Proof.
  intros claim.
  destruct (build_sheet_pastes sample_world "/v/a.mp4" ("thumb_00.jpg", PyInt 0)
              (tl (thumbs_named 26)) sample_info 1920 1080 212 "00:02:00"
              eq_refl eq_refl eq_refl eq_refl) as (s & E & _ & Hs & Hp).
  assert (H : In (PasteImage "thumb_25.jpg" 5 1218 378 212) (ops s)).
  { apply Hp. exists 25%nat, (PyInt 0).
    repeat split; try reflexivity; try discriminate. }
  specialize (claim _ _ _ _ _ E 25%nat "thumb_25.jpg" (PyInt 0)
                ltac:(vm_compute; discriminate) eq_refl _ _ _ _ H).
  rewrite Hs in claim. vm_compute in claim. apply claim. reflexivity.
Qed.

(** C5, as amended.  The duration is the float read from the trimmed output
    of the duration query; an output that is empty once trimmed gives the
    duration 0; an output that is not empty and no float makes
    [get_video_info] return [None]. *)
Theorem get_video_info_duration_text (w : World) (p out ow oh oc : string)
    (bytes : Z) :
  ffprobe w FormatDuration p = Exited 0 out ->
  ffprobe w StreamWidth p = Exited 0 ow ->
  ffprobe w StreamHeight p = Exited 0 oh ->
  ffprobe w StreamCodecName p = Exited 0 oc ->
  getsize w p = Ok bytes -> 0 <= bytes < 2 ^ 63 ->
  (strip out = "" ->
   exists info, get_video_info w p = Some info /\ duration info = PyInt 0)
  /\ (forall f, strip out <> "" -> float_of_string (strip out) = Ok f ->
      exists info, get_video_info w p = Some info /\ duration info = PyFloat f)
  /\ (forall e, strip out <> "" -> float_of_string (strip out) = Raise e ->
      get_video_info w p = None).
Proof.
  intros H1 H2 H3 H4 Hs Hb. destruct (size_mb_total bytes Hb) as [size_mb Hd].
  unfold get_video_info.
  rewrite (get_video_info_body_queries w p out ow oh oc)
    by (apply check_run_ok; assumption).
  rewrite Hs. unfold duration_of. split; [|split].
  - intros ->. cbn [truthy bind]. rewrite Hd. eexists. split; reflexivity.
  - intros f Hne ->. destruct (strip out); [congruence|].
    cbn [truthy bind]. rewrite Hd. eexists. split; reflexivity.
  - intros e Hne ->. destruct (strip out); [congruence|]. reflexivity.
Qed.

(** The theorem in the world whose duration is unknown. *)
Lemma get_video_info_duration_text_witness :
  get_video_info unknown_duration_world "/v/a.mp4" = None.
Proof.
  refine (proj2 (proj2 (get_video_info_duration_text unknown_duration_world
           "/v/a.mp4" "N/A" "1920" "1080" "h264" 12345678
           eq_refl eq_refl eq_refl eq_refl eq_refl _))
           ValueError _ eq_refl).
  - lia.
  - discriminate.
Defined.

(** C5 as stated fails on the duration text [N/A]: it is no float, and the
    probe fails instead of giving the duration 0. *)
Lemma unparseable_duration_counterexample :
  ~ (forall (w : World) (p out : string),
        ffprobe w FormatDuration p = Exited 0 out ->
        (forall e, exists o, ffprobe w e p = Exited 0 o) ->
        (exists bytes, getsize w p = Ok bytes /\ 0 <= bytes < 2 ^ 63) ->
        strip out = "" \/ (exists e, float_of_string (strip out) = Raise e) ->
        exists info, get_video_info w p = Some info /\ duration info = PyInt 0).
Proof.
  intros claim.
  destruct (claim unknown_duration_world "/v/a.mp4" "N/A" eq_refl) as (info & H & _).
  - intros []; eexists; reflexivity.
  - exists 12345678. split; [reflexivity|lia].
  - right. exists ValueError. reflexivity.
  - vm_compute in H. discriminate.
Qed.

(** C6.  Every sheet [build_sheet] returns for thumbnails that are not
    empty is laid out as follows.  The cells are [thumb_width] wide, which is
    [(W - (columns + 1) * m) / columns] without remainder.  Their height
    [th] is [int(thumb_width * (height / width))] for the width and height
    of the first thumbnail.  The sheet is [W] wide and
    [header + rows * (th + m) + m] high.  The thumbnails pasted are those
    that open and can be resized to a cell, which needs [th] above 0; each
    is pasted with the size of a cell, the one of index [i] at
    [x = m + (i mod columns) * (thumb_width + m)],
    [y = header_bottom + (i / columns) * (th + m)].  For a first thumbnail
    that opens, of a width and a height below [2^31], and a finite
    duration, [th] is [thumb_width * height / width] rounded down, or one
    less when the rounding of the ratio interferes, and a sheet is returned
    exactly when its canvas can be made: its height is below [2^31] and
    there is memory for it. *)
Theorem build_sheet_layout (w : World) (video_path : string)
    (first : string * num) (rest : list (string * num)) (info : video_info) :
  thumb_width * GRID_COLUMNS = SHEET_WIDTH - (GRID_COLUMNS + 1) * MARGIN
  /\ (forall s, build_sheet w video_path (first :: rest) info = Some s ->
      exists iw ih th,
        image_open w (fst first) = Some (iw, ih)
        /\ thumb_height_of iw ih = Ok th
        /\ sheet_width s = SHEET_WIDTH
        /\ sheet_height s
           = info_header_height + GRID_ROWS * (th + MARGIN) + MARGIN
        /\ (forall src x y cw ch,
              In (PasteImage src x y cw ch) (ops s) <->
              exists i ts,
                nth_error (first :: rest) i = Some (src, ts)
                /\ x = MARGIN
                       + (Z.of_nat i mod GRID_COLUMNS) * (thumb_width + MARGIN)
                /\ y = header_bottom
                       + (Z.of_nat i / GRID_COLUMNS) * (th + MARGIN)
                /\ cw = thumb_width /\ ch = th
                /\ image_open w src <> None /\ 0 < th
                /\ image_resize w src thumb_width th = true))
  /\ (forall iw ih,
        image_open w (fst first) = Some (iw, ih) ->
        0 < iw < 2 ^ 31 -> 0 < ih < 2 ^ 31 ->
        finite_num (duration info) = true ->
        exists th,
          thumb_height_of iw ih = Ok th
          /\ thumb_width * ih - iw <= th * iw <= thumb_width * ih
          /\ ((exists s, build_sheet w video_path (first :: rest) info = Some s)
              <-> info_header_height + GRID_ROWS * (th + MARGIN) + MARGIN < 2 ^ 31
                  /\ canvas_ok w SHEET_WIDTH
                       (info_header_height + GRID_ROWS * (th + MARGIN) + MARGIN)
                     = true)).
Proof.
  split; [reflexivity|]. split.
  - intros s E.
    destruct (build_sheet_inv _ _ _ _ _ _ E)
      as (iw & ih & th & shown & Ho & Eth & Hn & Hd).
    destruct (build_sheet_pastes w video_path first rest info iw ih th shown
                Ho Eth Hn Hd) as (s' & E' & Hsw & Hs & Hp).
    assert (s' = s) by congruence. subst s'.
    exists iw, ih, th. split; [exact Ho|]. split; [exact Eth|].
    split; [exact Hsw|]. split; [rewrite Hs; unfold canvas_height; ring|].
    exact Hp.
  - intros iw ih Ho Hw Hh Hf.
    destruct (thumb_height_of_total iw ih Hw Hh) as (th & Eth & Bth).
    destruct (format_timestamp_total _ Hf) as (shown & Hd).
    exists th. split; [exact Eth|]. split; [exact Bth|].
    assert (H0 : 0 <= th) by (apply (thumb_height_nonneg iw ih); lia).
    replace (info_header_height + GRID_ROWS * (th + MARGIN) + MARGIN)
      with (canvas_height th) by (unfold canvas_height; ring).
    rewrite <- (image_new_ok_iff w th H0). split.
    + intros [s E].
      destruct (build_sheet_inv _ _ _ _ _ _ E)
        as (iw' & ih' & th' & shown' & Ho' & Eth' & Hn' & _).
      rewrite Ho in Ho'. injection Ho' as <- <-.
      rewrite Eth in Eth'. injection Eth' as <-. exact Hn'.
    + intros Hn.
      destruct (build_sheet_pastes w video_path first rest info iw ih th shown
                  Ho Eth Hn Hd) as (s & E & _). eauto.
Qed.

(** The theorem for three thumbnails of 1920x1080 in the sample world: the
    cells are 378x212 and the sheet is 1920x1220. *)
Lemma build_sheet_layout_witness :
  exists s,
    build_sheet sample_world "/v/a.mp4" (thumbs_named 3) sample_info = Some s
    /\ sheet_width s = 1920 /\ sheet_height s = 1220
    /\ In (PasteImage "thumb_02.jpg" 771 133 378 212) (ops s).
Proof.
  pose proof (build_sheet_layout sample_world "/v/a.mp4"
                ("thumb_00.jpg", PyInt 0) (tl (thumbs_named 3)) sample_info)
    as (_ & Hall & Hsome).
  destruct (Hsome 1920 1080 eq_refl ltac:(lia) ltac:(lia) eq_refl)
    as (th0 & Eth0 & _ & Hiff).
  vm_compute in Eth0. injection Eth0 as <-.
  destruct (proj2 Hiff) as [s E]; [split; [reflexivity|reflexivity]|].
  exists s. split; [exact E|].
  destruct (Hall s E) as (iw & ih & th & Ho & Eth & Hsw & Hs & Hp).
  inversion Ho; subst iw ih. vm_compute in Eth. inversion Eth; subst th.
  split; [exact Hsw|]. split; [exact Hs|].
  apply Hp. exists 2%nat, (PyInt 0).
  repeat split; try reflexivity; try discriminate.
Defined.

(** C7.  On an empty sequence of thumbnails [build_sheet] returns [None],
    whatever the world, the video and its metadata; a sheet is only ever
    returned for thumbnails that are not empty. *)
Theorem build_sheet_empty (w : World) (video_path : string) (info : video_info) :
  build_sheet w video_path [] info = None
  /\ forall thumbnails s,
       build_sheet w video_path thumbnails info = Some s -> thumbnails <> [].
Proof.
  split; [reflexivity|].
  intros thumbnails s H ->. discriminate H.
Qed.

(** C8.  In a batch, whatever the order in which the tasks complete, every
    video file found is given to [process_video] exactly once, and what
    [process_video] returns for it moves exactly one counter by one: [True],
    which it returns for a sheet skipped as for a sheet made, moves
    [successful]; [False] and an exception move [failed], and the loop goes
    on.  When the batch completes, [successful] is the number of videos for
    which [process_video] returned [True], [failed] the number of the
    others, and [successful + failed] is the number of video files found. *)
Theorem process_folder_counters (w : World) (st : state)
    (completion : list (string * Z) -> list (string * Z)) (folder_path : string) :
  let video_files := find_video_files w folder_path in
  Permutation (completion (enumerate_from 0 video_files))
              (enumerate_from 0 video_files) ->
  (forall results s f,
      count_results (Returned true :: results) s f = count_results results (s + 1) f
      /\ count_results (Returned false :: results) s f = count_results results s (f + 1)
      /\ forall e, count_results (Raised e :: results) s f = count_results results s (f + 1))
  /\ (forall st0 video_path t i,
        path_exists st0 (sheet_path video_path) = true ->
        succeeded (Returned (fst (fst (process_video w st0 video_path t i)))) = true)
  /\ match process_folder w st completion folder_path with
     | (None, st') => video_files = [] /\ st' = st
     | (Some r, st') =>
         total r = Z.of_nat (List.length video_files)
         /\ successful r + failed r = total r
         /\ exists outcomes,
              batch_outcomes w (total r) st
                (completion (enumerate_from 0 video_files)) outcomes st'
              /\ List.length outcomes = List.length video_files
              /\ successful r
                 = Z.of_nat (List.length (filter (fun b : bool => b) outcomes))
              /\ failed r = Z.of_nat (List.length (filter negb outcomes))
     end.
Proof.
  intros video_files Hperm. split; [intros; repeat split|].
  split; [intros st0 p t i H; now rewrite process_video_skip|].
  unfold process_folder. fold video_files.
  destruct video_files as [|v rest] eqn:E; [split; reflexivity|].
  set (tasks := completion _) in *.
  set (n := Z.of_nat (List.length (v :: rest))).
  pose proof (run_tasks_length w n tasks st) as Hlen.
  destruct (run_tasks_outcomes w n tasks st) as (outcomes & Hb & Hr).
  destruct (run_tasks w st n tasks) as [[results log] st'] eqn:R.
  rewrite count_results_spec. cbn [fst snd total successful failed] in *.
  split; [reflexivity|]. split.
  - rewrite !Z.add_0_l, count_partition, Hlen.
    rewrite (Permutation_length Hperm), enumerate_from_length. reflexivity.
  - exists outcomes. split; [exact Hb|].
    destruct (count_of_outcomes outcomes) as [C1 C2]. rewrite Hr.
    split; [|split; lia].
    rewrite Hr, length_map in Hlen. rewrite Hlen.
    rewrite (Permutation_length Hperm). apply enumerate_from_length.
Qed.

(** The theorem for the sample folder in a world without ffprobe, the
    tasks completing in reverse order: of three video files the one whose
    sheet exists counts as successful, the two others as failed. *)
Lemma process_folder_counters_witness :
  exists r st',
    process_folder no_probe_world ["/v/a_sheet.jpg"] (@rev _) "/v" = (Some r, st')
    /\ r = {| total := 3; successful := 1; failed := 2 |}
    /\ successful r + failed r = total r.
Proof.
  pose proof (process_folder_counters no_probe_world ["/v/a_sheet.jpg"]
                (@rev _) "/v" (Permutation_sym (Permutation_rev _)))
    as (_ & _ & H).
  destruct (process_folder no_probe_world ["/v/a_sheet.jpg"] (@rev _) "/v")
    as [[r|] st'] eqn:E.
  - exists r, st'. split; [reflexivity|]. split.
    + vm_compute in E. now injection E as <- _.
    + exact (proj1 (proj2 H)).
  - vm_compute in E. discriminate E.
Defined.



(** C10.  [find_video_files] returns a list whatever happens: the empty one
    when [os.listdir] raises.  Every path it returns is that of an entry of
    the folder which is a regular file and whose extension, in lower case,
    is one of [VIDEO_EXTENSIONS]; for an entry without separator, as
    [os.listdir] gives them, this is the extension of the path itself. *)
Theorem find_video_files_sound (w : World) (folder_path : string) :
  (forall e, listdir w folder_path = Raise e -> find_video_files w folder_path = [])
  /\ (forall p, In p (find_video_files w folder_path) ->
      exists files file,
        listdir w folder_path = Ok files /\ In file files
        /\ p = join folder_path file
        /\ isfile w p = true
        /\ In (lower (snd (splitext file))) VIDEO_EXTENSIONS
        /\ (occurs "/" file = false ->
            In (lower (snd (splitext p))) VIDEO_EXTENSIONS)).
Proof.
  unfold find_video_files. split.
  - intros e ->. reflexivity.
  - intros p. destruct (listdir w folder_path) as [files|e]; [|intros []].
    rewrite in_flat_map. intros (file & Hin & Hp).
    destruct (isfile w (join folder_path file)) eqn:Hfile; [|destruct Hp].
    destruct (mem_string _ VIDEO_EXTENSIONS) eqn:Hext; [|destruct Hp].
    destruct Hp as [<-|[]]. apply mem_string_In in Hext.
    exists files, file. repeat split; auto.
    intros Hs. now rewrite splitext_join.
Qed.

(** The theorem in the sample folder: [/v/b.MKV] is found, and it is the
    path of an entry whose extension is a video extension. *)
Lemma find_video_files_sound_witness :
  exists file,
    In file ["a.mp4"; "b.MKV"; "notes.txt"; "c.mp4"]
    /\ "/v/b.MKV" = join "/v" file
    /\ In (lower (snd (splitext file))) VIDEO_EXTENSIONS.
Proof.
  destruct (proj2 (find_video_files_sound sample_world "/v") "/v/b.MKV"
              (or_intror (or_introl eq_refl)))
    as (files & file & Hl & Hin & Hp & _ & Hext & _).
  exists file. inversion Hl; subst files. auto.
Defined.

(** * Further properties *)

(** ** Decimal fields *)

Lemma to_uint_nonnil n : N.to_uint n <> Decimal.Nil.
Proof.
  destruct n as [|p]; [discriminate|]. apply DecimalPos.Unsigned.to_uint_nonnil.
Qed.

(** Reading back what [str] wrote. *)
Lemma field_value_str_of_N n : field_value (str_of_N n) = Some (Z.of_N n).
Proof.
  unfold field_value, str_of_N.
  rewrite NilZero.usu by apply to_uint_nonnil. cbn.
  now rewrite DecimalN.Unsigned.of_to.
Qed.

Lemma field_value_fmt02 z : 0 <= z -> field_value (fmt02 z) = Some z.
Proof.
  intros Hz. destruct (Z_lt_le_dec z 100) as [L|L].
  - revert z Hz L. cut (forall z, 0 <= z < 100 -> field_value (fmt02 z) = Some z).
    { intros H z ? ?. apply H. lia. }
    apply below_100_cases. intros n Hn.
    repeat (destruct Hn as [<-|Hn]; [vm_compute; reflexivity|]). destruct Hn.
  - rewrite fmt02_str_of_Z by lia. unfold str_of_Z.
    destruct (Z.ltb_spec z 0); [lia|].
    rewrite field_value_str_of_N. f_equal. lia.
Qed.

Lemma field_value_minus s : field_value (String "-" s) = None.
Proof.
  unfold field_value. cbn. now destruct (NilEmpty.uint_of_string s).
Qed.

Lemma fmt02_negative z : z < 0 -> fmt02 z = String "-" (str_of_N (Z.abs_N z)).
Proof. intros H. unfold fmt02. now destruct (Z.ltb_spec z 0); [|lia]. Qed.

(** Two numbers are written alike by [:02] only when they are equal. *)
Lemma fmt02_inj a b : fmt02 a = fmt02 b -> a = b.
Proof.
  intros E. pose proof (f_equal field_value E) as V.
  destruct (Z_lt_le_dec a 0) as [Ha|Ha], (Z_lt_le_dec b 0) as [Hb|Hb].
  - rewrite (fmt02_negative a Ha), (fmt02_negative b Hb) in E.
    injection E as E. apply (f_equal field_value) in E.
    rewrite !field_value_str_of_N in E. injection E as E. lia.
  - rewrite (fmt02_negative a Ha), field_value_minus, field_value_fmt02 in V
      by assumption. discriminate.
  - rewrite (fmt02_negative b Hb), field_value_minus, field_value_fmt02 in V
      by assumption. discriminate.
  - rewrite !field_value_fmt02 in V by assumption. congruence.
Qed.

(** ** Appending strings *)

Lemma append_inv_length a : forall a' b b',
  String.length a = String.length a' ->
  (a ++ b)%string = (a' ++ b')%string -> a = a' /\ b = b'.
Proof.
  induction a as [|c a IH]; intros [|c' a'] b b' L E; cbn in *; try discriminate.
  - now split.
  - injection E as -> E. destruct (IH a' b b') as [-> ->]; auto.
Qed.

Lemma append_inv_l a b b' : (a ++ b)%string = (a ++ b')%string -> b = b'.
Proof. intros E. now apply (append_inv_length a a b b'). Qed.

Lemma length_append a b :
  String.length (a ++ b) = (String.length a + String.length b)%nat.
Proof. induction a as [|c a IH]; cbn; congruence. Qed.

(** ** Timecodes are unambiguous *)

Lemma format_timestamp_int n :
  format_timestamp (PyInt n)
  = Ok (fmt02 (n / 60 / 60) ++ ":" ++ two_digits ((n / 60) mod 60) ++ ":"
          ++ two_digits (n mod 60))%string.
Proof.
  unfold format_timestamp, int_of, bind, divmod.
  rewrite (fmt02_two_digits ((n / 60) mod 60)), (fmt02_two_digits (n mod 60));
    [reflexivity| |].
  - pose proof (Z.mod_pos_bound n 60). lia.
  - pose proof (Z.mod_pos_bound (n / 60) 60). lia.
Qed.

Lemma two_digits_inj a b :
  0 <= a < 100 -> 0 <= b < 100 -> two_digits a = two_digits b -> a = b.
Proof.
  intros Ha Hb E. rewrite <- !fmt02_two_digits in E by assumption.
  now apply fmt02_inj.
Qed.

(** ** The frame extractor *)

(** The tool can be started for every timestamp from index [i] on. *)
Lemma extract_from_started w v d ts : forall i,
  (exists images, extract_from w v d i ts = Ok images) <->
  (forall k sec, nth_error ts k = Some sec ->
     ffmpeg w sec v (thumb_path d (i + Z.of_nat k)) <> NotStarted).
Proof.
  induction ts as [|sec ts IH]; intros i; cbn [extract_from].
  - split; [intros _ [|k] sec'; discriminate|eauto].
  - fold (thumb_path d i). split.
    + intros [images H] [|k] sec' Hk.
      * injection Hk as <-. rewrite Z.add_0_r. intros E. now rewrite E in H.
      * cbn [nth_error] in Hk.
        destruct (ffmpeg w sec v (thumb_path d i)) as [|rc out]; [discriminate|].
        destruct (extract_from w v d (i + 1) ts) as [rest|] eqn:E; [|discriminate].
        replace (i + Z.of_nat (S k)) with (i + 1 + Z.of_nat k) by lia.
        apply (proj1 (IH (i + 1))); eauto.
    + intros H. pose proof (H 0%nat sec eq_refl) as H0. rewrite Z.add_0_r in H0.
      destruct (ffmpeg w sec v (thumb_path d i)) as [|rc out]; [congruence|].
      destruct (proj2 (IH (i + 1))) as [rest ->].
      * intros k sec' Hk.
        replace (i + 1 + Z.of_nat k) with (i + Z.of_nat (S k)) by lia.
        now apply H.
      * cbn [bind]. eauto.
Qed.

Lemma extract_from_raise w v d ts : forall i e,
  extract_from w v d i ts = Raise e -> e = OSError.
Proof.
  induction ts as [|sec ts IH]; intros i e; cbn [extract_from]; [discriminate|].
  destruct (ffmpeg w sec v _) as [|rc out]; [congruence|].
  destruct (extract_from w v d (i + 1) ts) as [rest|e'] eqn:E; cbn [bind];
    [discriminate|].
  intros [= <-]. eauto.
Qed.

Lemma map_filter_ext {A B} (f f' : A -> B) (g g' : A -> bool) l :
  (forall a, f a = f' a) -> (forall a, g a = g' a) ->
  map f (filter g l) = map f' (filter g' l).
Proof. intros Hf Hg. rewrite (filter_ext _ _ Hg). apply map_ext, Hf. Qed.

Lemma filter_none {A} (f : A -> bool) l :
  (forall a, In a l -> f a = false) -> filter f l = [].
Proof.
  induction l as [|a l IH]; intros H; cbn; [reflexivity|].
  rewrite (H a (or_introl eq_refl)). apply IH. intros; apply H; now right.
Qed.

(** What is extracted: the frames that ffmpeg wrote, in the order of the
    timestamps. *)
Lemma extract_from_filter w v d ts : forall i images,
  extract_from w v d i ts = Ok images ->
  images
  = map (fun k => (thumb_path d (i + Z.of_nat k), nth k ts (PyInt 0)))
      (filter (fun k => frame_ok w v d (i + Z.of_nat k) (nth k ts (PyInt 0)))
              (seq 0 (List.length ts))).
Proof.
  induction ts as [|sec ts IH]; intros i images; cbn [extract_from].
  - now intros [= <-].
  - fold (thumb_path d i).
    destruct (ffmpeg w sec v (thumb_path d i)) as [|rc out] eqn:F; [discriminate|].
    destruct (extract_from w v d (i + 1) ts) as [rest|] eqn:E; cbn [bind];
      [|discriminate].
    intros [= <-]. rewrite (IH _ _ E).
    assert (H0 : frame_ok w v d (i + Z.of_nat 0) sec = (rc =? 0)).
    { unfold frame_ok. cbn [Z.of_nat]. now rewrite Z.add_0_r, F. }
    cbn [List.length seq filter nth]. rewrite H0.
    rewrite <- seq_shift, filter_map_swap.
    assert (S1 : forall k, i + Z.of_nat (S k) = i + 1 + Z.of_nat k) by lia.
    destruct (rc =? 0); cbn [map]; rewrite map_map.
    + change (Z.of_nat 0) with 0. rewrite Z.add_0_r. f_equal.
      apply map_filter_ext; intros k; now rewrite S1.
    + apply map_filter_ext; intros k; now rewrite S1.
Qed.

Lemma NoDup_map_injective {A B} (f : A -> B) l :
  (forall a b, f a = f b -> a = b) -> NoDup l -> NoDup (map f l).
Proof.
  intros Hf H. induction H as [|a l Ha _ IH]; cbn [map]; constructor; auto.
  intros Hin. apply in_map_iff in Hin as (b & Hb & Hin).
  apply Hf in Hb. now subst.
Qed.

(** The names of the frames tell the indices apart. *)
Lemma join_inv_l a b b' :
  startswith "/" b = false -> startswith "/" b' = false ->
  join a b = join a b' -> b = b'.
Proof.
  unfold join. intros -> ->.
  destruct (negb (truthy a) || endswith "/" a); intros E.
  - now apply append_inv_l in E.
  - apply append_inv_l in E. now injection E.
Qed.

Lemma thumb_path_inj d i k : thumb_path d i = thumb_path d k -> i = k.
Proof.
  unfold thumb_path. intros E. apply join_inv_l in E; try reflexivity.
  apply (append_inv_l "thumb_") in E.
  apply fmt02_inj.
  apply (append_inv_length (fmt02 i) (fmt02 k) ".jpg" ".jpg"); [|exact E].
  apply (f_equal String.length) in E. rewrite !length_append in E. cbn in E. lia.
Qed.

(** ** Stems and extensions *)

Lemma rfind_last c s t :
  occurs c t = false -> rfind c (s ++ String c t) = strlen s.
Proof.
  intros H. unfold rfind. rewrite rfind_from_app. cbn [rfind_from].
  rewrite Ascii.eqb_refl. rewrite rfind_from_absent by assumption. lia.
Qed.

Lemma occurs_app c a b : occurs c (a ++ b) = occurs c a || occurs c b.
Proof.
  induction a as [|x a IH]; cbn; [reflexivity|]. now rewrite IH, orb_assoc.
Qed.

Lemma In_take_drop c post : forall pre m n,
  (m <= String.length pre < m + n)%nat ->
  In c (list_ascii_of_string (take n (drop m (pre ++ String c post)))).
Proof.
  intros pre. induction pre as [|x pre IH]; intros m n H; cbn [String.length] in H.
  - assert (m = 0)%nat as -> by lia. destruct n as [|n]; [lia|]. now left.
  - destruct m as [|m].
    + destruct n as [|n]; [lia|]. cbn. right.
      apply (IH 0%nat n). lia.
    + cbn [String.append drop]. apply IH. lia.
Qed.

(** [splitext] cuts a path at its last dot when the file name has a
    character other than a dot in front of it. *)
Lemma splitext_stem pre c post e :
  c <> "."%char -> c <> "/"%char ->
  occurs "/" post = false -> occurs "." e = false -> occurs "/" e = false ->
  splitext (pre ++ String c post ++ String "." e)
  = ((pre ++ String c post)%string, String "." e).
Proof.
  intros Hc1 Hc2 Hp He1 He2. unfold splitext, _splitext.
  set (stem := (pre ++ String c post)%string).
  assert (P : (pre ++ String c post ++ String "." e)%string
              = (stem ++ String "." e)%string).
  { unfold stem. now rewrite append_assoc. }
  rewrite P.
  assert (Hdot : rfind "." (stem ++ String "." e) = strlen stem)
    by now apply rfind_last.
  assert (Hsep : rfind "/" (stem ++ String "." e) = rfind "/" pre).
  { rewrite rfind_app_absent by (cbn; now rewrite He2).
    unfold stem. apply rfind_app_absent. cbn.
    rewrite Hp. destruct (Ascii.eqb_spec c "/"); [contradiction|reflexivity]. }
  rewrite Hdot, Hsep.
  pose proof (rfind_bounds "/" pre) as B.
  assert (L : strlen stem = strlen pre + 1 + strlen post).
  { unfold stem. rewrite strlen_app. unfold strlen. cbn [String.length]. lia. }
  assert (T : (rfind "/" pre <? strlen stem) = true).
  { apply Z.ltb_lt. unfold strlen in *. lia. }
  rewrite T. cbn [andb].
  assert (X : existsb (fun a => negb (Ascii.eqb a "."))
                (list_ascii_of_string
                   (slice (stem ++ String "." e) (rfind "/" pre + 1) (strlen stem)))
              = true).
  { apply existsb_exists. exists c. split.
    - unfold slice. rewrite L. unfold stem. rewrite append_assoc.
      apply In_take_drop. unfold strlen in *. lia.
    - destruct (Ascii.eqb_spec c "."); [contradiction|reflexivity]. }
  rewrite X. unfold slice_to, slice_from, strlen. rewrite Nat2Z.id.
  rewrite take_app by lia. rewrite drop_app. f_equal.
  clear. induction stem as [|x s IH]; cbn; [reflexivity|]. now rewrite IH.
Qed.

(** A path without a dot in its file name has no extension. *)
Lemma splitext_no_dot p :
  occurs "." (basename p) = false -> splitext p = (p, "").
Proof.
  intros H. unfold splitext, _splitext.
  destruct (rfind "/" p <? rfind "." p) eqn:E; [|reflexivity].
  exfalso. apply Z.ltb_lt in E. unfold basename, slice_from in H.
  pose proof (rfind_bounds "/" p) as B1. pose proof (rfind_bounds "." p) as B2.
  rewrite <- (take_drop (Z.to_nat (rfind "/" p + 1)) p) in E at 2.
  rewrite rfind_app_absent in E by assumption.
  pose proof (rfind_bounds "." (take (Z.to_nat (rfind "/" p + 1)) p)) as B3.
  assert (strlen (take (Z.to_nat (rfind "/" p + 1)) p) <= rfind "/" p + 1); [|lia].
  assert (T : forall n s, (String.length (take n s) <= n)%nat).
  { induction n; intros [|x s]; cbn; try lia. specialize (IHn s). lia. }
  specialize (T (Z.to_nat (rfind "/" p + 1)) p). unfold strlen. lia.
Qed.

(** X1.  [format_timestamp] tells the seconds apart: two integers,
    negative ones included, get the same timecode only when they are
    equal. *)
Theorem format_timestamp_injective (a b : Z) :
  format_timestamp (PyInt a) = format_timestamp (PyInt b) -> a = b.
Proof.
  rewrite !format_timestamp_int. intros [= E].
  pose proof (Z.mod_pos_bound a 60 ltac:(lia)) as Ha.
  pose proof (Z.mod_pos_bound b 60 ltac:(lia)) as Hb.
  pose proof (Z.mod_pos_bound (a / 60) 60 ltac:(lia)) as Ha'.
  pose proof (Z.mod_pos_bound (b / 60) 60 ltac:(lia)) as Hb'.
  apply append_inv_length in E as [Eh E].
  - apply (append_inv_l ":") in E.
    apply (append_inv_length (two_digits ((a / 60) mod 60))
             (two_digits ((b / 60) mod 60))) in E as [Em Es'];
      [|reflexivity].
    apply (append_inv_l ":") in Es'.
    apply fmt02_inj in Eh. apply two_digits_inj in Em; [|lia|lia].
    apply two_digits_inj in Es'; [|lia|lia].
    rewrite (Z.div_mod a 60), (Z.div_mod b 60) by lia.
    rewrite (Z.div_mod (a / 60) 60), (Z.div_mod (b / 60) 60) by lia.
    now rewrite Eh, Em, Es'.
  - apply (f_equal String.length) in E. rewrite !length_append in E.
    cbn in E. lia.
Qed.

(** The theorem for two timecodes that are equal. *)
Lemma format_timestamp_injective_witness : 3661 = 3600 + 61.
Proof. exact (format_timestamp_injective 3661 (3600 + 61) eq_refl). Defined.

(** X2.  What [extract_thumbnails] returns are the frames ffmpeg
    wrote with exit code 0, in the order of the timestamps: the frame of
    index [k] is [thumb_kk.jpg] in the temporary directory, paired with the
    timestamp of index [k].  A frame that failed leaves no gap in the
    list.  No two frames returned share a path, and there are at most as
    many as timestamps. *)
Theorem extract_thumbnails_frames (w : World) (video_path temp_dir : string)
    (timestamps : list num) (images : list (string * num)) :
  extract_thumbnails w video_path timestamps temp_dir = Ok images ->
  images
  = map (fun k => (thumb_path temp_dir (Z.of_nat k), nth k timestamps (PyInt 0)))
      (filter (fun k => frame_ok w video_path temp_dir (Z.of_nat k)
                          (nth k timestamps (PyInt 0)))
              (seq 0 (List.length timestamps)))
  /\ (forall path sec,
        In (path, sec) images <->
        exists k, nth_error timestamps k = Some sec
                  /\ path = thumb_path temp_dir (Z.of_nat k)
                  /\ exists out, ffmpeg w sec video_path path = Exited 0 out)
  /\ NoDup (map fst images)
  /\ (List.length images <= List.length timestamps)%nat.
Proof.
  intros H. apply extract_from_filter in H.
  assert (E : images
    = map (fun k => (thumb_path temp_dir (Z.of_nat k), nth k timestamps (PyInt 0)))
        (filter (fun k => frame_ok w video_path temp_dir (Z.of_nat k)
                            (nth k timestamps (PyInt 0)))
                (seq 0 (List.length timestamps)))).
  { rewrite H. apply map_filter_ext; intros k; now rewrite Z.add_0_l. }
  clear H. split; [exact E|]. split; [|split].
  - intros path sec. rewrite E, in_map_iff. split.
    + intros (k & [= <- <-] & Hk). apply filter_In in Hk as [Hk Hf].
      apply in_seq in Hk. exists k. split; [apply nth_error_nth'; lia|].
      split; [reflexivity|]. unfold frame_ok in Hf.
      destruct (ffmpeg w _ video_path _) as [|rc out]; [discriminate|].
      apply Z.eqb_eq in Hf as ->. eauto.
    + intros (k & Hk & -> & out & Hf). exists k.
      rewrite (nth_error_nth _ _ _ Hk). split; [reflexivity|].
      apply filter_In. split.
      * apply in_seq. split; [lia|]. apply nth_error_Some. congruence.
      * cbn beta. rewrite (nth_error_nth _ _ _ Hk). unfold frame_ok.
        now rewrite Hf.
  - rewrite E, map_map. cbn [fst]. apply NoDup_map_injective.
    + intros i k Hik. apply thumb_path_inj in Hik. lia.
    + apply NoDup_filter, seq_NoDup.
  - rewrite E, length_map.
    etransitivity; [apply filter_length_le|]. now rewrite length_seq.
Qed.

(** The theorem for three timestamps in the sample world. *)
Lemma extract_thumbnails_frames_witness :
  NoDup ["/tmp/tmpsheet/thumb_00.jpg"; "/tmp/tmpsheet/thumb_01.jpg";
         "/tmp/tmpsheet/thumb_02.jpg"].
Proof.
  exact (proj1 (proj2 (proj2
    (extract_thumbnails_frames sample_world "/v/a.mp4" "/tmp/tmpsheet"
       [PyInt 1; PyInt 2; PyInt 3] _ eq_refl)))).
Defined.

(** X3.  [extract_thumbnails] raises exactly when ffmpeg
    cannot be started for one of the timestamps, and what it raises then is
    the error of the operating system; a frame ffmpeg fails on, exiting
    with another code than 0, is dropped without an exception, so that no
    frame at all gives the empty list. *)
Theorem extract_thumbnails_errors (w : World) (video_path temp_dir : string)
    (timestamps : list num) :
  ((exists e, extract_thumbnails w video_path timestamps temp_dir = Raise e) <->
   (exists k sec, nth_error timestamps k = Some sec
                  /\ ffmpeg w sec video_path (thumb_path temp_dir (Z.of_nat k))
                     = NotStarted))
  /\ (forall e, extract_thumbnails w video_path timestamps temp_dir = Raise e ->
      e = OSError)
  /\ ((forall k sec, nth_error timestamps k = Some sec ->
         exists rc out,
           ffmpeg w sec video_path (thumb_path temp_dir (Z.of_nat k))
           = Exited rc out /\ rc <> 0) ->
      extract_thumbnails w video_path timestamps temp_dir = Ok []).
Proof.
  unfold extract_thumbnails.
  pose proof (extract_from_started w video_path temp_dir timestamps 0) as S.
  split; [|split].
  - split.
    + intros [e He].
      destruct (List.Exists_dec
                  (fun k => ffmpeg w (nth k timestamps (PyInt 0)) video_path
                              (thumb_path temp_dir (Z.of_nat k)) = NotStarted)
                  (seq 0 (List.length timestamps))) as [Hex|Hno].
      * intros k. destruct (ffmpeg w _ video_path _); [now left|now right].
      * apply Exists_exists in Hex as (k & Hk & Hf). apply in_seq in Hk.
        exists k, (nth k timestamps (PyInt 0)).
        split; [apply nth_error_nth'; lia|exact Hf].
      * exfalso. destruct (proj2 S) as [images Hi]; [|congruence].
        intros k sec Hk Hf. apply Hno, Exists_exists. exists k. split.
        -- apply in_seq. split; [lia|]. apply nth_error_Some. congruence.
        -- rewrite (nth_error_nth _ _ _ Hk). now rewrite Z.add_0_l in Hf.
    + intros (k & sec & Hk & Hf).
      destruct (extract_from w video_path temp_dir 0 timestamps) as [images|e] eqn:E;
        [|eauto].
      exfalso. apply (proj1 S (ex_intro _ images eq_refl) k sec Hk).
      now rewrite Z.add_0_l.
  - apply extract_from_raise.
  - intros H. destruct (proj2 S) as [images Hi].
    + intros k sec Hk Hf. destruct (H k sec Hk) as (rc & out & Hx & _).
      rewrite Z.add_0_l in Hf. congruence.
    + rewrite Hi. f_equal. apply extract_from_filter in Hi. rewrite Hi.
      rewrite filter_none; [reflexivity|].
      intros k Hk. apply in_seq in Hk.
      destruct (H k (nth k timestamps (PyInt 0))) as (rc & out & Hx & Hrc).
      { apply nth_error_nth'. lia. }
      unfold frame_ok. rewrite Z.add_0_l, Hx. now apply Z.eqb_neq.
Qed.

(** ** Sheets and folders *)

Lemma find_video_files_filter w folder_path :
  find_video_files w folder_path
  = match listdir w folder_path with
    | Ok files => map (join folder_path)
                    (filter (is_video_entry w folder_path) files)
    | Raise _ => []
    end.
Proof.
  unfold find_video_files. destruct (listdir w folder_path) as [files|e];
    [|reflexivity].
  induction files as [|file files IH]; [reflexivity|].
  cbn [flat_map filter]. rewrite IH. unfold is_video_entry at 2.
  destruct (isfile w (join folder_path file)); [|reflexivity].
  destruct (mem_string _ VIDEO_EXTENSIONS); reflexivity.
Qed.

(** The extension of a sheet is [.jpg], whatever it is the sheet of. *)
Lemma splitext_sheet s : splitext (s ++ "_sheet.jpg") = ((s ++ "_sheet")%string, ".jpg").
Proof.
  pose proof (splitext_stem (s ++ "_shee") "t" "" "jpg") as H.
  rewrite !append_assoc in H. cbn [String.append] in H.
  assert (E : (s ++ "_sheet")%string = (s ++ "_shee" ++ "t")%string) by reflexivity.
  rewrite E. apply H; try reflexivity; discriminate.
Qed.

(** X4.  The video files [find_video_files] finds are, in the order
    of [os.listdir], the entries that are regular files and whose
    extension, in lower case, is a video extension: it finds every one of
    them, each as often as it is listed, and so never more paths than
    there are entries. *)
Theorem find_video_files_complete (w : World) (folder_path : string)
    (files : list string) :
  listdir w folder_path = Ok files ->
  find_video_files w folder_path
  = map (join folder_path) (filter (is_video_entry w folder_path) files)
  /\ (forall file,
        In file files -> isfile w (join folder_path file) = true ->
        In (lower (snd (splitext file))) VIDEO_EXTENSIONS ->
        In (join folder_path file) (find_video_files w folder_path))
  /\ (List.length (find_video_files w folder_path) <= List.length files)%nat.
Proof.
  intros H. rewrite find_video_files_filter, H. split; [reflexivity|]. split.
  - intros file Hin Hfile Hext. apply in_map, filter_In. split; [exact Hin|].
    unfold is_video_entry. rewrite Hfile. now apply mem_string_In.
  - rewrite length_map. apply filter_length_le.
Qed.

(** The theorem in the sample folder: the three videos, in the order of the
    listing. *)
Lemma find_video_files_complete_witness :
  find_video_files sample_world "/v" = ["/v/a.mp4"; "/v/b.MKV"; "/v/c.mp4"].
Proof.
  exact (proj1 (find_video_files_complete sample_world "/v" _ eq_refl)).
Defined.

(** X5.  A sheet is no video file: an entry whose name ends with
    [_sheet.jpg], as the names of the sheets [process_video] saves do, never
    passes the test of [find_video_files], so that a later run on the same
    folder does not take the sheets for videos. *)
Theorem find_video_files_skips_sheets (w : World) (folder_path : string) :
  (forall s, is_video_entry w folder_path (s ++ "_sheet.jpg") = false)
  /\ (forall video_path,
        is_video_entry w folder_path (basename (sheet_path video_path)) = false)
  /\ (forall files,
        listdir w folder_path = Ok files ->
        (forall file, In file files -> exists s, file = (s ++ "_sheet.jpg")%string) ->
        find_video_files w folder_path = []).
Proof.
  assert (A : forall s, is_video_entry w folder_path (s ++ "_sheet.jpg") = false).
  { intros s. unfold is_video_entry. rewrite splitext_sheet.
    now rewrite andb_false_r. }
  split; [exact A|]. split.
  - intros p. unfold sheet_path, basename.
    set (stem := fst (splitext p)).
    rewrite rfind_app_absent by reflexivity.
    pose proof (rfind_bounds "/" stem) as B. unfold slice_from.
    replace (drop (Z.to_nat (rfind "/" stem + 1)) (stem ++ "_sheet.jpg"))
      with (drop (Z.to_nat (rfind "/" stem + 1)) stem ++ "_sheet.jpg")%string.
    + apply A.
    + assert (Hn : forall n, (n <= String.length stem)%nat ->
                (drop n stem ++ "_sheet.jpg")%string = drop n (stem ++ "_sheet.jpg")).
      { clear. induction stem as [|x s IH]; intros [|n] H; cbn in *;
          try reflexivity; try lia. apply IH. lia. }
      apply Hn. unfold strlen in B. lia.
  - intros files Hl Hall. rewrite find_video_files_filter, Hl.
    rewrite filter_none; [reflexivity|].
    intros file Hin. destruct (Hall file Hin) as [s ->]. apply A.
Qed.

(** X6.  The sheet of [stem.ext] is [stem_sheet.jpg]: the last dot of
    the file name and what follows it are replaced, provided the file name
    has a character other than a dot in front of that dot.  The sheet of a
    path whose file name has no dot is the path followed by
    [_sheet.jpg]. *)
Theorem sheet_path_of_stem (pre : string) (c : ascii) (post e : string) :
  c <> "."%char -> c <> "/"%char ->
  occurs "/" post = false -> occurs "." e = false -> occurs "/" e = false ->
  sheet_path (pre ++ String c post ++ String "." e)
  = (pre ++ String c post ++ "_sheet.jpg")%string
  /\ forall p, occurs "." (basename p) = false ->
               sheet_path p = (p ++ "_sheet.jpg")%string.
Proof.
  intros H1 H2 H3 H4 H5. split.
  - unfold sheet_path. rewrite splitext_stem by assumption. cbn [fst].
    now rewrite append_assoc.
  - intros p Hp. unfold sheet_path. now rewrite splitext_no_dot.
Qed.

(** The theorem for [/v/a.mp4]. *)
Lemma sheet_path_of_stem_witness : sheet_path "/v/a.mp4" = "/v/a_sheet.jpg".
Proof.
  refine (proj1 (sheet_path_of_stem "/v/" "a" "" "mp4" _ _ eq_refl eq_refl eq_refl));
    discriminate.
Defined.

(** X7.  Two videos that differ in their extension only share
    their sheet: once [process_video] has returned [True] for one of them,
    it skips the other, which gets no sheet of its own. *)
Theorem sheet_shared_by_extensions (w : World) (st st' : state)
    (pre : string) (c : ascii) (post e1 e2 : string) (t i t' i' : Z)
    (l : list event) :
  c <> "."%char -> c <> "/"%char -> occurs "/" post = false ->
  occurs "." e1 = false -> occurs "/" e1 = false ->
  occurs "." e2 = false -> occurs "/" e2 = false ->
  let video1 := (pre ++ String c post ++ String "." e1)%string in
  let video2 := (pre ++ String c post ++ String "." e2)%string in
  process_video w st video1 t i = (true, l, st') ->
  sheet_path video1 = sheet_path video2
  /\ process_video w st' video2 t' i' = (true, [skip_line video2 t' i'], st').
Proof.
  intros Hc1 Hc2 Hp H1 H2 H3 H4 video1 video2 H.
  assert (E : sheet_path video1 = sheet_path video2).
  { unfold sheet_path, video1, video2. now rewrite !splitext_stem. }
  split; [exact E|]. apply process_video_skip. rewrite <- E.
  exact (process_video_true _ _ _ _ _ _ _ H).
Qed.

(** The theorem for [/v/a.mp4] and [/v/a.mkv] in the sample world. *)
Lemma sheet_shared_by_extensions_witness :
  process_video sample_world ["/v/a_sheet.jpg"] "/v/a.mkv" 2 2
  = (true, [skip_line "/v/a.mkv" 2 2], ["/v/a_sheet.jpg"]).
Proof.
  refine (proj2 (sheet_shared_by_extensions sample_world [] ["/v/a_sheet.jpg"]
            "/v/" "a" "" "mp4" "mkv" 2 1 2 2 _ _ _ eq_refl eq_refl eq_refl
            eq_refl eq_refl _)).
  - discriminate.
  - discriminate.
  - vm_compute. reflexivity.
Defined.

(** ** Sampling never fails on what the probe returns *)

Lemma float_of_int_small z :
  0 < z < 2 ^ 53 ->
  float_of_int z = Ok (float_of_Z z) /\ PrimFloat.eqb (float_of_Z z) zero = false.
Proof.
  intros H. destruct (normal_pos_tests _ _ (float_of_Z_normal z H)) as (I & E & _).
  unfold float_of_int. now rewrite I.
Qed.

Lemma length_repeat_zero (total : Z) :
  List.length (repeat (PyInt 0) (Z.to_nat total)) = Z.to_nat total.
Proof. apply repeat_length. Qed.

Lemma length_range n : List.length (range n) = Z.to_nat n.
Proof. unfold range. now rewrite length_map, length_seq. Qed.

Lemma generate_timestamps_float f total :
  -2 < total < 2 ^ 53 - 2 ->
  exists ts, generate_timestamps (PyFloat f) total = Ok ts
             /\ List.length ts = Z.to_nat total.
Proof.
  intros H. unfold generate_timestamps.
  destruct (le_zero (PyFloat f)).
  { eexists. split; [reflexivity|apply length_repeat_zero]. }
  unfold truediv, to_float, float_truediv.
  destruct (float_of_int_small (total + 2) ltac:(lia)) as [-> E]. cbn [bind].
  rewrite E. cbn [bind].
  rewrite (mapM_map _ (sample (f / float_of_Z (total + 2))%float)).
  - eexists. split; [reflexivity|]. now rewrite length_map, length_range.
  - intros i Hi. apply in_range in Hi. unfold mul, to_float.
    destruct (float_of_int_small (i + 1) ltac:(lia)) as [-> _]. reflexivity.
Qed.

Lemma get_video_info_body_inv w p info :
  get_video_info_body w p = Ok info ->
  exists od ow oh oc bytes d size_mb,
    query w FormatDuration p = Ok od /\ query w StreamWidth p = Ok ow
    /\ query w StreamHeight p = Ok oh /\ query w StreamCodecName p = Ok oc
    /\ duration_of od = Ok d /\ getsize w p = Ok bytes
    /\ int_truediv bytes (1024 * 1024) = Ok size_mb
    /\ info = {| duration := d; resolution := resolution_of ow oh;
                 size := (fmt_2f size_mb ++ " MB")%string; codec := codec_of oc |}.
Proof.
  intros H.
  destruct (query w FormatDuration p) as [od|] eqn:Q1.
  2:{ unfold get_video_info_body in H. unfold query in Q1. rewrite Q1 in H.
      discriminate. }
  destruct (query w StreamWidth p) as [ow|] eqn:Q2.
  2:{ unfold get_video_info_body in H. unfold query in Q1, Q2.
      rewrite Q1 in H. cbn [bind] in H.
      destruct (if truthy (strip od) then _ else _); cbn [bind] in H;
        [rewrite Q2 in H|]; discriminate. }
  destruct (query w StreamHeight p) as [oh|] eqn:Q3.
  2:{ unfold get_video_info_body in H. unfold query in Q1, Q2, Q3.
      rewrite Q1 in H. cbn [bind] in H.
      destruct (if truthy (strip od) then _ else _); cbn [bind] in H;
        [rewrite Q2 in H; cbn [bind] in H; rewrite Q3 in H|]; discriminate. }
  destruct (query w StreamCodecName p) as [oc|] eqn:Q4.
  2:{ unfold get_video_info_body in H. unfold query in Q1, Q2, Q3, Q4.
      rewrite Q1 in H. cbn [bind] in H.
      destruct (if truthy (strip od) then _ else _); cbn [bind] in H;
        [rewrite Q2 in H; cbn [bind] in H; rewrite Q3 in H; cbn [bind] in H;
         rewrite Q4 in H|]; discriminate. }
  rewrite (get_video_info_body_queries w p od ow oh oc) in H by assumption.
  destruct (duration_of od) as [d|] eqn:D; cbn [bind] in H; [|discriminate].
  destruct (getsize w p) as [bytes|] eqn:S; cbn [bind] in H; [|discriminate].
  destruct (int_truediv bytes (1024 * 1024)) as [mb|] eqn:M; cbn [bind] in H;
    [|discriminate].
  injection H as <-. exists od, ow, oh, oc, bytes, d, mb. repeat split; auto.
Qed.

Lemma duration_of_shape od d :
  duration_of od = Ok d -> d = PyInt 0 \/ exists f, d = PyFloat f.
Proof.
  unfold duration_of. destruct (truthy (strip od)).
  - destruct (float_of_string (strip od)) as [f|]; cbn [bind]; [|discriminate].
    intros [= <-]. eauto.
  - intros [= <-]. now left.
Qed.

Lemma truthy_nonempty s : truthy s = true -> s <> "".
Proof. now destruct s. Qed.

(** X8.  For a duration that is a float, whatever float, or
    that is not positive, and a number of samples above [-2] and below
    [2^53 - 2], [generate_timestamps] raises nothing and returns that many
    values, none when the number is negative.  For [-2] samples of a
    positive duration it divides by zero. *)
Theorem generate_timestamps_total (duration : num) (total : Z) :
  le_zero duration = true \/ (exists f, duration = PyFloat f) ->
  (-2 < total < 2 ^ 53 - 2 ->
   exists ts, generate_timestamps duration total = Ok ts
              /\ List.length ts = Z.to_nat total)
  /\ (total = -2 -> le_zero duration = false ->
      generate_timestamps duration total = Raise ZeroDivisionError).
Proof.
  intros H. split.
  - intros Ht. destruct H as [H|[f ->]].
    + unfold generate_timestamps. rewrite H. eexists.
      split; [reflexivity|apply length_repeat_zero].
    + now apply generate_timestamps_float.
  - intros -> Hd. destruct H as [H|[f ->]]; [congruence|].
    unfold generate_timestamps. rewrite Hd. reflexivity.
Qed.

(** The theorem for a duration that is not a number and three samples. *)
Lemma generate_timestamps_total_witness :
  exists ts, generate_timestamps (PyFloat nan) 3 = Ok ts
             /\ List.length ts = 3%nat.
Proof.
  exact (proj1 (generate_timestamps_total (PyFloat nan) 3
                  (or_intror (ex_intro _ nan eq_refl))) ltac:(lia)).
Defined.

(** X9.  The metadata [get_video_info] returns is always
    complete: the duration is the integer 0 or a float, the resolution and
    the codec are never empty, the size ends with [ MB]; and from its
    duration [generate_timestamps] always makes the 25 timestamps of the
    grid, so that [process_video] cannot fail between the probe and the
    extraction but for the temporary directory. *)
Theorem get_video_info_complete (w : World) (video_path : string)
    (info : video_info) :
  get_video_info w video_path = Some info ->
  (duration info = PyInt 0 \/ exists f, duration info = PyFloat f)
  /\ resolution info <> "" /\ codec info <> ""
  /\ (exists x, size info = (x ++ " MB")%string)
  /\ exists ts,
       generate_timestamps (duration info) (GRID_COLUMNS * GRID_ROWS) = Ok ts
       /\ List.length ts = 25%nat.
Proof.
  unfold get_video_info.
  destruct (get_video_info_body w video_path) as [info'|] eqn:E; [|discriminate].
  intros [= ->].
  apply get_video_info_body_inv in E
    as (od & ow & oh & oc & bytes & d & mb & _ & _ & _ & _ & D & _ & _ & ->).
  cbn [duration resolution codec size].
  pose proof (duration_of_shape _ _ D) as Hd.
  split; [exact Hd|]. split; [|split; [|split]].
  - unfold resolution_of.
    destruct (truthy (strip ow)) eqn:T; cbn [andb]; [|discriminate].
    destruct (truthy (strip oh)); [|discriminate].
    destruct (strip ow); [discriminate|]. discriminate.
  - unfold codec_of. destruct (truthy (strip oc)) eqn:T; [|discriminate].
    now apply truthy_nonempty.
  - eauto.
  - destruct Hd as [->|[f ->]].
    + eexists. split; reflexivity.
    + apply (generate_timestamps_float f 25). lia.
Qed.

(** The theorem in the sample world. *)
Lemma get_video_info_complete_witness :
  exists ts,
    generate_timestamps (PyFloat 120.5) 25 = Ok ts /\ List.length ts = 25%nat.
Proof.
  exact (proj2 (proj2 (proj2 (proj2
    (get_video_info_complete sample_world "/v/a.mp4" _ eq_refl))))).
Defined.

(** ** The stages of the pipeline *)

Lemma get_video_info_timestamps w p info :
  get_video_info w p = Some info ->
  exists ts,
    generate_timestamps (duration info) (GRID_COLUMNS * GRID_ROWS) = Ok ts
    /\ List.length ts = 25%nat.
Proof.
  unfold get_video_info.
  destruct (get_video_info_body w p) as [info'|] eqn:E; [|discriminate].
  intros [= ->].
  apply get_video_info_body_inv in E
    as (od & ow & oh & oc & bytes & d & mb & _ & _ & _ & _ & D & _ & _ & ->).
  cbn [duration]. destruct (duration_of_shape _ _ D) as [->|[f ->]].
  - eexists. split; reflexivity.
  - apply (generate_timestamps_float f 25). lia.
Qed.

(** X10.  [process_video] makes the sheet whenever every stage can do
    its work: the sheet is not there yet, the probe returns metadata with a
    finite duration, the temporary directory can be made, ffmpeg can be
    started and writes at least one of the 25 frames, the frames open as
    images of a width and a height below [2^31] for whose cells the canvas
    of the sheet can be made, and the sheet can be saved.  It then calls the
    four stages in order, says that it saved the sheet, returns [True], and
    the sheet exists. *)
Theorem process_video_succeeds (w : World) (st : state) (video_path : string)
    (total_videos current_index : Z) (info : video_info) (tmpdir : string) :
  path_exists st (sheet_path video_path) = false ->
  get_video_info w video_path = Some info ->
  finite_num (duration info) = true ->
  mkdtemp w = Ok tmpdir ->
  (forall sec path, ffmpeg w sec video_path path <> NotStarted) ->
  (exists k, 0 <= k < 25
             /\ forall sec, frame_ok w video_path tmpdir k sec = true) ->
  (forall k, exists iw ih,
      image_open w (thumb_path tmpdir k) = Some (iw, ih)
      /\ 0 < iw < 2 ^ 31 /\ 0 < ih < 2 ^ 31
      /\ forall th, thumb_height_of iw ih = Ok th ->
                    image_new w SHEET_WIDTH (canvas_height th) = Ok tt) ->
  save_ok w (sheet_path video_path) = true ->
  exists log,
    process_video w st video_path total_videos current_index
    = (true, log, sheet_path video_path :: st)
    /\ stage_calls log
       = [CallProbe video_path; CallExtract video_path; CallCompose video_path;
          CallSave (sheet_path video_path)]
    /\ last log (Print "")
       = Print (progress current_index total_videos ++ "Saved sheet for "
                  ++ basename video_path)%string.
Proof.
  intros Hno Hinfo Hfin Htmp Hstart (k & Hk & Hframe) Hopen Hsave.
  destruct (get_video_info_timestamps _ _ _ Hinfo) as (ts & Hts & Hlen).
  destruct (proj2 (extract_from_started w video_path tmpdir ts 0)) as [images Hex].
  { intros j sec _. apply Hstart. }
  pose proof (extract_from_filter _ _ _ _ _ _ Hex) as Him.
  assert (Hin : In (thumb_path tmpdir k, nth (Z.to_nat k) ts (PyInt 0)) images).
  { rewrite Him. apply in_map_iff. exists (Z.to_nat k).
    rewrite Z.add_0_l, Z2Nat.id by lia. split; [reflexivity|].
    apply filter_In. split; [apply in_seq; lia|].
    rewrite Z.add_0_l, Z2Nat.id by lia. apply Hframe. }
  destruct images as [|first rest]; [destruct Hin|].
  assert (Hfirst : exists j, fst first = thumb_path tmpdir j).
  { assert (I : In first (first :: rest)) by now left.
    rewrite Him in I. apply in_map_iff in I as (j & <- & _). cbn [fst]. eauto. }
  destruct Hfirst as [j Hj].
  destruct (Hopen j) as (iw & ih & Ho & Hw & Hh & Hcanvas). rewrite <- Hj in Ho.
  destruct (thumb_height_of_total iw ih Hw Hh) as (th & Eth & _).
  destruct (format_timestamp_total _ Hfin) as (shown & Hd).
  destruct (build_sheet_some w video_path first rest info iw ih th shown Ho Eth
              (Hcanvas th Eth) Hd) as (header & Hs & _).
  unfold process_video. rewrite Hno, Hinfo, Hts, Htmp.
  unfold extract_thumbnails. rewrite Hex, Hs, Hsave.
  eexists. split; [reflexivity|]. split; reflexivity.
Qed.

(** The theorem in the sample world. *)
Lemma process_video_succeeds_witness :
  exists log,
    process_video sample_world [] "/v/a.mp4" 1 1
    = (true, log, ["/v/a_sheet.jpg"])
    /\ stage_calls log
       = [CallProbe "/v/a.mp4"; CallExtract "/v/a.mp4"; CallCompose "/v/a.mp4";
          CallSave "/v/a_sheet.jpg"]
    /\ last log (Print "") = Print "[1/1] Saved sheet for a.mp4".
Proof.
  refine (process_video_succeeds sample_world [] "/v/a.mp4" 1 1 _ "/tmp/tmpsheet"
            eq_refl eq_refl eq_refl eq_refl _ _ _ eq_refl).
  - discriminate.
  - exists 0. split; [lia|reflexivity].
  - intros k. exists 1920, 1080. split; [reflexivity|].
    split; [lia|]. split; [lia|].
    intros th H. vm_compute in H. injection H as <-. reflexivity.
Defined.

(** X11.  Whatever happens, [process_video] runs its stages in the
    order probe, extraction, composition, save, and a stage only after the
    one before it: nothing is called for a sheet that exists; the frames
    are extracted only after the probe, the sheet is composed only after
    the extraction and saved only after the composition.  It returns
    [True] only for a sheet that existed or was saved, and the only path it
    ever adds is that of the sheet, when it saved it. *)
Theorem process_video_stages (w : World) (st : state) (video_path : string)
    (total_videos current_index : Z) :
  let '(result, log, st') :=
    process_video w st video_path total_videos current_index in
  let probe := CallProbe video_path in
  let extract := CallExtract video_path in
  let compose := CallCompose video_path in
  let save := CallSave (sheet_path video_path) in
  (stage_calls log = [] /\ result = true /\ st' = st
   /\ path_exists st (sheet_path video_path) = true)
  \/ (path_exists st (sheet_path video_path) = false
      /\ ((stage_calls log = [probe] /\ result = false /\ st' = st)
          \/ (stage_calls log = [probe; extract] /\ result = false /\ st' = st)
          \/ (stage_calls log = [probe; extract; compose]
              /\ result = false /\ st' = st)
          \/ (stage_calls log = [probe; extract; compose; save]
              /\ result = save_ok w (sheet_path video_path)
              /\ st' = if result then sheet_path video_path :: st else st))).
Proof.
  unfold process_video.
  destruct (path_exists st (sheet_path video_path)) eqn:E.
  { left. repeat split. }
  destruct (get_video_info w video_path) as [info|];
    [|right; split; [reflexivity|left; repeat split]].
  destruct (generate_timestamps _ _) as [ts|];
    [|right; split; [reflexivity|left; repeat split]].
  destruct (mkdtemp w) as [tmp|];
    [|right; split; [reflexivity|left; repeat split]].
  destruct (extract_thumbnails w video_path ts tmp) as [[|first rest]|];
    [right; split; [reflexivity|right; left; repeat split]|
    |right; split; [reflexivity|right; left; repeat split]].
  destruct (build_sheet w video_path (first :: rest) info) as [s|];
    [|right; split; [reflexivity|right; right; left; repeat split]].
  destruct (save_ok w (sheet_path video_path));
    (right; split; [reflexivity|right; right; right; repeat split]).
Qed.

(** ** The files a batch leaves *)

Lemma process_video_state w st p t i :
  snd (process_video w st p t i) = st
  \/ snd (process_video w st p t i) = sheet_path p :: st.
Proof.
  unfold process_video.
  destruct (path_exists st (sheet_path p)); [now left|].
  destruct (get_video_info w p) as [info|]; [|now left].
  destruct (generate_timestamps _ _) as [ts|]; [|now left].
  destruct (mkdtemp w) as [tmp|]; [|now left].
  destruct (extract_thumbnails w p ts tmp) as [[|first rest]|];
    [now left| |now left].
  destruct (build_sheet w p (first :: rest) info) as [s|]; [|now left].
  destruct (save_ok w (sheet_path p)); [now right|now left].
Qed.

Lemma path_exists_cons_iff a st q :
  path_exists (a :: st) q = String.eqb q a || path_exists st q.
Proof. reflexivity. Qed.

Lemma process_video_keeps w st p t i q :
  path_exists st q = true -> path_exists (snd (process_video w st p t i)) q = true.
Proof.
  intros H. destruct (process_video_state w st p t i) as [-> | ->]; [exact H|].
  rewrite path_exists_cons_iff, H. apply orb_true_r.
Qed.

Lemma process_video_adds w st p t i q :
  path_exists (snd (process_video w st p t i)) q = true ->
  path_exists st q = true \/ q = sheet_path p.
Proof.
  destruct (process_video_state w st p t i) as [-> | ->]; [now left|].
  rewrite path_exists_cons_iff. intros H. apply orb_prop in H as [H|H].
  - right. now apply String.eqb_eq.
  - now left.
Qed.

Lemma run_tasks_keeps w n tasks q : forall st,
  path_exists st q = true -> path_exists (snd (run_tasks w st n tasks)) q = true.
Proof.
  induction tasks as [|[v i] tasks IH]; intros st H; [exact H|].
  cbn [run_tasks].
  pose proof (process_video_keeps w st v n i q H) as H1.
  destruct (process_video w st v n i) as [[r l] st1]. cbn [snd] in H1.
  specialize (IH st1 H1). destruct (run_tasks w st1 n tasks) as [[rs ls] st2].
  exact IH.
Qed.

Lemma run_tasks_adds w n tasks q : forall st,
  path_exists (snd (run_tasks w st n tasks)) q = true ->
  path_exists st q = true
  \/ exists task, In task tasks /\ q = sheet_path (fst task).
Proof.
  induction tasks as [|[v i] tasks IH]; intros st H; [now left|].
  cbn [run_tasks] in H.
  pose proof (process_video_adds w st v n i q) as H1.
  destruct (process_video w st v n i) as [[r l] st1]. cbn [snd] in H1.
  specialize (IH st1). destruct (run_tasks w st1 n tasks) as [[rs ls] st2].
  cbn [snd] in *. destruct (IH H) as [H2|(task & Hin & ->)].
  - destruct (H1 H2) as [H3| ->]; [now left|].
    right. exists (v, i). split; [now left|reflexivity].
  - right. exists task. split; [now right|reflexivity].
Qed.

(** Every task that returned [True] has its sheet at the end. *)
Lemma run_tasks_true_sheets w n tasks : forall st,
  (count_of succeeded (fst (fst (run_tasks w st n tasks)))
   <= Z.of_nat (List.length
                  (filter (fun task => has_sheet (snd (run_tasks w st n tasks))
                                         (fst task)) tasks))).
Proof.
  induction tasks as [|[v i] tasks IH]; intros st; [cbn; lia|].
  cbn [run_tasks].
  pose proof (process_video_true w st v n i) as Ht.
  destruct (process_video w st v n i) as [[r l] st1].
  specialize (IH st1).
  pose proof (run_tasks_keeps w n tasks (sheet_path v) st1) as Hk.
  destruct (run_tasks w st1 n tasks) as [[rs ls] st2].
  cbn [fst snd filter] in *. unfold count_of in *. cbn [filter].
  destruct r; cbn [succeeded].
  - unfold has_sheet at 1. rewrite (Hk (Ht _ _ eq_refl)).
    cbn [List.length]. lia.
  - destruct (has_sheet st2 v); cbn [List.length]; lia.
Qed.

(** Every task whose sheet is there beforehand returns [True]. *)
Lemma run_tasks_skips w n st0 tasks : forall st,
  (forall q, path_exists st0 q = true -> path_exists st q = true) ->
  Z.of_nat (List.length (filter (fun task => has_sheet st0 (fst task)) tasks))
  <= count_of succeeded (fst (fst (run_tasks w st n tasks))).
Proof.
  induction tasks as [|[v i] tasks IH]; intros st H; [cbn; lia|].
  cbn [run_tasks filter fst].
  pose proof (process_video_skip w st v n i) as Hs.
  pose proof (fun q => process_video_keeps w st v n i q) as Hk.
  destruct (process_video w st v n i) as [[r l] st1].
  specialize (IH st1 (fun q Hq => Hk q (H q Hq))).
  destruct (run_tasks w st1 n tasks) as [[rs ls] st2].
  cbn [fst snd] in *. unfold count_of in *. cbn [filter].
  destruct (has_sheet st0 v) eqn:E.
  - unfold has_sheet in E. specialize (Hs (H _ E)).
    injection Hs as -> _ _. cbn [succeeded List.length]. lia.
  - destruct (succeeded (Returned r)); cbn [List.length]; lia.
Qed.

Lemma filter_enumerate_from (f : string -> bool) files : forall i,
  List.length (filter (fun task => f (fst task)) (enumerate_from i files))
  = List.length (filter f files).
Proof.
  induction files as [|v files IH]; intros i; [reflexivity|].
  cbn [enumerate_from filter fst]. destruct (f v); cbn [List.length];
    now rewrite IH.
Qed.

Lemma enumerate_from_fst files : forall i task,
  In task (enumerate_from i files) -> In (fst task) files.
Proof.
  induction files as [|v files IH]; intros i task; cbn [enumerate_from];
    [intros []|].
  intros [<-|H]; [now left|right; eauto].
Qed.

Lemma Permutation_filter_length {A} (f : A -> bool) l l' :
  Permutation l l' -> List.length (filter f l) = List.length (filter f l').
Proof.
  induction 1 as [|x l l' _ IH|x y l|l l' l'' _ IH1 _ IH2]; cbn [filter].
  - reflexivity.
  - destruct (f x); cbn; congruence.
  - destruct (f x), (f y); reflexivity.
  - congruence.
Qed.

Lemma process_folder_unfold w st completion folder_path v rest :
  find_video_files w folder_path = v :: rest ->
  let tasks := completion (enumerate_from 0 (v :: rest)) in
  let n := Z.of_nat (List.length (v :: rest)) in
  let run := run_tasks w st n tasks in
  process_folder w st completion folder_path
  = (Some {| total := n;
             successful := count_of succeeded (fst (fst run));
             failed := count_of (fun r => negb (succeeded r)) (fst (fst run)) |},
     snd run).
Proof.
  intros E tasks n run. unfold process_folder. rewrite E. fold tasks n.
  unfold run. destruct (run_tasks w st n tasks) as [[results log] st'].
  rewrite count_results_spec. reflexivity.
Qed.

(** X12.  A batch touches nothing but sheets: every path that
    existed before it still exists after it, and every path that exists
    after it existed before or is the sheet of one of the videos found.
    The number it reports as successful is at most the number of videos
    found whose sheet exists afterwards.  When no video is found nothing
    changes. *)
Theorem process_folder_sheets (w : World) (st : state)
    (completion : list (string * Z) -> list (string * Z)) (folder_path : string) :
  let video_files := find_video_files w folder_path in
  Permutation (completion (enumerate_from 0 video_files))
              (enumerate_from 0 video_files) ->
  let st' := snd (process_folder w st completion folder_path) in
  (forall q, path_exists st q = true -> path_exists st' q = true)
  /\ (forall q, path_exists st' q = true ->
      path_exists st q = true
      \/ exists v, In v video_files /\ q = sheet_path v)
  /\ match fst (process_folder w st completion folder_path) with
     | Some r =>
         successful r
         <= Z.of_nat (List.length (filter (has_sheet st') video_files))
     | None => st' = st
     end.
Proof.
  intros video_files Hperm st'.
  destruct video_files as [|v rest] eqn:E.
  { unfold st', process_folder. fold video_files. rewrite E. cbn.
    repeat split; auto. }
  unfold st'. unfold video_files in E.
  rewrite (process_folder_unfold w st completion folder_path v rest E).
  cbn [fst snd successful].
  set (tasks := completion (enumerate_from 0 (v :: rest))) in *.
  set (n := Z.of_nat (List.length (v :: rest))).
  split; [|split].
  - intros q. apply run_tasks_keeps.
  - intros q Hq. destruct (run_tasks_adds w n tasks q st Hq) as [H|(task & Hin & ->)];
      [now left|right].
    exists (fst task). split; [|reflexivity].
    apply (enumerate_from_fst _ 0). now apply (Permutation_in _ Hperm).
  - etransitivity; [apply run_tasks_true_sheets|].
    rewrite (Permutation_filter_length _ _ _ Hperm), filter_enumerate_from.
    lia.
Qed.

(** The theorem for the sample folder, the tasks completing in reverse
    order. *)
Lemma process_folder_sheets_witness :
  path_exists (snd (process_folder sample_world ["/v/old.txt"] (@rev _) "/v"))
    "/v/old.txt" = true.
Proof.
  exact (proj1 (process_folder_sheets sample_world ["/v/old.txt"] (@rev _) "/v"
                  (Permutation_sym (Permutation_rev _))) "/v/old.txt" eq_refl).
Defined.

(** X13.  Running the batch a second time on the same folder, in
    whatever order the tasks complete, never does worse: the same videos are
    found, every video whose sheet the first run left is skipped and counted
    as successful, so that the second run reports at least as many successes
    and at most as many failures as the first. *)
Theorem process_folder_again (w : World) (st : state)
    (completion completion' : list (string * Z) -> list (string * Z))
    (folder_path : string) (r : batch_result) (st' : state) :
  let video_files := find_video_files w folder_path in
  Permutation (completion (enumerate_from 0 video_files))
              (enumerate_from 0 video_files) ->
  Permutation (completion' (enumerate_from 0 video_files))
              (enumerate_from 0 video_files) ->
  process_folder w st completion folder_path = (Some r, st') ->
  exists r' st'',
    process_folder w st' completion' folder_path = (Some r', st'')
    /\ total r' = total r
    /\ successful r <= successful r'
    /\ failed r' <= failed r.
Proof.
  intros video_files Hperm Hperm' H.
  destruct video_files as [|v rest] eqn:E.
  { unfold process_folder in H. fold video_files in H. rewrite E in H.
    discriminate. }
  unfold video_files in E.
  rewrite (process_folder_unfold w st completion folder_path v rest E) in H.
  rewrite (process_folder_unfold w st' completion' folder_path v rest E).
  set (n := Z.of_nat (List.length (v :: rest))) in *.
  set (tasks := completion (enumerate_from 0 (v :: rest))) in *.
  set (tasks' := completion' (enumerate_from 0 (v :: rest))) in *.
  cbn zeta in H. injection H as <- <-.
  eexists _, _. split; [reflexivity|]. cbn [total successful failed].
  assert (S : count_of succeeded (fst (fst (run_tasks w st n tasks)))
              <= count_of succeeded
                   (fst (fst (run_tasks w (snd (run_tasks w st n tasks)) n tasks')))).
  { etransitivity; [apply run_tasks_true_sheets|].
    etransitivity; [|apply (run_tasks_skips w n (snd (run_tasks w st n tasks)));
                     auto].
    rewrite (Permutation_filter_length _ _ _ Hperm).
    rewrite (Permutation_filter_length _ _ _ Hperm'). lia. }
  split; [reflexivity|]. split; [exact S|].
  pose proof (count_partition (fst (fst (run_tasks w st n tasks)))) as P.
  pose proof (count_partition
                (fst (fst (run_tasks w (snd (run_tasks w st n tasks)) n tasks'))))
    as P'.
  rewrite run_tasks_length in P, P'.
  rewrite (Permutation_length Hperm) in P.
  rewrite (Permutation_length Hperm') in P'. lia.
Qed.

(** The theorem for the sample folder: the second run skips the three
    videos. *)
Lemma process_folder_again_witness :
  exists r' st'',
    process_folder sample_world ["/v/c_sheet.jpg"; "/v/b_sheet.jpg"; "/v/a_sheet.jpg"]
      (fun l => l) "/v" = (Some r', st'')
    /\ total r' = 3 /\ 3 <= successful r' /\ failed r' <= 0.
Proof.
  exact (process_folder_again sample_world [] (fun l => l) (fun l => l) "/v"
           {| total := 3; successful := 3; failed := 0 |}
           ["/v/c_sheet.jpg"; "/v/b_sheet.jpg"; "/v/a_sheet.jpg"]
           (Permutation_refl _) (Permutation_refl _) eq_refl).
Defined.

(** ** The geometry of the sheet *)

Lemma cells_apart_grid th i k :
  0 < th -> 0 <= i -> 0 <= k -> i <> k ->
  cells_apart (cell_x i) (cell_y th i) (cell_x k) (cell_y th k) thumb_width th.
Proof.
  intros Hth Hi Hk Hik.
  unfold cells_apart, cell_x, cell_y, thumb_width, header_bottom, GRID_COLUMNS,
    MARGIN, SHEET_WIDTH, FONT_SIZE.
  change ((1920 - (5 + 1) * 5) / 5) with 378.
  pose proof (Z.mod_pos_bound i 5 ltac:(lia)).
  pose proof (Z.mod_pos_bound k 5 ltac:(lia)).
  pose proof (Z.div_mod i 5 ltac:(lia)).
  pose proof (Z.div_mod k 5 ltac:(lia)).
  destruct (Z.lt_total (i mod 5) (k mod 5)) as [L|[E|L]]; [lia| |lia].
  destruct (Z.lt_total (i / 5) (k / 5)) as [L|[E'|L]]; [|lia|].
  - right; right; left. nia.
  - right; right; right. nia.
Qed.

Lemma place_thumbnail_below w tf th y0 idx thumb op :
  0 <= idx -> In op (place_thumbnail w tf th y0 idx thumb) -> y0 <= op_y op.
Proof.
  intros Hidx. unfold place_thumbnail. destruct thumb as [tp ts].
  destruct (image_open w tp); [|intros []].
  unfold resize_ok. change (0 <? thumb_width) with true. cbn [andb].
  destruct (Z.ltb_spec 0 th) as [L|L]; cbn [andb]; [|intros []].
  destruct (image_resize w tp thumb_width th); [|intros []].
  assert (0 <= idx / GRID_COLUMNS * (th + MARGIN)).
  { unfold GRID_COLUMNS, MARGIN. pose proof (Z.div_pos idx 5 Hidx ltac:(lia)). nia. }
  intros [<-|H']; [cbn; lia|].
  destruct (format_timestamp ts); [destruct (textsize w tf a)|]; cbn [In] in H';
    [|destruct H'].
  destruct H' as [<-|[<-|[]]]; cbn; lia.
Qed.

Lemma build_sheet_exact w p first rest info iw ih th shown :
  image_open w (fst first) = Some (iw, ih) ->
  thumb_height_of iw ih = Ok th ->
  image_new w SHEET_WIDTH (canvas_height th) = Ok tt ->
  format_timestamp (duration info) = Ok shown ->
  build_sheet w p (first :: rest) info
  = Some {| sheet_width := SHEET_WIDTH;
            sheet_height := GRID_ROWS * (th + MARGIN) + MARGIN + info_header_height;
            ops := [DrawText 5 5 ("Filename: " ++ basename p) (load_font w FONT_SIZE);
                    DrawText 5 29 ("Size: " ++ size info) (load_font w FONT_SIZE);
                    DrawText 5 53 ("Resolution: " ++ resolution info)
                      (load_font w FONT_SIZE);
                    DrawText 5 77 ("Video Codec: " ++ codec info)
                      (load_font w FONT_SIZE);
                    DrawText 5 101 ("Duration: " ++ shown) (load_font w FONT_SIZE)]
                   ++ place_from w (load_font w TIME_FONT_SIZE) th header_bottom 0
                        (first :: rest) |}.
Proof.
  intros Ho Hh Hn Hd. unfold build_sheet, build_sheet_body.
  rewrite Ho, Hh. cbn [bind]. fold (canvas_height th). rewrite Hn. cbn [bind].
  rewrite Hd. reflexivity.
Qed.

Lemma build_sheet_ops w p first rest info iw ih th shown s :
  image_open w (fst first) = Some (iw, ih) ->
  thumb_height_of iw ih = Ok th ->
  image_new w SHEET_WIDTH (canvas_height th) = Ok tt ->
  format_timestamp (duration info) = Ok shown ->
  build_sheet w p (first :: rest) info = Some s ->
  ops s
  = [DrawText 5 5 ("Filename: " ++ basename p) (load_font w FONT_SIZE);
     DrawText 5 29 ("Size: " ++ size info) (load_font w FONT_SIZE);
     DrawText 5 53 ("Resolution: " ++ resolution info) (load_font w FONT_SIZE);
     DrawText 5 77 ("Video Codec: " ++ codec info) (load_font w FONT_SIZE);
     DrawText 5 101 ("Duration: " ++ shown) (load_font w FONT_SIZE)]
    ++ place_from w (load_font w TIME_FONT_SIZE) th header_bottom 0
         (first :: rest).
Proof.
  intros Ho Hh Hn Hd E.
  rewrite (build_sheet_exact w p first rest info iw ih th shown Ho Hh Hn Hd) in E.
  injection E as <-. reflexivity.
Qed.

Lemma format_timestamp_not_finite x :
  finite_num x = false -> exists e, format_timestamp x = Raise e.
Proof.
  destruct x as [z|f]; [discriminate|]. cbn [finite_num].
  unfold format_timestamp, int_of, int_of_float, is_finite, is_nan, is_infinity.
  rewrite !eqb_spec, abs_spec.
  change (Prim2SF infinity) with (S754_infinity false).
  destruct (Prim2SF f) as [s|s| |s m e]; cbn; intros H; eauto; try discriminate.
  exfalso. revert H. unfold SFeqb, SFcompare.
  destruct s; rewrite Z.compare_refl, Pos.compare_cont_refl; discriminate.
Qed.

(** X14.  In a sheet [build_sheet] returns, all thumbnails are pasted
    with the same size, and no two of them touch: two pastes are one and
    the same, or their cells lie at least a margin apart, side by side or
    one above the other, whatever the number of thumbnails. *)
Theorem build_sheet_cells_disjoint (w : World) (video_path : string)
    (thumbnails : list (string * num)) (info : video_info) (s : sheet) :
  build_sheet w video_path thumbnails info = Some s ->
  forall src x y cw ch src' x' y' cw' ch',
    In (PasteImage src x y cw ch) (ops s) ->
    In (PasteImage src' x' y' cw' ch') (ops s) ->
    cw = cw' /\ ch = ch'
    /\ ((src = src' /\ x = x' /\ y = y') \/ cells_apart x y x' y' cw ch).
Proof.
  intros E. destruct thumbnails as [|first rest]; [discriminate|].
  destruct (build_sheet_inv _ _ _ _ _ _ E)
    as (iw & ih & th & shown & Ho & Eth & Hn & Hd).
  destruct (build_sheet_pastes w video_path first rest info iw ih th shown
              Ho Eth Hn Hd)
    as (s' & E' & _ & _ & Hp).
  assert (s' = s) by congruence. subst s'.
  intros src x y cw ch src' x' y' cw' ch' H H'.
  apply Hp in H as (i & ts & Hi & -> & -> & -> & -> & _ & Hth).
  apply Hp in H' as (k & ts' & Hk & -> & -> & -> & -> & _).
  split; [reflexivity|]. split; [reflexivity|].
  destruct (Nat.eq_dec i k) as [<-|N].
  - left. split; [congruence|]. split; reflexivity.
  - right. apply cells_apart_grid; lia.
Qed.

(** The theorem for the second and the seventh of 26 thumbnails in the sample
    world. *)
Lemma build_sheet_cells_disjoint_witness :
  cells_apart 388 133 388 350 378 212.
Proof.
  destruct (build_sheet_pastes sample_world "/v/a.mp4" ("thumb_00.jpg", PyInt 0)
              (tl (thumbs_named 26)) sample_info 1920 1080 212 "00:02:00"
              eq_refl eq_refl eq_refl eq_refl) as (s & E & _ & _ & Hp).
  destruct (build_sheet_cells_disjoint sample_world "/v/a.mp4" (thumbs_named 26)
              sample_info s E
              "thumb_01.jpg" 388 133 378 212 "thumb_06.jpg" 388 350 378 212)
    as (_ & _ & [(H & _)|H]).
  - apply Hp. exists 1%nat, (PyInt 0).
    repeat split; try reflexivity; discriminate.
  - apply Hp. exists 6%nat, (PyInt 0).
    repeat split; try reflexivity; discriminate.
  - discriminate H.
  - exact H.
Defined.

(** X15.  A sheet [build_sheet] returns starts with five lines of text
    in the header font, at the left margin, one every [FONT_SIZE + 2]
    pixels from the top margin on: the file name, the size, the
    resolution, the codec and the duration as a timecode, in this order.
    They end above the grid, and everything drawn after them, thumbnails,
    timecodes and their backgrounds, starts at or below the line where the
    grid begins. *)
Theorem build_sheet_header (w : World) (video_path : string)
    (thumbnails : list (string * num)) (info : video_info) (s : sheet) :
  build_sheet w video_path thumbnails info = Some s ->
  exists shown grid,
    format_timestamp (duration info) = Ok shown
    /\ ops s
       = map (fun '(k, text) =>
                DrawText MARGIN (MARGIN + k * (FONT_SIZE + 2)) text
                  (load_font w FONT_SIZE))
           [(0, ("Filename: " ++ basename video_path)%string);
            (1, ("Size: " ++ size info)%string);
            (2, ("Resolution: " ++ resolution info)%string);
            (3, ("Video Codec: " ++ codec info)%string);
            (4, ("Duration: " ++ shown)%string)]
         ++ grid
    /\ MARGIN + 4 * (FONT_SIZE + 2) + FONT_SIZE < header_bottom
    /\ forall op, In op grid -> header_bottom <= op_y op.
Proof.
  intros E. destruct thumbnails as [|first rest]; [discriminate|].
  destruct (build_sheet_inv _ _ _ _ _ _ E)
    as (iw & ih & th & shown & Ho & Eth & Hn & Hd).
  rewrite (build_sheet_exact w video_path first rest info iw ih th shown
             Ho Eth Hn Hd)
    in E. injection E as <-.
  exists shown,
    (place_from w (load_font w TIME_FONT_SIZE) th header_bottom 0 (first :: rest)).
  split; [exact Hd|]. split; [reflexivity|]. split; [reflexivity|].
  intros op H. apply place_from_In in H as (k & thumb & _ & H).
  apply place_thumbnail_below in H; lia.
Qed.

(** The theorem in the sample world: the last line of the header. *)
Lemma build_sheet_header_witness :
  exists s,
    build_sheet sample_world "/v/a.mp4" (thumbs_named 3) sample_info = Some s
    /\ nth_error (ops s) 4
       = Some (DrawText 5 101 "Duration: 00:02:00" (TrueType 22)).
Proof.
  destruct (build_sheet_pastes sample_world "/v/a.mp4" ("thumb_00.jpg", PyInt 0)
              (tl (thumbs_named 3)) sample_info 1920 1080 212 "00:02:00"
              eq_refl eq_refl eq_refl eq_refl) as (s & E & _).
  exists s. split; [exact E|].
  destruct (build_sheet_header sample_world "/v/a.mp4" (thumbs_named 3)
              sample_info s E) as (shown & grid & Hd & -> & _).
  injection Hd as <-. reflexivity.
Defined.

(** X16.  [build_sheet] returns no sheet when the duration is a
    float that is no number or is infinite, whatever the thumbnails; nor
    when the first thumbnail does not open, or opens with a width of 0; nor
    when the canvas of the sheet cannot be made, as when its height is
    beyond the range of a C [int].  For a first thumbnail that opens with a
    width and a height below [2^31] these are the only causes: no sheet is
    returned exactly when the duration is not finite, or the height of the
    sheet is [2^31] or more, or there is no memory for its canvas. *)
Theorem build_sheet_fails (w : World) (video_path : string)
    (first : string * num) (rest : list (string * num)) (info : video_info) :
  (forall thumbnails,
      finite_num (duration info) = false ->
      build_sheet w video_path thumbnails info = None)
  /\ (image_open w (fst first) = None ->
      build_sheet w video_path (first :: rest) info = None)
  /\ (forall ih, image_open w (fst first) = Some (0, ih) ->
      build_sheet w video_path (first :: rest) info = None)
  /\ (forall iw ih th e,
        image_open w (fst first) = Some (iw, ih) ->
        thumb_height_of iw ih = Ok th ->
        (2 ^ 31 <= canvas_height th
         \/ image_new w SHEET_WIDTH (canvas_height th) = Raise e) ->
        build_sheet w video_path (first :: rest) info = None)
  /\ (forall iw ih,
        image_open w (fst first) = Some (iw, ih) ->
        0 < iw < 2 ^ 31 -> 0 < ih < 2 ^ 31 ->
        exists th,
          thumb_height_of iw ih = Ok th
          /\ (build_sheet w video_path (first :: rest) info = None
              <-> finite_num (duration info) = false
                  \/ 2 ^ 31 <= canvas_height th
                  \/ canvas_ok w SHEET_WIDTH (canvas_height th) = false)).
Proof.
  assert (A : forall thumbnails, finite_num (duration info) = false ->
              build_sheet w video_path thumbnails info = None).
  { intros [|f r] H; [reflexivity|].
    destruct (build_sheet w video_path (f :: r) info) as [s|] eqn:E;
      [|reflexivity].
    destruct (build_sheet_inv _ _ _ _ _ _ E)
      as (_ & _ & _ & shown & _ & _ & _ & Hd).
    destruct (format_timestamp_not_finite _ H) as [e He]. congruence. }
  assert (B : forall iw ih th,
              image_open w (fst first) = Some (iw, ih) ->
              thumb_height_of iw ih = Ok th ->
              image_new w SHEET_WIDTH (canvas_height th) <> Ok tt ->
              build_sheet w video_path (first :: rest) info = None).
  { intros iw ih th Ho Eth Hn.
    destruct (build_sheet w video_path (first :: rest) info) as [s|] eqn:E;
      [|reflexivity].
    destruct (build_sheet_inv _ _ _ _ _ _ E)
      as (iw' & ih' & th' & shown & Ho' & Eth' & Hn' & _).
    rewrite Ho in Ho'. injection Ho' as <- <-.
    rewrite Eth in Eth'. injection Eth' as <-. contradiction. }
  assert (C : forall th, 2 ^ 31 <= canvas_height th ->
              image_new w SHEET_WIDTH (canvas_height th) <> Ok tt).
  { intros th H. unfold image_new.
    destruct (_ || _); [discriminate|].
    destruct (Z.leb_spec (2 ^ 31) (canvas_height th)); [|lia].
    rewrite orb_true_r. discriminate. }
  split; [exact A|]. split; [|split; [|split]].
  - intros H. unfold build_sheet, build_sheet_body. now rewrite H.
  - intros ih H. unfold build_sheet, build_sheet_body. rewrite H.
    unfold thumb_height_of, truediv, int_truediv. reflexivity.
  - intros iw ih th e Ho Eth [H|H]; apply (B iw ih th Ho Eth);
      [now apply C|congruence].
  - intros iw ih Ho Hw Hh.
    destruct (thumb_height_of_total iw ih Hw Hh) as (th & Eth & Bth).
    assert (H0 : 0 <= th) by (apply (thumb_height_nonneg iw ih); lia).
    exists th. split; [exact Eth|]. split.
    + intros E. destruct (finite_num (duration info)) eqn:F; [|now left].
      right. destruct (Z_lt_le_dec (canvas_height th) (2 ^ 31)) as [L|L];
        [right|now left].
      destruct (canvas_ok w SHEET_WIDTH (canvas_height th)) eqn:K; [|reflexivity].
      exfalso. destruct (format_timestamp_total _ F) as (shown & Hd).
      assert (Hn : image_new w SHEET_WIDTH (canvas_height th) = Ok tt)
        by (apply image_new_ok_iff; auto).
      rewrite (build_sheet_exact w video_path first rest info iw ih th shown
                 Ho Eth Hn Hd) in E. discriminate.
    + intros [F|[L|K]]; [now apply A| |].
      * apply (B iw ih th Ho Eth). now apply C.
      * apply (B iw ih th Ho Eth). intros Hn.
        apply image_new_ok_iff in Hn as [_ Hn]; [congruence|exact H0].
Qed.

(** The theorem for frames of 1 by 1200000 pixels: the sheet would be
    2268000160 pixels high, and none is returned. *)
Lemma build_sheet_fails_witness :
  build_sheet tall_frame_world "/v/a.mp4" (thumbs_named 3) sample_info = None.
Proof.
  refine (proj1 (proj2 (proj2 (proj2
    (build_sheet_fails tall_frame_world "/v/a.mp4" ("thumb_00.jpg", PyInt 0)
       (tl (thumbs_named 3)) sample_info)))) 1 1200000 453600000 ValueError
       eq_refl eq_refl _).
  left. vm_compute. discriminate.
Defined.

(** ** Timecodes on the sheet *)

Lemma place_thumbnail_timecode w tf th y0 i tp ts shown :
  image_open w tp <> None -> 0 < th ->
  image_resize w tp thumb_width th = true ->
  format_timestamp ts = Ok shown ->
  let x := MARGIN + (i mod GRID_COLUMNS) * (thumb_width + MARGIN) in
  let y := y0 + (i / GRID_COLUMNS) * (th + MARGIN) in
  place_thumbnail w tf th y0 i (tp, ts)
  = [PasteImage tp x y thumb_width th;
     PasteBackground (x + 5) (y + 5) (fst (textsize w tf shown) + 6)
       (snd (textsize w tf shown) + 2);
     DrawText (x + 8) (y + 5) shown tf].
Proof.
  intros Ho Hth Hr Hf. unfold place_thumbnail.
  destruct (image_open w tp); [|congruence].
  unfold resize_ok. change (0 <? thumb_width) with true.
  destruct (Z.ltb_spec 0 th); [|lia]. cbn [andb]. rewrite Hr, Hf.
  now destruct (textsize w tf shown).
Qed.

Lemma place_thumbnail_no_timecode w tf th y0 i tp ts e :
  image_open w tp <> None -> 0 < th ->
  image_resize w tp thumb_width th = true ->
  format_timestamp ts = Raise e ->
  place_thumbnail w tf th y0 i (tp, ts)
  = [PasteImage tp (MARGIN + (i mod GRID_COLUMNS) * (thumb_width + MARGIN))
       (y0 + (i / GRID_COLUMNS) * (th + MARGIN)) thumb_width th].
Proof.
  intros Ho Hth Hr Hf. unfold place_thumbnail.
  destruct (image_open w tp); [|congruence].
  unfold resize_ok. change (0 <? thumb_width) with true.
  destruct (Z.ltb_spec 0 th); [|lia]. cbn [andb]. now rewrite Hr, Hf.
Qed.

(** X17.  In a sheet [build_sheet] returns, every thumbnail pasted
    carries its own timestamp as a timecode: the text is drawn in the time
    font 8 pixels right of and 5 pixels below the corner of the cell, over a
    background that starts 5 pixels right of and below the corner and is
    6 pixels wider and 2 pixels higher than the text.  A thumbnail whose
    timestamp cannot be formatted is pasted all the same, without timecode:
    no text is drawn in its cell. *)
Theorem build_sheet_timecodes (w : World) (video_path : string)
    (first : string * num) (rest : list (string * num)) (info : video_info)
    (s : sheet) :
  build_sheet w video_path (first :: rest) info = Some s ->
  exists iw ih th,
    image_open w (fst first) = Some (iw, ih)
    /\ thumb_height_of iw ih = Ok th
    /\ forall i src ts,
      nth_error (first :: rest) i = Some (src, ts) ->
      In (PasteImage src (cell_x (Z.of_nat i)) (cell_y th (Z.of_nat i))
            thumb_width th) (ops s) ->
      let time_font := load_font w TIME_FONT_SIZE in
      (forall shown,
          format_timestamp ts = Ok shown ->
          In (DrawText (cell_x (Z.of_nat i) + 8) (cell_y th (Z.of_nat i) + 5)
                shown time_font) (ops s)
          /\ In (PasteBackground (cell_x (Z.of_nat i) + 5)
                   (cell_y th (Z.of_nat i) + 5)
                   (fst (textsize w time_font shown) + 6)
                   (snd (textsize w time_font shown) + 2)) (ops s))
      /\ (forall e text f,
            format_timestamp ts = Raise e ->
            ~ In (DrawText (cell_x (Z.of_nat i) + 8) (cell_y th (Z.of_nat i) + 5)
                    text f) (ops s)).
Proof.
  intros E.
  destruct (build_sheet_inv _ _ _ _ _ _ E)
    as (iw & ih & th & shown0 & Ho & Eth & Hn & Hd).
  destruct (build_sheet_pastes w video_path first rest info iw ih th shown0
              Ho Eth Hn Hd)
    as (s' & E' & _ & _ & Hp).
  assert (s' = s) by congruence. subst s'.
  pose proof (build_sheet_ops w video_path first rest info iw ih th shown0 s
                Ho Eth Hn Hd E) as Es.
  exists iw, ih, th. split; [exact Ho|]. split; [exact Eth|].
  intros i src ts Hi Hin time_font.
  apply Hp in Hin as (k & ts' & Hk & Hx & Hy & _ & _ & Hopen & Hth & Hr).
  split.
  - intros shown Hf. rewrite Es.
    split; (apply in_or_app; right; apply place_from_In; exists i, (src, ts);
            split; [exact Hi|]; rewrite Z.add_0_l;
            rewrite (place_thumbnail_timecode w _ th _ _ src ts shown
                       Hopen Hth Hr Hf)).
    + right. right. left. reflexivity.
    + right. left. reflexivity.
  - intros e text f Hf Hin. rewrite Es in Hin.
    apply in_app_or in Hin as [Hin|Hin].
    + (* the header is drawn above the grid *)
      assert (Hy' : header_bottom <= cell_y th (Z.of_nat i)).
      { unfold cell_y, GRID_COLUMNS, MARGIN.
        pose proof (Z.div_pos (Z.of_nat i) 5 ltac:(lia) ltac:(lia)). nia. }
      unfold header_bottom, MARGIN, FONT_SIZE in Hy'.
      cbn [In] in Hin.
      repeat (destruct Hin as [Hin|Hin]; [injection Hin as _ Hin _ _; lia|]).
      destruct Hin.
    + apply place_from_In in Hin as (j & [src' ts''] & Hj & Hin).
      rewrite Z.add_0_l in Hin.
      destruct (Nat.eq_dec j i) as [->|N].
      * rewrite Hi in Hj. injection Hj as <- <-.
        rewrite (place_thumbnail_no_timecode w _ th _ _ src ts e
                   Hopen Hth Hr Hf) in Hin.
        destruct Hin as [Hin|[]]. discriminate.
      * (* the text of another cell lies elsewhere *)
        unfold place_thumbnail in Hin.
        destruct (image_open w src'); [|destruct Hin].
        destruct (resize_ok thumb_width th && image_resize w src' thumb_width th);
          [|destruct Hin].
        destruct Hin as [Hin|Hin]; [discriminate|].
        destruct (format_timestamp ts'') as [t|]; [|destruct Hin].
        destruct (textsize w (load_font w TIME_FONT_SIZE) t).
        destruct Hin as [Hin|[Hin|[]]]; [discriminate|].
        pose proof (f_equal op_x Hin) as Hx'.
        pose proof (f_equal op_y Hin) as Hy'. cbn [op_x op_y] in Hx', Hy'.
        assert (Z.of_nat j = Z.of_nat i); [|lia].
        apply (cell_injective th); try lia.
        -- unfold cell_x in *. lia.
        -- unfold cell_y in *. lia.
Qed.

(** The theorem in the sample world: the timecode of the second
    thumbnail. *)
Lemma build_sheet_timecodes_witness :
  exists s,
    build_sheet sample_world "/v/a.mp4" (thumbs_named 3) sample_info = Some s
    /\ In (DrawText 396 138 "00:00:00" (TrueType 18)) (ops s).
Proof.
  destruct (build_sheet_pastes sample_world "/v/a.mp4" ("thumb_00.jpg", PyInt 0)
              (tl (thumbs_named 3)) sample_info 1920 1080 212 "00:02:00"
              eq_refl eq_refl eq_refl eq_refl) as (s & E & _ & _ & Hp).
  exists s. split; [exact E|].
  destruct (build_sheet_timecodes sample_world "/v/a.mp4"
              ("thumb_00.jpg", PyInt 0) (tl (thumbs_named 3)) sample_info s E)
    as (iw & ih & th & Ho & Eth & H).
  injection Ho as <- <-. vm_compute in Eth. injection Eth as <-.
  apply (H 1%nat "thumb_01.jpg" (PyInt 0) eq_refl).
  - apply Hp. exists 1%nat, (PyInt 0). repeat split; try reflexivity; discriminate.
  - reflexivity.
Defined.

(** ** Divisions that are exact *)

Lemma shr_fexp_id m e :
  2 ^ 52 <= m < 2 ^ 53 -> -1074 <= e ->
  shr_fexp prec emax m e loc_Exact
  = ({| shr_m := m; shr_r := false; shr_s := false |}, e).
Proof.
  intros Hm He. unfold shr_fexp. rewrite fexp_eq.
  rewrite (Zdigits2_unique m 53) by lia.
  replace (Z.max (53 + e - 53) (-1074) - e) with 0 by lia. reflexivity.
Qed.

(** Shifting out zeros leaves an exact record. *)
Lemma shr_exact m e n :
  0 < m -> 0 <= n -> (2 ^ n | m) ->
  shr {| shr_m := m; shr_r := false; shr_s := false |} e n
  = ({| shr_m := m / 2 ^ n; shr_r := false; shr_s := false |}, e + n).
Proof.
  intros Hm Hn [k Hk].
  pose proof (shr_spec (IZR m) {| shr_m := m; shr_r := false; shr_s := false |} e n)
    as S.
  cbn [shr_m] in S. specialize (S ltac:(lia) Hn eq_refl).
  destruct (shr _ e n) as [mrs' e']. destruct S as (I & -> & M).
  f_equal. assert (P : 0 < 2 ^ n) by (apply Z.pow_pos_nonneg; lia).
  assert (X : (IZR m / pow2 n = IZR (shr_m mrs'))%R).
  { rewrite M, Hk, Z.div_mul by lia. rewrite mult_IZR, <- pow2_IZR by lia.
    pose proof (pow2_pos n). field. lra. }
  rewrite X in I. destruct mrs' as [m' r s]. cbn [shr_m] in *.
  unfold inbetween in I. cbn [shr_m shr_r shr_s] in I.
  destruct r, s; try lra. now rewrite M.
Qed.

Lemma binary_round_aux_shift sx mx ex :
  0 < mx -> 53 <= Zdigits2 mx -> (2 ^ (Zdigits2 mx - 53) | mx) ->
  -1074 <= ex + (Zdigits2 mx - 53) <= 971 ->
  binary_round_aux prec emax sx mx ex loc_Exact
  = S754_finite sx (Z.to_pos (mx / 2 ^ (Zdigits2 mx - 53)))
      (ex + (Zdigits2 mx - 53)).
Proof.
  intros Hm Hd Hdiv He. unfold binary_round_aux.
  set (n := Zdigits2 mx - 53) in *.
  assert (S1 : shr_fexp prec emax mx ex loc_Exact
               = ({| shr_m := mx / 2 ^ n; shr_r := false; shr_s := false |}, ex + n)).
  { unfold shr_fexp. rewrite fexp_eq.
    replace (Z.max (Zdigits2 mx + ex - 53) (-1074) - ex) with n by lia.
    apply shr_exact; [lia|lia|exact Hdiv]. }
  rewrite S1. cbn [shr_m loc_of_shr_record round_nearest_even].
  assert (B : 2 ^ 52 <= mx / 2 ^ n < 2 ^ 53).
  { pose proof (Zdigits2_bounds mx Hm) as B.
    assert (P : 0 < 2 ^ n) by (apply Z.pow_pos_nonneg; lia).
    replace (Zdigits2 mx - 1) with (52 + n) in B by lia.
    replace (Zdigits2 mx) with (53 + n) in B by lia.
    rewrite !Z.pow_add_r in B by lia. split.
    - apply Z.div_le_lower_bound; lia.
    - apply Z.div_lt_upper_bound; lia. }
  rewrite shr_fexp_id by lia. cbn [shr_m].
  destruct (mx / 2 ^ n) as [|q|q] eqn:Q; [lia| |lia].
  replace (ex + n <=? emax - prec) with true; [reflexivity|].
  symmetry. apply Z.leb_le. change (emax - prec) with 971. lia.
Qed.

(** The quotient of a number of bytes by [2^20], as the division computes
    it. *)
Lemma div_core_mib p :
  Zdigits2 (Z.pos p) <= 53 ->
  SFdiv_core_binary prec emax (Z.pos p) 0 1048576 0
  = (Z.pos p * 2 ^ (54 - Zdigits2 (Z.pos p)), Zdigits2 (Z.pos p) - 74, loc_Exact).
Proof.
  intros Hd. unfold SFdiv_core_binary.
  set (d := Zdigits2 (Z.pos p)) in *.
  assert (Hd0 : 0 < d) by (apply Zdigits2_pos; lia).
  change (Zdigits2 1048576) with 21. rewrite fexp_eq.
  replace (Z.min (Z.max (d + 0 - (21 + 0) - 53) (-1074)) (0 - 0)) with (d - 74)
    by lia.
  replace (0 - 0 - (d - 74)) with (74 - d) by lia.
  destruct (74 - d) as [|s|s] eqn:S; [lia| |lia].
  rewrite Z.shiftl_mul_pow2 by lia. rewrite <- S.
  assert (A : Z.pos p * 2 ^ (74 - d) = Z.pos p * 2 ^ (54 - d) * 1048576).
  { replace (74 - d) with (54 - d + 20) by lia.
    rewrite Z.pow_add_r by lia. change (2 ^ 20) with 1048576. ring. }
  rewrite A.
  pose proof (Z_div_mod (Z.pos p * 2 ^ (54 - d) * 1048576) 1048576 eq_refl) as E.
  destruct (Z.div_eucl _ 1048576) as [q r]. destruct E as [E R].
  assert (r = 0 /\ q = Z.pos p * 2 ^ (54 - d)) as [-> ->] by lia.
  reflexivity.
Qed.

Lemma digits_shift m k :
  0 < m -> 0 <= k -> Zdigits2 (m * 2 ^ k) = Zdigits2 m + k.
Proof.
  intros Hm Hk. pose proof (Zdigits2_bounds m Hm) as B.
  pose proof (Zdigits2_pos m Hm) as P.
  assert (0 < 2 ^ k) by (apply Z.pow_pos_nonneg; lia).
  apply Zdigits2_unique; [|lia].
  replace (Zdigits2 m + k - 1) with (Zdigits2 m - 1 + k) by lia.
  rewrite !Z.pow_add_r by lia. nia.
Qed.

(** [bytes / (1024 * 1024)] for a size below [2^53]: no rounding. *)
Lemma int_truediv_mib bytes :
  0 < bytes < 2 ^ 53 ->
  let d := Zdigits2 bytes in
  exists m,
    Z.pos m = bytes * 2 ^ (53 - d)
    /\ exists f, int_truediv bytes (1024 * 1024) = Ok f
                 /\ Prim2SF f = S754_finite false m (d - 73).
Proof.
  intros Hb d. destruct bytes as [|p|p]; [lia| |lia].
  assert (Hd0 : 0 < d) by (apply Zdigits2_pos; lia).
  assert (Hd : d <= 53).
  { pose proof (Zdigits2_bounds (Z.pos p) ltac:(lia)) as B. fold d in B.
    destruct (Z_lt_le_dec 53 d) as [L|L]; [|lia].
    assert (2 ^ 53 <= 2 ^ (d - 1)) by (apply Z.pow_le_mono_r; lia). lia. }
  assert (P : 0 < 2 ^ (53 - d)) by (apply Z.pow_pos_nonneg; lia).
  exists (Z.to_pos (Z.pos p * 2 ^ (53 - d))).
  split; [rewrite Z2Pos.id; lia|].
  unfold int_truediv. change (1024 * 1024 =? 0) with false.
  cbn [Z.abs Z.ltb Z.compare xorb]. change (Z.abs (1024 * 1024)) with 1048576.
  change (1024 * 1024 <? 0) with false. cbn [xorb].
  rewrite (div_core_mib p Hd). fold d.
  set (q := Z.pos p * 2 ^ (54 - d)).
  assert (Q : q = Z.pos p * 2 ^ (53 - d) * 2).
  { unfold q. replace (54 - d) with (53 - d + 1) by lia.
    rewrite Z.pow_add_r by lia. change (2 ^ 1) with 2. ring. }
  assert (Dq : Zdigits2 q = 54).
  { unfold q. rewrite digits_shift by lia. fold d. lia. }
  rewrite binary_round_aux_shift; rewrite ?Dq; try lia.
  2:{ exists (Z.pos p * 2 ^ (53 - d)). change (2 ^ (54 - 53)) with 2. exact Q. }
  change (2 ^ (54 - 53)) with 2. rewrite Q, Z.div_mul by lia.
  replace (d - 74 + (54 - 53)) with (d - 73) by lia.
  set (m := Z.to_pos (Z.pos p * 2 ^ (53 - d))).
  assert (Hm : 2 ^ 52 <= Z.pos m < 2 ^ 53).
  { unfold m. rewrite Z2Pos.id by lia.
    pose proof (Zdigits2_bounds (Z.pos p) ltac:(lia)) as B. fold d in B.
    assert (E52 : 2 ^ 52 = 2 ^ (d - 1) * 2 ^ (53 - d)).
    { rewrite <- Z.pow_add_r by lia. f_equal. lia. }
    assert (E53 : 2 ^ 53 = 2 ^ d * 2 ^ (53 - d)).
    { rewrite <- Z.pow_add_r by lia. f_equal. lia. }
    rewrite E52, E53. nia. }
  assert (N : normal_pos (SF2Prim (S754_finite false m (d - 73)))
                (F2R (Z.pos m) (d - 73))).
  { apply (normal_pos_of_spec _ false m (d - 73)); auto; lia. }
  destruct (normal_pos_tests _ _ N) as (-> & _).
  eexists. split; [reflexivity|].
  apply Prim2SF_SF2Prim. unfold valid_binary. apply bounded_normal; lia.
Qed.

(** Rounding a fraction does not depend on how it is written. *)
Lemma round_half_even_scale num den k :
  0 < den -> 0 < k ->
  round_half_even (num * k) (den * k) = round_half_even num den.
Proof.
  intros Hd Hk. unfold round_half_even.
  rewrite Z.div_mul_cancel_r by lia. rewrite Z.mul_mod_distr_r by lia.
  replace (den * k <? 2 * (num mod den * k)) with (den <? 2 * (num mod den)).
  - replace (den * k =? 2 * (num mod den * k)) with (den =? 2 * (num mod den));
      [reflexivity|].
    destruct (Z.eqb_spec den (2 * (num mod den))),
             (Z.eqb_spec (den * k) (2 * (num mod den * k))); auto; nia.
  - destruct (Z.ltb_spec den (2 * (num mod den))),
             (Z.ltb_spec (den * k) (2 * (num mod den * k))); auto; nia.
Qed.

Lemma fmt_2f_mib bytes f m :
  0 < bytes < 2 ^ 53 ->
  Z.pos m = bytes * 2 ^ (53 - Zdigits2 bytes) ->
  Prim2SF f = S754_finite false m (Zdigits2 bytes - 73) ->
  let n := round_half_even (bytes * 100) (1024 * 1024) in
  fmt_2f f = (str_of_Z (n / 100) ++ "." ++ two_digits (n mod 100))%string.
Proof.
  intros Hb Hm Hf n. set (d := Zdigits2 bytes) in *.
  assert (Hd0 : 0 < d) by (apply Zdigits2_pos; lia).
  assert (Hd : d <= 53).
  { pose proof (Zdigits2_bounds bytes ltac:(lia)) as B. fold d in B.
    destruct (Z_lt_le_dec 53 d) as [L|L]; [|lia].
    assert (2 ^ 53 <= 2 ^ (d - 1)) by (apply Z.pow_le_mono_r; lia). lia. }
  assert (P : 0 < 2 ^ (53 - d)) by (apply Z.pow_pos_nonneg; lia).
  unfold fmt_2f. rewrite Hf.
  destruct (Z.leb_spec 0 (d - 73)); [lia|].
  fold (round_half_even (Z.pos m * 100) (2 ^ (- (d - 73)))).
  assert (E : round_half_even (Z.pos m * 100) (2 ^ (- (d - 73))) = n).
  { unfold n. rewrite Hm.
    replace (- (d - 73)) with (20 + (53 - d)) by lia.
    rewrite Z.pow_add_r by lia. change (2 ^ 20) with (1024 * 1024).
    replace (bytes * 2 ^ (53 - d) * 100) with (bytes * 100 * 2 ^ (53 - d)) by ring.
    apply round_half_even_scale; lia. }
  rewrite E.
  assert (Hn : 0 <= n).
  { unfold n, round_half_even.
    pose proof (Z.div_pos (bytes * 100) (1024 * 1024) ltac:(lia) ltac:(lia)).
    destruct (_ || _); lia. }
  pose proof (Z.div_pos n 100 Hn ltac:(lia)).
  pose proof (Z.mod_pos_bound n 100 ltac:(lia)).
  rewrite fmt02_two_digits by lia. unfold str_of_Z.
  destruct (Z.ltb_spec (n / 100) 0); [lia|].
  cbn [String.append]. do 2 f_equal.
  f_equal. lia.
Qed.

(** X18.  For a file of less than [2^53] bytes, the size
    [get_video_info] reports is the exact size in units of [1024 * 1024]
    bytes, rounded to two decimals, a half to the even digit: the integer
    part, a dot, two digits, and [ MB]. *)
Theorem get_video_info_size_exact (w : World) (video_path : string)
    (info : video_info) (bytes : Z) :
  get_video_info w video_path = Some info ->
  getsize w video_path = Ok bytes ->
  0 <= bytes < 2 ^ 53 ->
  let n := round_half_even (bytes * 100) (1024 * 1024) in
  size info
  = (str_of_Z (n / 100) ++ "." ++ two_digits (n mod 100) ++ " MB")%string.
Proof.
  unfold get_video_info.
  destruct (get_video_info_body w video_path) as [info'|] eqn:E; [|discriminate].
  intros [= ->] Hs Hb.
  set (n := round_half_even (bytes * 100) (1024 * 1024)).
  apply get_video_info_body_inv in E
    as (od & ow & oh & oc & bytes' & d & mb & _ & _ & _ & _ & _ & Hs' & Hm & ->).
  assert (bytes' = bytes) by congruence. subst bytes'. cbn [size].
  assert (F : fmt_2f mb
              = (str_of_Z (n / 100) ++ "." ++ two_digits (n mod 100))%string).
  { destruct (Z.eq_dec bytes 0) as [->|Hne].
    - injection Hm as <-. reflexivity.
    - destruct (int_truediv_mib bytes ltac:(lia)) as (m & Em & f & Ef & Pf).
      assert (f = mb) by congruence. subst f.
      apply (fmt_2f_mib bytes mb m); auto; lia. }
  rewrite F. now rewrite !append_assoc.
Qed.

(** The theorem in the sample world: 12345678 bytes are 11.77 MB. *)
Lemma get_video_info_size_exact_witness :
  option_map size (get_video_info sample_world "/v/a.mp4") = Some "11.77 MB".
Proof.
  destruct (get_video_info sample_world "/v/a.mp4") as [info|] eqn:E.
  - cbn [option_map]. f_equal.
    exact (get_video_info_size_exact sample_world "/v/a.mp4" info 12345678 E
             eq_refl ltac:(lia)).
  - vm_compute in E. discriminate E.
Defined.

(** X19.  [format_timestamp] drops the fraction of a second: for a
    finite float of at least [2^-960] seconds, of real value [v], the
    timecode is that of the integer [n] with [n <= v < n + 1]. *)
Theorem format_timestamp_truncates (seconds : float) :
  PrimFloat.leb 0x1p-960%float seconds = true ->
  PrimFloat.ltb seconds infinity = true ->
  exists v n,
    normal_pos seconds v
    /\ (IZR n <= v < IZR n + 1)%R
    /\ 0 <= n
    /\ format_timestamp (PyFloat seconds) = format_timestamp (PyInt n).
Proof.
  intros Hlo Hhi.
  destruct (normal_pos_of_bounds seconds Hlo Hhi) as (v & N & Hv).
  destruct (int_of_float_normal seconds v N) as (n & En & Bn).
  exists v, n. split; [exact N|]. split; [exact Bn|]. split.
  - pose proof (pow2_pos (-960)) as P.
    assert (L : (-1 < IZR n)%R) by lra.
    apply lt_IZR in L. lia.
  - unfold format_timestamp, int_of. now rewrite En.
Qed.

(** The theorem at 59.75 seconds. *)
Lemma format_timestamp_truncates_witness :
  exists n, format_timestamp (PyInt n) = Ok "00:00:59".
Proof.
  destruct (format_timestamp_truncates 59.75%float eq_refl eq_refl)
    as (v & n & _ & _ & _ & H).
  exists n. rewrite <- H. reflexivity.
Defined.

(** ** The entry point *)

Lemma In_map_Video log e : In e (map Video log) -> exists e', e = Video e'.
Proof. intros H. apply in_map_iff in H as (e' & <- & _). eauto. Qed.

(** X20.  The script exits with 0 exactly when its own files
    could be extracted, it was given a path that exists, and this path is a
    directory, or a file with a video extension for which [process_video]
    returns [True].  For a directory the status is 0 whatever the batch
    did, also when every video failed.  Without a path, with a path that
    does not exist or with a file that has no video extension, nothing is
    processed and no path is added. *)
Theorem script_exit_status (w : World) (h : Host) (st : state)
    (completion : list (string * Z) -> list (string * Z)) :
  let '(status, log, st') := script w h st completion in
  (status = 0 \/ status = 1)
  /\ (status = 0 <->
      extract_embedded_files h = true
      /\ exists program path others,
           argv h = program :: path :: others
           /\ path_exists st path = true
           /\ (isdir h path = true
               \/ (isdir h path = false
                   /\ In (lower (snd (splitext path))) VIDEO_EXTENSIONS
                   /\ fst (fst (process_video w st path 1 1)) = true)))
  /\ ((forall program path others,
         argv h = program :: path :: others ->
         path_exists st path = false
         \/ (isdir h path = false
             /\ ~ In (lower (snd (splitext path))) VIDEO_EXTENSIONS)) ->
      st' = st
      /\ forall e, In e log -> exists line, e = Say line \/ e = Ask line).
Proof.
  unfold script, main.
  destruct (extract_embedded_files h) eqn:X; cbn [negb].
  2:{ split; [now right|]. split.
      - split; [discriminate|intros [? _]; discriminate].
      - intros _. split; [reflexivity|].
        intros e [<-|[]]. eauto. }
  destruct (argv h) as [|program [|path others]] eqn:A.
  1,2: (split; [now right|]; split;
        [split; [discriminate|intros (_ & ? & ? & ? & ? & _); discriminate]|];
        intros _; split; [reflexivity|];
        cbn; intros e H; repeat (destruct H as [<-|H]; eauto); destruct H).
  destruct (path_exists st path) eqn:P; cbn [negb].
  2:{ split; [now right|]. split.
      - split; [discriminate|].
        intros (_ & ? & ? & ? & [= <- <- <-] & ? & _). congruence.
      - intros _. split; [reflexivity|].
        cbn; intros e H; repeat (destruct H as [<-|H]; eauto); destruct H. }
  destruct (isdir h path) eqn:D.
  { destruct (process_folder w st completion path) as [r st1].
    cbn [Z.eqb]. split; [now left|]. split.
    - split; [|reflexivity]. intros _. split; [reflexivity|].
      exists program, path, others. auto.
    - intros H. destruct (H _ _ _ eq_refl) as [?|[? _]]; congruence. }
  destruct (mem_string (lower (snd (splitext path))) VIDEO_EXTENSIONS) eqn:V.
  2:{ split; [now right|]. split.
      - split; [discriminate|].
        intros (_ & ? & ? & ? & [= <- <- <-] & _ & [?|(_ & V' & _)]);
          [congruence|].
        apply mem_string_In in V'. congruence.
      - intros _. split; [reflexivity|].
        cbn; intros e H; repeat (destruct H as [<-|H]; eauto); destruct H. }
  apply mem_string_In in V.
  destruct (process_video w st path 1 1) as [[ok log] st1] eqn:R.
  destruct ok; cbn [Z.eqb].
  - split; [now left|]. split.
    + split; [|reflexivity]. intros _. split; [reflexivity|].
      exists program, path, others. split; [reflexivity|]. split; [exact P|].
      right. rewrite R. auto.
    + intros H. destruct (H _ _ _ eq_refl) as [?|[_ ?]]; [congruence|contradiction].
  - split; [now right|]. split.
    + split; [discriminate|].
      intros (_ & ? & ? & ? & [= <- <- <-] & _ & [?|(_ & _ & T)]); [congruence|].
      rewrite R in T. discriminate.
    + intros H. destruct (H _ _ _ eq_refl) as [?|[_ ?]]; [congruence|contradiction].
Qed.

(** The theorem for a folder in a world without ffprobe: every video fails
    and the status is 0. *)
Lemma script_exit_status_witness :
  exists log st',
    script no_probe_world sample_host ["/v"] (fun l => l) = (0, log, st')
    /\ In (Batch (Some {| total := 3; successful := 0; failed := 3 |})) log.
Proof.
  pose proof (script_exit_status no_probe_world sample_host ["/v"] (fun l => l))
    as H.
  destruct (script no_probe_world sample_host ["/v"] (fun l => l))
    as [[status log] st'] eqn:E.
  destruct H as (_ & H & _).
  assert (S : status = 0).
  { apply H. split; [reflexivity|].
    exists "video_sheet_generator.exe", "/v", []. repeat split. now left. }
  subst status. exists log, st'. split; [reflexivity|].
  vm_compute in E. injection E as <- _. now left.
Defined.

(** X21.  The script removes its temporary directory exactly when it
    exits with 0, and then as the last thing it does: on every path that
    ends with another status, the early returns of [main] included, the
    directory is left behind.  It waits for the Enter key exactly when
    [main] has returned a code other than 0, which leaves out the exit
    after a failed extraction of its own files. *)
Theorem script_cleanup (w : World) (h : Host) (st : state)
    (completion : list (string * Z) -> list (string * Z)) :
  let '(status, log, st') := script w h st completion in
  (In Cleanup log <-> status = 0)
  /\ (status = 0 -> exists log', log = log' ++ [Cleanup] /\ ~ In Cleanup log')
  /\ ((exists prompt, In (Ask prompt) log) <->
      status <> 0 /\ extract_embedded_files h = true).
Proof.
  assert (NV : forall l, ~ In Cleanup (map Video l)).
  { intros l H. apply In_map_Video in H as [? ?]. discriminate. }
  assert (NA : forall l p, ~ In (Ask p) (map Video l)).
  { intros l p H. apply In_map_Video in H as [? ?]. discriminate. }
  unfold script, main.
  destruct (extract_embedded_files h) eqn:X; cbn [negb].
  2:{ split; [|split].
      - split; [intros [?|[]]; discriminate|discriminate].
      - discriminate.
      - split; [intros (p & [?|[]]); discriminate|intros [_ ?]; discriminate]. }
  destruct (argv h) as [|program [|path others]] eqn:A.
  1,2: (cbn [Z.eqb app]; split; [|split];
        [split; [intros H; repeat (destruct H as [?|H]; try discriminate);
                 destruct H|discriminate]
        |discriminate
        |split; [intros _; split; [discriminate|reflexivity]
                |intros _; eexists; do 3 right; left; reflexivity]]).
  destruct (path_exists st path) eqn:P; cbn [negb].
  2:{ cbn [Z.eqb app]; split; [|split].
      - split; [intros H; repeat (destruct H as [?|H]; try discriminate);
                destruct H|discriminate].
      - discriminate.
      - split; [intros _; split; [discriminate|reflexivity]
               |intros _; eexists; right; left; reflexivity]. }
  destruct (isdir h path) eqn:D.
  { destruct (process_folder w st completion path) as [r st1].
    cbn [Z.eqb]. split; [|split].
    - split; [reflexivity|]. intros _. right. now left.
    - intros _. exists [Batch r]. split; [reflexivity|].
      intros [?|[]]. discriminate.
    - split; [|intros [? _]; contradiction].
      intros (p & H). repeat (destruct H as [?|H]; try discriminate). destruct H. }
  destruct (mem_string (lower (snd (splitext path))) VIDEO_EXTENSIONS) eqn:V.
  2:{ cbn [Z.eqb app]; split; [|split].
      - split; [intros H; repeat (destruct H as [?|H]; try discriminate);
                destruct H|discriminate].
      - discriminate.
      - split; [intros _; split; [discriminate|reflexivity]
               |intros _; eexists; right; left; reflexivity]. }
  destruct (process_video w st path 1 1) as [[ok log] st1] eqn:R.
  destruct ok; cbn [Z.eqb].
  - split; [|split].
    + split; [reflexivity|]. intros _. apply in_or_app. right. right. now left.
    + intros _. exists (map Video log ++ [Say "Video processed successfully!"]).
      split; [now rewrite <- app_assoc|].
      intros H. apply in_app_or in H as [H|[H|[]]]; [now apply NV in H|discriminate].
    + split; [|intros [? _]; contradiction].
      intros (p & H). apply in_app_or in H as [H|H]; [now apply NA in H|].
      repeat (destruct H as [?|H]; try discriminate). destruct H.
  - split; [|split].
    + split; [|discriminate]. intros H.
      apply in_app_or in H as [H|H].
      * apply in_app_or in H as [H|[H|[]]]; [now apply NV in H|discriminate].
      * destruct H as [?|[]]. discriminate.
    + discriminate.
    + split; [intros _; split; [discriminate|reflexivity]|].
      intros _. eexists. apply in_or_app. right. now left.
Qed.
